(** * heart_effect: a shallow embedding of [main.py]

    The program draws a pulsing heart made of points and lets particles
    fall from it.  This development embeds the point generator, the colour
    gradient, the heartbeat deformer, the particle simulator and the frame
    loop, and proves the properties stated for them.

    Conventions of the embedding.
    - Python [int] is [Z].  Python [float] is read as a real number: [Q]
      where the code only uses field operations on integers
      ([heart_equation]), [R] where it uses [math.sqrt], [math.sin] or the
      wall clock.  Rounding of binary floating point is not modelled.
    - [Pos] and [Particle] objects are mutable and shared by reference, so
      they live in a store and lists hold references to them.
    - [random] and [time.time()] are streams of draws and of clock readings
      carried by the state, with a cursor each.
    - An uncaught exception ends the run: every effectful function returns
      a [result]. *)

From Stdlib Require Import ZArith QArith Qreals Reals Lra Lia Psatz.
From stdpp Require Import base list.

(** ** Constants *)

Definition WIDTH : Z := 600.
Definition HEIGHT : Z := 600.

Definition GRAVITY : R := 0.1.
Definition MAX_DELAY : R := 2.5.
Definition PARTICLE_COUNT : nat := 1000.

Definition rgb : Type := Z * Z * Z.

Definition BLACK : rgb := (0, 0, 0)%Z.
Definition PINK : rgb := (219, 112, 147)%Z.
Definition SOFTER_PINK : rgb := (255, 204, 213)%Z.

Definition scale : list Z := [150; 120]%Z.
Definition center_x : Z := (WIDTH / 2)%Z.
Definition center_y : Z := (HEIGHT / 2)%Z.

(** ** Exceptions *)

Inductive exn : Type :=
| IndexError
| ValueError
| ZeroDivisionError
| DanglingRef.  (* a reference outside the store: cannot happen in Python *)

Inductive result (A : Type) : Type :=
| Ok (a : A)
| Raise (e : exn).
Arguments Ok {A} a.
Arguments Raise {A} e.

(** ** Python primitives *)

(** [l[i]] with Python's negative indices. *)
Definition py_getitem {A : Type} (l : list A) (i : Z) : option A :=
  let n := Z.of_nat (length l) in
  if (0 <=? i)%Z then l !! Z.to_nat i
  else if (- n <=? i)%Z then l !! Z.to_nat (n + i)
  else None.

(** [range(start, stop, step)] for a positive step. *)
Definition py_range (start stop step : Z) : list Z :=
  (fun i => start + i * step)%Z <$> seqZ 0 ((stop - start + step - 1) / step).

(** [int(r)] on a float: truncation toward zero. *)
Definition int_of_R (r : R) : Z :=
  if Rle_dec 0 r then Int_part r else (- Int_part (- r))%Z.


(** ** Geometry generator: the implicit curve *)

Definition heart_equation (x y : Z) (scale_type : Z) : result bool :=
  match py_getitem scale scale_type with
  | None => Raise IndexError
  | Some s =>
      if (s =? 0)%Z then Raise ZeroDivisionError
      else
        let x := (inject_Z x / inject_Z s)%Q in
        let y := (inject_Z y / inject_Z s)%Q in
        let res := ((x ^ 2 + y ^ 2 - 1) ^ 3 - x ^ 2 * y ^ 3)%Q in
        Ok (Qle_bool res 0)
  end.

(** ** Colour gradient *)

Definition max_distance : R :=
  sqrt (IZR ((WIDTH / 2) ^ 2 + (HEIGHT / 2) ^ 2)).

(** The local [fade_factor] of [get_fade_color], after [max(0, ...)]. *)
Definition fade_factor (real_x real_y : Z) : R :=
  let distance := sqrt (IZR (real_x ^ 2 + real_y ^ 2)) in
  let fade_factor := (1 - distance / max_distance)%R in
  Rmax 0 fade_factor.

(** One channel: [int(near * fade_factor + far * (1 - fade_factor))]. *)
Definition mix (near far : Z) (f : R) : Z :=
  int_of_R (IZR near * f + IZR far * (1 - f))%R.

Definition get_fade_color (real_x real_y : Z) : rgb :=
  let f := fade_factor real_x real_y in
  let r := mix PINK.1.1 SOFTER_PINK.1.1 f in
  let g := mix PINK.1.2 SOFTER_PINK.1.2 f in
  let b := mix PINK.2 SOFTER_PINK.2 f in
  (r, g, b).

(** ** Heartbeat: the scale factor *)

Definition scale_factor (now : R) : R :=
  let t := (now * 2)%R in
  if Rlt_dec 0 (sin t)
  then (1 + 0.06 * sin t ^ 3)%R
  else (1 + 0.06 * sin t)%R.

(** ** Objects and the store *)

(** A reference is an index into a store. *)
Abbreviation loc := nat (only parsing).

(** [class Pos]; the constructor takes [x, y, color, real_x, real_y]. *)
Module Pos.
Record t : Type := mk {
  x : Z;
  y : Z;
  color : rgb;
  real_x : Z;
  real_y : Z
}.

Definition set_x (v : Z) (p : t) : t := mk v (y p) (color p) (real_x p) (real_y p).
Definition set_y (v : Z) (p : t) : t := mk (x p) v (color p) (real_x p) (real_y p).
Definition set_real_x (v : Z) (p : t) : t := mk (x p) (y p) (color p) v (real_y p).
Definition set_real_y (v : Z) (p : t) : t := mk (x p) (y p) (color p) (real_x p) v.
End Pos.

(** [class Particle].  [y] starts as the integer it is built from and
    becomes a float once gravity is added to it. *)
Module Particle.
Record t : Type := mk {
  x : Z;
  y : R;
  color : rgb;
  real_x : Z;
  real_y : Z;
  start_time : R;
  velocity : R;
  active : bool
}.

Definition set_y (v : R) (p : t) : t :=
  mk (x p) v (color p) (real_x p) (real_y p) (start_time p) (velocity p) (active p).
Definition set_velocity (v : R) (p : t) : t :=
  mk (x p) (y p) (color p) (real_x p) (real_y p) (start_time p) v (active p).
Definition set_active (v : bool) (p : t) : t :=
  mk (x p) (y p) (color p) (real_x p) (real_y p) (start_time p) (velocity p) v.
End Particle.

(** The whole program state: the two object stores (a reference is an
    index, allocation appends), the random and clock streams with their
    cursors, the pixels written since the last [screen.fill], and the
    three module-level lists. *)
Record state : Type := mkState {
  pos_store : list Pos.t;
  particle_store : list Particle.t;
  rand_ints : nat -> Z;
  rand_units : nat -> R;
  rand_cursor : nat;
  clock : nat -> R;
  clock_cursor : nat;
  screen : list (Z * Z * rgb);
  heart_data_root : list loc;
  heart_data : list loc;
  falling_particles : list loc
}.

Definition with_pos_store (v : list Pos.t) (s : state) : state :=
  mkState v (particle_store s) (rand_ints s) (rand_units s) (rand_cursor s)
    (clock s) (clock_cursor s) (screen s)
    (heart_data_root s) (heart_data s) (falling_particles s).
Definition with_particle_store (v : list Particle.t) (s : state) : state :=
  mkState (pos_store s) v (rand_ints s) (rand_units s) (rand_cursor s)
    (clock s) (clock_cursor s) (screen s)
    (heart_data_root s) (heart_data s) (falling_particles s).
Definition with_rand_cursor (v : nat) (s : state) : state :=
  mkState (pos_store s) (particle_store s) (rand_ints s) (rand_units s) v
    (clock s) (clock_cursor s) (screen s)
    (heart_data_root s) (heart_data s) (falling_particles s).
Definition with_clock_cursor (v : nat) (s : state) : state :=
  mkState (pos_store s) (particle_store s) (rand_ints s) (rand_units s) (rand_cursor s)
    (clock s) v (screen s)
    (heart_data_root s) (heart_data s) (falling_particles s).
Definition with_screen (v : list (Z * Z * rgb)) (s : state) : state :=
  mkState (pos_store s) (particle_store s) (rand_ints s) (rand_units s) (rand_cursor s)
    (clock s) (clock_cursor s) v
    (heart_data_root s) (heart_data s) (falling_particles s).
Definition with_heart_data_root (v : list loc) (s : state) : state :=
  mkState (pos_store s) (particle_store s) (rand_ints s) (rand_units s) (rand_cursor s)
    (clock s) (clock_cursor s) (screen s)
    v (heart_data s) (falling_particles s).
Definition with_heart_data (v : list loc) (s : state) : state :=
  mkState (pos_store s) (particle_store s) (rand_ints s) (rand_units s) (rand_cursor s)
    (clock s) (clock_cursor s) (screen s)
    (heart_data_root s) v (falling_particles s).
Definition with_falling_particles (v : list loc) (s : state) : state :=
  mkState (pos_store s) (particle_store s) (rand_ints s) (rand_units s) (rand_cursor s)
    (clock s) (clock_cursor s) (screen s)
    (heart_data_root s) (heart_data s) v.

(** ** The state-and-exception monad *)

Definition M (A : Type) : Type := state -> result (A * state).

Definition ret {A : Type} (a : A) : M A := fun s => Ok (a, s).

Definition bind {A B : Type} (m : M A) (k : A -> M B) : M B :=
  fun s =>
    match m s with
    | Ok (a, s') => k a s'
    | Raise e => Raise e
    end.

Definition raise {A : Type} (e : exn) : M A := fun _ => Raise e.

Definition lift {A : Type} (r : result A) : M A :=
  fun s => match r with Ok a => Ok (a, s) | Raise e => Raise e end.

Definition gets {A : Type} (f : state -> A) : M A := fun s => Ok (f s, s).
Definition modify (f : state -> state) : M unit := fun s => Ok (tt, f s).

Declare Scope monad_scope.
Delimit Scope monad_scope with monad.
Notation "x <- m ;; k" := (bind m (fun x => k))
  (at level 100, m at next level, k at level 200, right associativity) : monad_scope.
Notation "m ;; k" := (bind m (fun _ => k))
  (at level 100, k at level 200, right associativity) : monad_scope.
Open Scope monad_scope.

(** [for a in l: acc = body(a, acc)], the local variables of the loop body
    threaded as [acc]. *)
Fixpoint for_ {A B : Type} (l : list A) (acc : B) (body : A -> B -> M B) : M B :=
  match l with
  | [] => ret acc
  | a :: l' => acc' <- body a acc ;; for_ l' acc' body
  end.

(** *** Randomness and time *)

Definition unit_interval (r : R) : R := Rmax 0 (Rmin 1 r).

Definition draw_int : M Z :=
  fun s => Ok (rand_ints s (rand_cursor s), with_rand_cursor (S (rand_cursor s)) s).

Definition draw_unit : M R :=
  fun s => Ok (unit_interval (rand_units s (rand_cursor s)),
               with_rand_cursor (S (rand_cursor s)) s).

(** [random.randint(a, b)]: an integer of [a..b]. *)
Definition randint (a b : Z) : M Z :=
  if (b <? a)%Z then raise ValueError
  else z <- draw_int ;; ret (a + z mod (b - a + 1))%Z.

(** [random.uniform(a, b)]: [a + (b - a) * random()]. *)
Definition uniform (a b : R) : M R :=
  u <- draw_unit ;; ret (a + (b - a) * u)%R.

(** [random.choice(seq)]: [IndexError] on an empty sequence. *)
Definition choice {A : Type} (l : list A) : M A :=
  match l with
  | [] => raise IndexError
  | _ =>
      z <- draw_int ;;
      match l !! Z.to_nat (z mod Z.of_nat (length l)) with
      | Some a => ret a
      | None => raise IndexError
      end
  end.

Fixpoint sample_from {A : Type} (population : list A) (k : nat) : M (list A) :=
  match k with
  | O => ret []
  | S k' =>
      z <- draw_int ;;
      let i := Z.to_nat (z mod Z.of_nat (length population)) in
      match population !! i with
      | Some a => rest <- sample_from (delete i population) k' ;; ret (a :: rest)
      | None => raise ValueError
      end
  end.

(** [random.sample(population, k)]: [k] elements at distinct positions, in
    selection order; [ValueError] when the population is smaller than [k]. *)
Definition sample {A : Type} (population : list A) (k : nat) : M (list A) :=
  if (length population <? k)%nat then raise ValueError
  else sample_from population k.

(** [time.time()] *)
Definition time_time : M R :=
  fun s => Ok (clock s (clock_cursor s), with_clock_cursor (S (clock_cursor s)) s).

(** *** Store and list access *)

Definition new_Pos (x y : Z) (color : rgb) (real_x real_y : Z) : M loc :=
  fun s => Ok (length (pos_store s),
               with_pos_store (pos_store s ++ [Pos.mk x y color real_x real_y]) s).

Definition get_Pos (l : loc) : M Pos.t :=
  fun s => match pos_store s !! l with
           | Some p => Ok (p, s)
           | None => Raise DanglingRef
           end.

Definition modify_Pos (l : loc) (f : Pos.t -> Pos.t) : M unit :=
  fun s => match pos_store s !! l with
           | Some p => Ok (tt, with_pos_store (<[l := f p]> (pos_store s)) s)
           | None => Raise DanglingRef
           end.

(** [Particle.__init__]: the clock is read when the object is built. *)
Definition new_Particle (x y : Z) (color : rgb) (real_x real_y : Z) (delay : R) : M loc :=
  now <- time_time ;;
  fun s => Ok (length (particle_store s),
               with_particle_store
                 (particle_store s ++
                    [Particle.mk x (IZR y) color real_x real_y (now + delay) 0 false]) s).

Definition get_Particle (l : loc) : M Particle.t :=
  fun s => match particle_store s !! l with
           | Some p => Ok (p, s)
           | None => Raise DanglingRef
           end.

Definition modify_Particle (l : loc) (f : Particle.t -> Particle.t) : M unit :=
  fun s => match particle_store s !! l with
           | Some p => Ok (tt, with_particle_store (<[l := f p]> (particle_store s)) s)
           | None => Raise DanglingRef
           end.

(** [l[i]] for [i] of [range(len(...))]. *)
Definition index {A : Type} (l : list A) (i : nat) : M A :=
  match l !! i with
  | Some a => ret a
  | None => raise IndexError
  end.

(** [l.remove(a)]: the first occurrence goes, [ValueError] if there is none. *)
Fixpoint list_remove (a : loc) (l : list loc) : option (list loc) :=
  match l with
  | [] => None
  | b :: l' =>
      if decide (b = a) then Some l'
      else match list_remove a l' with
           | Some r => Some (b :: r)
           | None => None
           end
  end.

(** [screen.set_at((x, y), color)]: nothing happens outside the surface. *)
Definition set_at (x y : Z) (c : rgb) : M unit :=
  modify (fun s =>
    if ((0 <=? x) && (x <? WIDTH) && (0 <=? y) && (y <? HEIGHT))%Z
    then with_screen (screen s ++ [(x, y, c)]) s
    else s).

(** [l[i]] read as a [Pos], and an attribute assignment on [l[i]]. *)
Definition item (l : list loc) (i : nat) : M Pos.t :=
  h <- index l i ;; get_Pos h.

Definition set_item (l : list loc) (i : nat) (f : Pos.t -> Pos.t) : M unit :=
  h <- index l i ;; modify_Pos h f.

(** ** Geometry generator: the two scans *)

(** The body shared by the two scans: a point inside the curve becomes a
    [Pos] whose screen position is jittered by at most [jx] and [jy]. *)
Definition plot (jx jy : Z) (scale_type real_x real_y : Z) (heart_data : list loc)
  : M (list loc) :=
  inside <- lift (heart_equation real_x real_y scale_type) ;;
  if inside : bool then
    let screen_x := (center_x + real_x)%Z in
    let screen_y := (center_y - real_y)%Z in
    let color := get_fade_color real_x real_y in
    dx <- randint (- jx) jx ;;
    dy <- randint (- jy) jy ;;
    p <- new_Pos (screen_x + dx) (screen_y + dy) color real_x real_y ;;
    ret (heart_data ++ [p])
  else ret heart_data.

Definition get_pos_begin (heart_data : list loc) (scale_type : Z) : M (list loc) :=
  for_ (py_range ((- WIDTH) / 2) (WIDTH / 2) 1) heart_data (fun real_x heart_data =>
    for_ (py_range ((- HEIGHT) / 2) (HEIGHT / 2) 2) heart_data (fun real_y heart_data =>
      plot 20 10 scale_type real_x real_y heart_data)).

Definition get_hide_pos (heart_data : list loc) (scale_type : Z) : M (list loc) :=
  for_ (py_range ((- WIDTH) / 2) (WIDTH / 2) 1) heart_data (fun real_x heart_data =>
    for_ (py_range ((- HEIGHT) / 2) (HEIGHT / 2) 1) heart_data (fun real_y heart_data =>
      plot 5 10 scale_type real_x real_y heart_data)).

(** ** Particle simulator *)

(** [sorted(heart_data, key=lambda p: p.real_y)]: a stable sort on the key
    read from each object. *)
Fixpoint insert_by_key (k : Z) (p : loc) (l : list (Z * loc)) : list (Z * loc) :=
  match l with
  | [] => [(k, p)]
  | (k', q) :: l' =>
      if (k <=? k')%Z then (k, p) :: l else (k', q) :: insert_by_key k p l'
  end.

Definition stable_sort (l : list (Z * loc)) : list (Z * loc) :=
  foldr (fun kp acc => insert_by_key kp.1 kp.2 acc) [] l.

Definition sorted_by_real_y (heart_data : list loc) : M (list loc) :=
  keyed <- for_ heart_data [] (fun p acc =>
             o <- get_Pos p ;; ret (acc ++ [(Pos.real_y o, p)])) ;;
  ret ((stable_sort keyed).*2).

(** [Particle(p.x, p.y, p.color, p.real_x, p.real_y, random.uniform(0, hi))]
    appended to [acc]: the initial seeding calls it with [hi = MAX_DELAY],
    the recycling with [hi = 1]. *)
Definition spawn (hi : R) (p : loc) (acc : list loc) : M (list loc) :=
  o <- get_Pos p ;;
  delay <- uniform 0 hi ;;
  q <- new_Particle (Pos.x o) (Pos.y o) (Pos.color o) (Pos.real_x o) (Pos.real_y o) delay ;;
  ret (acc ++ [q]).

Definition generate_falling_particles (heart_data : list loc) (count : nat) : M (list loc) :=
  sorted_heart_data <- sorted_by_real_y heart_data ;;
  let bottom_particles := take 5000 sorted_heart_data in
  chosen <- sample bottom_particles count ;;
  for_ chosen [] (spawn MAX_DELAY).

(** The end of a turn of the first loop of [update_falling_particles],
    from [if p.y > HEIGHT:] on; [acc] holds the list [particles] being
    mutated and the local [new_particles]. *)
Definition settle (p : loc) (acc : list loc * list loc) : M (list loc * list loc) :=
  o <- get_Particle p ;;
  if Rgt_dec (Particle.y o) (IZR HEIGHT) then
    match list_remove p acc.1 with
    | None => raise ValueError
    | Some particles =>
        root <- gets heart_data_root ;;
        q <- choice root ;;
        ret (particles, acc.2 ++ [q])
    end
  else
    set_at (Particle.x o) (int_of_R (Particle.y o)) (Particle.color o) ;;
    ret acc.

(** One turn of that loop. *)
Definition update_one (current_time : R) (p : loc) (acc : list loc * list loc)
  : M (list loc * list loc) :=
  o <- get_Particle p ;;
  started <- (if Particle.active o then ret true
              else if Rge_dec current_time (Particle.start_time o)
                   then modify_Particle p (Particle.set_active true) ;; ret true
                   else ret false) ;;
  if started : bool then
    modify_Particle p (fun o => Particle.set_velocity (Particle.velocity o + GRAVITY) o) ;;
    modify_Particle p (fun o => Particle.set_y (Particle.y o + Particle.velocity o) o) ;;
    settle p acc
  else ret acc.

(** The function mutates the list it is given; here it returns the new
    contents.  The first loop runs over the copy [particles[:]]. *)
Definition update_falling_particles (particles : list loc) : M (list loc) :=
  current_time <- time_time ;;
  acc <- for_ particles (particles, []) (update_one current_time) ;;
  for_ acc.2 acc.1 (spawn 1).

(** ** Heartbeat deformer *)

Definition heart_beat_one (heart_data original_heart_data : list loc) (scale_factor : R)
    (i : nat) (_ : unit) : M unit :=
  o <- item original_heart_data i ;;
  let original_x := Pos.real_x o in
  o <- item original_heart_data i ;;
  let original_y := Pos.real_y o in
  jx <- randint (-3) 3 ;;
  set_item heart_data i (Pos.set_real_x (int_of_R (IZR original_x * scale_factor) + jx)) ;;
  jy <- randint (-3) 3 ;;
  set_item heart_data i (Pos.set_real_y (int_of_R (IZR original_y * scale_factor) + jy)) ;;
  h <- item heart_data i ;;
  set_item heart_data i (Pos.set_x (center_x + Pos.real_x h)) ;;
  h <- item heart_data i ;;
  set_item heart_data i (Pos.set_y (center_y - Pos.real_y h)) ;;
  ret tt.

Definition heart_beat (heart_data original_heart_data : list loc) (frame : R) : M unit :=
  now <- time_time ;;
  for_ (seq 0 (length heart_data)) tt
    (heart_beat_one heart_data original_heart_data (scale_factor now)).

(** ** Start-up and the frame loop *)

(** [deepcopy] of a list of [Pos]: a new object per element (the elements
    of the root cloud are pairwise distinct objects, see [startup_spec]). *)
Definition deepcopy (l : list loc) : M (list loc) :=
  for_ l [] (fun p acc =>
    o <- get_Pos p ;;
    q <- new_Pos (Pos.x o) (Pos.y o) (Pos.color o) (Pos.real_x o) (Pos.real_y o) ;;
    ret (acc ++ [q])).

(** [for p in heart_data_root: p.real_x = p.x - center_x; p.real_y = center_y - p.y] *)
Definition normalize (root : list loc) : M unit :=
  for_ root tt (fun p _ =>
    o <- get_Pos p ;;
    modify_Pos p (Pos.set_real_x (Pos.x o - center_x)) ;;
    o <- get_Pos p ;;
    modify_Pos p (Pos.set_real_y (center_y - Pos.y o))).

Definition startup : M unit :=
  root <- get_pos_begin [] 0 ;;
  layout_2 <- get_hide_pos [] 1 ;;
  modify (with_heart_data_root (root ++ layout_2)) ;;
  root <- gets heart_data_root ;;
  working <- deepcopy root ;;
  modify (with_heart_data working) ;;
  particles <- generate_falling_particles root PARTICLE_COUNT ;;
  modify (with_falling_particles particles) ;;
  normalize root.

(** [while len(falling_particles) < PARTICLE_COUNT: ...extend(...)].  Every
    turn adds [5] particles, so the deficit bounds the number of turns. *)
Fixpoint top_up_loop (turns : nat) : M unit :=
  match turns with
  | O => ret tt
  | S turns' =>
      particles <- gets falling_particles ;;
      if (length particles <? PARTICLE_COUNT)%nat then
        working <- gets heart_data ;;
        batch <- generate_falling_particles working 5 ;;
        modify (fun s => with_falling_particles (falling_particles s ++ batch) s) ;;
        top_up_loop turns'
      else ret tt
  end.

Definition top_up : M unit :=
  particles <- gets falling_particles ;;
  top_up_loop (PARTICLE_COUNT - length particles).

Definition draw_heart (heart_data : list loc) : M unit :=
  for_ heart_data tt (fun p _ =>
    o <- get_Pos p ;; set_at (Pos.x o) (Pos.y o) (Pos.color o)).

(** One turn of the main loop. *)
Definition frame : M unit :=
  modify (with_screen []) ;;
  working <- gets heart_data ;;
  root <- gets heart_data_root ;;
  heart_beat working root 0 ;;
  draw_heart working ;;
  particles <- gets falling_particles ;;
  particles <- update_falling_particles particles ;;
  modify (with_falling_particles particles) ;;
  top_up.

Fixpoint frames (n : nat) : M unit :=
  match n with
  | O => ret tt
  | S n' => frame ;; frames n'
  end.

Definition initial_state (ints : nat -> Z) (units : nat -> R) (times : nat -> R) : state :=
  mkState [] [] ints units 0 times 0 [] [] [] [].

(** The program run for [n] turns of its main loop. *)
Definition main (n : nat) : M unit := startup ;; frames n.

(** ** Vocabulary of the specification *)

(** [clamp(v, lo, hi)] *)
Definition clamp (v lo hi : R) : R := Rmax lo (Rmin hi v).

(** Distance of an offset from the centre. *)
Definition distance (dx dy : Z) : R := sqrt (IZR (dx ^ 2 + dy ^ 2)).

(** Linear interpolation of one channel, [fade] weighing the near colour. *)
Definition lerp (near far : Z) (fade : R) : R :=
  (IZR near * fade + IZR far * (1 - fade))%R.

(** ** A total-correctness triple for [M] *)

(** From a state satisfying [P], [m] returns without raising and [Q] holds
    of its result and final state. *)
Definition hoare {A : Type} (P : state -> Prop) (m : M A) (Q : A -> state -> Prop) : Prop :=
  forall s, P s -> exists a s', m s = Ok (a, s') /\ Q a s'.

(** ** Predicates on states *)

(** The coordinate invariant of a [Pos]. *)
Definition coordinate_invariant (p : Pos.t) : Prop :=
  Pos.x p = (center_x + Pos.real_x p)%Z /\ Pos.y p = (center_y - Pos.real_y p)%Z.

(** Every object of the cloud [l] satisfies the coordinate invariant. *)
Definition cloud_invariant (s : state) (l : list loc) : Prop :=
  forall r, r ∈ l -> exists p, pos_store s !! r = Some p /\ coordinate_invariant p.

(** Every reference of [l] points into [store]. *)
Definition valid_refs {A : Type} (store : list A) (l : list loc) : Prop :=
  forall r, r ∈ l -> r < length store.

(** The working cloud holds pairwise distinct objects, none of which is an
    object of the root cloud (what [deepcopy] gives). *)
Definition separated (working root : list loc) : Prop :=
  NoDup working /\ forall r, r ∈ working -> r ∉ root.

(** The three module-level lists, and the three input streams. *)
Definition globals (s : state) : list loc * list loc * list loc :=
  (heart_data_root s, heart_data s, falling_particles s).

Definition oracles (s : state) : (nat -> Z) * (nat -> R) * (nat -> R) :=
  (rand_ints s, rand_units s, clock s).

(** Only the store of [Pos] objects differs between the two states. *)
Definition same_but_pos (s s0 : state) : Prop :=
  particle_store s = particle_store s0 /\
  rand_cursor s = rand_cursor s0 /\
  clock_cursor s = clock_cursor s0 /\
  screen s = screen s0 /\
  globals s = globals s0 /\
  oracles s = oracles s0.

(** The invariant of the main loop: both clouds and the pool point into the
    stores, the working cloud is a separate copy of the root cloud, the
    root cloud is normalized and no particle moves upward. *)
Definition wf (s : state) : Prop :=
  valid_refs (pos_store s) (heart_data s) /\
  valid_refs (pos_store s) (heart_data_root s) /\
  length (heart_data s) = length (heart_data_root s) /\
  separated (heart_data s) (heart_data_root s) /\
  5 <= length (heart_data s) /\
  valid_refs (particle_store s) (falling_particles s) /\
  NoDup (falling_particles s) /\
  (forall l, l ∈ heart_data_root s ->
     exists p, pos_store s !! l = Some p /\ coordinate_invariant p) /\
  (forall l p, l ∈ falling_particles s -> particle_store s !! l = Some p ->
     (0 <= Particle.velocity p)%R).

(** ** Vocabulary for the deformer *)

(** The value of [random.randint(-3, 3)] on the raw draw [z]. *)
Definition jitter3 (z : Z) : Z := (-3 + z mod (3 - -3 + 1))%Z.

(** The object written by one turn of the deformer's loop: [po] is the
    root object read, [ph] the working object overwritten. *)
Definition deformed (sf : R) (jx jy : Z) (po ph : Pos.t) : Pos.t :=
  let rx := (int_of_R (IZR (Pos.real_x po) * sf) + jx)%Z in
  let ry := (int_of_R (IZR (Pos.real_y po) * sf) + jy)%Z in
  Pos.mk (center_x + rx) (center_y - ry) (Pos.color ph) rx ry.

(** What holds of the state [s] after the first [k] turns of the
    deformer's loop started in [s0]. *)
Definition heart_beat_inv (s0 : state) (working root : list loc) (sf : R)
    (k : nat) (s : state) : Prop :=
  rand_cursor s = rand_cursor s0 + 2 * k /\
  clock_cursor s = clock_cursor s0 /\
  particle_store s = particle_store s0 /\
  screen s = screen s0 /\
  globals s = globals s0 /\
  oracles s = oracles s0 /\
  length (pos_store s) = length (pos_store s0) /\
  (forall l, l ∉ take k working -> pos_store s !! l = pos_store s0 !! l) /\
  (forall l p, pos_store s !! l = Some p ->
     exists p0, pos_store s0 !! l = Some p0 /\ Pos.color p = Pos.color p0) /\
  (forall l, l ∈ take k working ->
     exists p, pos_store s !! l = Some p /\ coordinate_invariant p) /\
  (separated working root ->
   forall j h o, j < k -> working !! j = Some h -> root !! j = Some o ->
     exists ph po, pos_store s0 !! h = Some ph /\ pos_store s0 !! o = Some po /\
       pos_store s !! h =
         Some (deformed sf (jitter3 (rand_ints s0 (rand_cursor s0 + 2 * j)))
                 (jitter3 (rand_ints s0 (S (rand_cursor s0 + 2 * j)))) po ph)).

(** ** Vocabulary for the particle simulator *)

(** The particle [o] is falling, or its delay is over at [current_time]. *)
Definition starts (current_time : R) (o : Particle.t) : Prop :=
  Particle.active o = true \/ (current_time >= Particle.start_time o)%R.

Definition starts_dec ct o : {starts ct o} + {~ starts ct o}.
Proof.
  unfold starts. destruct (Particle.active o).
  - left. auto.
  - destruct (Rge_dec ct (Particle.start_time o)); [left | right]; intuition discriminate.
Defined.

(** The particle after [p.velocity += GRAVITY; p.y += p.velocity], active. *)
Definition advance (o : Particle.t) : Particle.t :=
  Particle.mk (Particle.x o) (Particle.y o + (Particle.velocity o + GRAVITY))
    (Particle.color o) (Particle.real_x o) (Particle.real_y o)
    (Particle.start_time o) (Particle.velocity o + GRAVITY) true.

(** [p.y > HEIGHT] *)
Definition off_screen (o : Particle.t) : Prop := (Particle.y o > IZR HEIGHT)%R.

(** The particle moves in this update pass and leaves the screen. *)
Definition falls_off (current_time : R) (o : Particle.t) : Prop :=
  starts current_time o /\ off_screen (advance o).

(** The particle built from the [Pos] [o] at clock reading [now]. *)
Definition particle_of (o : Pos.t) (now delay : R) : Particle.t :=
  Particle.mk (Pos.x o) (IZR (Pos.y o)) (Pos.color o) (Pos.real_x o) (Pos.real_y o)
    (now + delay) 0 false.

(** The element picked by [random.choice] on the raw draw [z]. *)
Definition chosen {A : Type} (l : list A) (z : Z) : option A :=
  l !! Z.to_nat (z mod Z.of_nat (length l)).

(** The delay drawn by [random.uniform(0, hi)] on the raw draw [u]. *)
Definition delay_of (hi u : R) : R := (0 + (hi - 0) * unit_interval u)%R.

(** What holds after the turns [done] of the first loop of
    [update_falling_particles], started in [s0] over the copy [snap]. *)
Definition update_inv (s0 : state) (ct : R) (snap done : list loc)
    (acc : list loc * list loc) (s : state) : Prop :=
  pos_store s = pos_store s0 /\
  globals s = globals s0 /\
  oracles s = oracles s0 /\
  clock_cursor s = clock_cursor s0 /\
  length (particle_store s) = length (particle_store s0) /\
  (forall l, l ∉ done -> particle_store s !! l = particle_store s0 !! l) /\
  (forall q, q ∈ acc.2 -> q ∈ heart_data_root s0) /\
  exists kept,
    acc.1 = kept ++ drop (length done) snap /\
    sublist kept done /\
    length kept + length acc.2 = length done /\
    forall l o, l ∈ done -> particle_store s0 !! l = Some o ->
      (l ∈ kept <-> ~ falls_off ct o) /\
      particle_store s !! l = Some (if starts_dec ct o then advance o else o).

(** What holds after the turns [done] of the second loop, started in [s1]
    with the list [base]. *)
Definition spawn_inv (hi : R) (s1 : state) (base done : list loc) (acc : list loc) (s : state)
  : Prop :=
  pos_store s = pos_store s1 /\
  globals s = globals s1 /\
  oracles s = oracles s1 /\
  rand_cursor s = rand_cursor s1 + length done /\
  clock_cursor s = clock_cursor s1 + length done /\
  acc = base ++ seq (length (particle_store s1)) (length done) /\
  exists added,
    particle_store s = particle_store s1 ++ added /\
    length added = length done /\
    forall i q, done !! i = Some q ->
      exists o, pos_store s1 !! q = Some o /\
        added !! i =
          Some (particle_of o (clock s1 (clock_cursor s1 + i))
                  (delay_of hi (rand_units s1 (rand_cursor s1 + i)))).

(** The outcome of [update_falling_particles particles] run in [s]: the
    list is [kept] followed by the fresh particles, one per entry of
    [news], the points collected from the root cloud. *)
Definition update_post (s : state) (particles kept news : list loc) (s' : state) : Prop :=
  let ct := clock s (clock_cursor s) in
  sublist kept particles /\
  length kept + length news = length particles /\
  (forall l o, l ∈ particles -> particle_store s !! l = Some o ->
     (l ∈ kept <-> ~ falls_off ct o) /\
     particle_store s' !! l = Some (if starts_dec ct o then advance o else o)) /\
  (forall l, l < length (particle_store s) -> l ∉ particles ->
     particle_store s' !! l = particle_store s !! l) /\
  length (particle_store s') = length (particle_store s) + length news /\
  (forall i q, news !! i = Some q ->
     q ∈ heart_data_root s /\
     exists o j u, pos_store s !! q = Some o /\
       particle_store s' !! (length (particle_store s) + i) =
         Some (particle_of o (clock s j) (delay_of 1 u))) /\
  pos_store s' = pos_store s /\
  globals s' = globals s /\
  oracles s' = oracles s.

(** ** Vocabulary for start-up *)

(** The test of [heart_equation] as a boolean on a point. *)
Definition inside (scale_type : Z) (xy : Z * Z) : bool :=
  match heart_equation xy.1 xy.2 scale_type with
  | Ok b => b
  | Raise _ => false
  end.

(** The points visited by two nested [for] loops, in order. *)
Definition grid (xs ys : list Z) : list (Z * Z) :=
  x ← xs; (pair x <$> ys).

(** What holds after a scan started in [s0] with the list [acc0] has
    visited the points [pts]. *)
Definition scan_inv (s0 : state) (acc0 : list loc) (scale_type : Z)
    (pts : list (Z * Z)) (acc : list loc) (s : state) : Prop :=
  particle_store s = particle_store s0 /\
  globals s = globals s0 /\
  oracles s = oracles s0 /\
  clock_cursor s = clock_cursor s0 /\
  exists added,
    pos_store s = pos_store s0 ++ added /\
    length added = length (filter (fun xy => inside scale_type xy = true) pts) /\
    acc = acc0 ++ seq (length (pos_store s0)) (length added).

(** What holds after [deepcopy], started in [s0], has copied [done]. *)
Definition copy_inv (s0 : state) (done : list loc) (acc : list loc) (s : state) : Prop :=
  acc = seq (length (pos_store s0)) (length done) /\
  exists copies,
    s = with_pos_store (pos_store s0 ++ copies) s0 /\
    length copies = length done /\
    forall i l, done !! i = Some l -> copies !! i = pos_store s0 !! l.

(** What holds after the normalization pass, started in [s0], has visited
    [done]. *)
Definition normalize_inv (s0 : state) (done : list loc) (s : state) : Prop :=
  same_but_pos s s0 /\
  length (pos_store s) = length (pos_store s0) /\
  (forall l, l ∉ done -> pos_store s !! l = pos_store s0 !! l) /\
  (forall l, l ∈ done -> exists p, pos_store s !! l = Some p /\ coordinate_invariant p) /\
  (forall l p, pos_store s !! l = Some p ->
     exists p0, pos_store s0 !! l = Some p0 /\
       Pos.x p = Pos.x p0 /\ Pos.y p = Pos.y p0 /\ Pos.color p = Pos.color p0).

(** ** A small state to run the functions on *)

(** Object [0] is the only point of the root cloud, object [1] the only
    point of the working cloud; the pool holds one active particle below
    the bottom edge; every raw random draw is [0] and the clock reads
    [now]. *)
Definition example_state (now : R) : state :=
  mkState
    [Pos.mk 310 310 PINK 10 (-10); Pos.mk 320 300 SOFTER_PINK 0 0]
    [Particle.mk 5 601 PINK 0 0 0 0 true]
    (fun _ => 0%Z) (fun _ => 0%R) 0 (fun _ => now) 0 []
    [0] [1] [0].

(** ** Vocabulary for the points the scans create *)

(** The value of [random.randint(-j, j)] on the raw draw [z]. *)
Definition jitter (j z : Z) : Z := (- j + z mod (j - - j + 1))%Z.

(** [p] is a [Pos] the scans may create for the grid point [xy]: logical
    offsets [xy], the gradient colour of [xy], and a screen position at most
    [jx] and [jy] pixels away from [(center_x + x, center_y - y)]. *)
Definition generated (jx jy : Z) (p : Pos.t) (xy : Z * Z) : Prop :=
  Pos.real_x p = xy.1 /\
  Pos.real_y p = xy.2 /\
  Pos.color p = get_fade_color xy.1 xy.2 /\
  (Z.abs (Pos.x p - (center_x + xy.1)) <= jx)%Z /\
  (Z.abs (Pos.y p - (center_y - xy.2)) <= jy)%Z.

(** What holds after a scan started in [s0] with the list [acc0] has
    visited the points [pts], object by object. *)
Definition scan_points_inv (s0 : state) (acc0 : list loc) (jx jy scale_type : Z)
    (pts : list (Z * Z)) (acc : list loc) (s : state) : Prop :=
  particle_store s = particle_store s0 /\
  globals s = globals s0 /\
  oracles s = oracles s0 /\
  clock_cursor s = clock_cursor s0 /\
  screen s = screen s0 /\
  exists added,
    pos_store s = pos_store s0 ++ added /\
    rand_cursor s = rand_cursor s0 + 2 * length added /\
    Forall2 (generated jx jy) added (filter (fun xy => inside scale_type xy = true) pts) /\
    acc = acc0 ++ seq (length (pos_store s0)) (length added).

(** ** Vocabulary for the seeding *)

(** The sort key of the object at [h]: [p.real_y]. *)
Definition real_y_of (s : state) (h : loc) : Z :=
  match pos_store s !! h with
  | Some o => Pos.real_y o
  | None => 0%Z
  end.

(** Keys in ascending order. *)
Fixpoint ascending (l : list (Z * loc)) : Prop :=
  match l with
  | [] => True
  | a :: l' => Forall (fun b => (a.1 <= b.1)%Z) l' /\ ascending l'
  end.

(** ** A pool to run the update pass on *)

(** A pool of two inactive particles over a root cloud of one point: at
    clock reading [now], particle [0] starts at [7] and particle [1] at
    [0]; every raw random draw is [0]. *)
Definition example_pool (now : R) : state :=
  mkState
    [Pos.mk 310 310 PINK 10 (-10)]
    [Particle.mk 5 100 PINK 0 0 7 0 false; Particle.mk 6 100 PINK 0 0 0 0 false]
    (fun _ => 0%Z) (fun _ => 0%R) 0 (fun _ => now) 0 []
    [0] [] [0; 1].

(** ** Vocabulary for the running program *)

(** The point [p] lies near the root point [po]: on each axis its logical
    offset differs from that of [po] by less than 6 percent of the latter
    plus [4]. *)
Definition tracks (po p : Pos.t) : Prop :=
  (Rabs (IZR (Pos.real_x p) - IZR (Pos.real_x po))
     < 0.06 * Rabs (IZR (Pos.real_x po)) + 4)%R /\
  (Rabs (IZR (Pos.real_y p) - IZR (Pos.real_y po))
     < 0.06 * Rabs (IZR (Pos.real_y po)) + 4)%R.

(** Every working point lies near the root point of the same index. *)
Definition cloud_tracks_root (s : state) : Prop :=
  forall i h o, heart_data s !! i = Some h -> heart_data_root s !! i = Some o ->
    exists po p, pos_store s !! o = Some po /\ pos_store s !! h = Some p /\ tracks po p.

(** The two clouds of [s'] are those of [s], and the root points are the
    same objects with the same contents. *)
Definition root_frozen (s s' : state) : Prop :=
  heart_data_root s' = heart_data_root s /\
  heart_data s' = heart_data s /\
  length (pos_store s') = length (pos_store s) /\
  forall l, l ∈ heart_data_root s -> pos_store s' !! l = pos_store s !! l.

(** The root point [po] and its working copy [ph] as start-up leaves them,
    for a grid point [g] inside the curve of selector [st]: the copy still
    has the offsets of [g], both have the colour of [g] and the same
    jittered screen position, and the offsets of [po] are recomputed from
    that position. *)
Definition seeded (st jx : Z) (g : Z * Z) (po ph : Pos.t) : Prop :=
  heart_equation g.1 g.2 st = Ok true /\
  Pos.real_x ph = g.1 /\ Pos.real_y ph = g.2 /\
  Pos.color ph = get_fade_color g.1 g.2 /\
  Pos.color po = Pos.color ph /\
  Pos.x po = Pos.x ph /\ Pos.y po = Pos.y ph /\
  coordinate_invariant po /\
  (Z.abs (Pos.real_x po - g.1) <= jx)%Z /\
  (Z.abs (Pos.real_y po - g.2) <= 10)%Z.

(** What holds after any part of a scan started in [s0] with the list
    [acc0]: every object created so far has its screen position displaced
    from [(center_x + real_x, center_y - real_y)] by the values of
    [random.randint(-jx, jx)] and [random.randint(-jy, jy)] on two draws
    of the stream. *)
Definition scan_shift_inv (s0 : state) (acc0 : list loc) (jx jy : Z)
    (acc : list loc) (s : state) : Prop :=
  rand_ints s = rand_ints s0 /\
  exists added,
    pos_store s = pos_store s0 ++ added /\
    acc = acc0 ++ seq (length (pos_store s0)) (length added) /\
    Forall (fun p => exists i j,
              Pos.x p = (center_x + Pos.real_x p + jitter jx (rand_ints s0 i))%Z /\
              Pos.y p = (center_y - Pos.real_y p + jitter jy (rand_ints s0 j))%Z) added.

(** * Proofs *)

(** ** Rules of the triple *)

Lemma hoare_ret {A : Type} (a : A) (P : state -> Prop) (Q : A -> state -> Prop) :
  (forall s, P s -> Q a s) -> hoare P (ret a) Q.
Proof. intros H s Hs. exists a, s. split; [reflexivity | auto]. Qed.

Lemma hoare_bind {A B : Type} (m : M A) (k : A -> M B) P R Q :
  hoare P m R -> (forall a, hoare (R a) (k a) Q) -> hoare P (bind m k) Q.
Proof.
  intros Hm Hk s Hs. destruct (Hm s Hs) as (a & s1 & E1 & H1).
  destruct (Hk a s1 H1) as (b & s2 & E2 & H2).
  exists b, s2. split; [| exact H2]. unfold bind. rewrite E1. exact E2.
Qed.

Lemma hoare_conseq {A : Type} (m : M A) (P P' : state -> Prop) (Q Q' : A -> state -> Prop) :
  hoare P' m Q' -> (forall s, P s -> P' s) -> (forall a s, Q' a s -> Q a s) ->
  hoare P m Q.
Proof.
  intros H HP HQ s Hs. destruct (H s (HP s Hs)) as (a & s' & E & Hq). eauto.
Qed.

Lemma hoare_gets {A : Type} (f : state -> A) (P : state -> Prop) :
  hoare P (gets f) (fun a s => a = f s /\ P s).
Proof. intros s Hs. exists (f s), s. auto. Qed.

Lemma bind_Ok {A B : Type} (m : M A) (k : A -> M B) s a s' :
  m s = Ok (a, s') -> bind m k s = k a s'.
Proof. intros E. unfold bind. rewrite E. reflexivity. Qed.

(** The loop rule: [I done acc] holds after the elements [done]. *)
Lemma hoare_for {A B : Type} (I : list A -> B -> state -> Prop)
    (body : A -> B -> M B) (l : list A) (acc : B) :
  (forall done a rest acc, l = done ++ a :: rest ->
     hoare (I done acc) (body a acc) (fun acc' => I (done ++ [a]) acc')) ->
  hoare (I [] acc) (for_ l acc body) (fun acc' => I l acc').
Proof.
  intros Hstep.
  assert (G : forall rest done acc, l = done ++ rest ->
            hoare (I done acc) (for_ rest acc body) (fun acc' => I l acc')).
  { induction rest as [| a rest IH]; intros done acc0 El.
    - rewrite app_nil_r in El. subst done. apply hoare_ret. auto.
    - simpl. eapply hoare_bind.
      + apply (Hstep done a rest acc0 El).
      + intros acc1. apply IH. rewrite <- app_assoc. exact El. }
  apply (G l [] acc eq_refl).
Qed.

(** ** Integer part and truncation *)

Lemma Int_part_IZR (z : Z) : Int_part (IZR z) = z.
Proof. symmetry. apply Int_part_spec. lra. Qed.

Lemma Int_part_between (r : R) (z : Z) :
  (IZR z <= r < IZR z + 1)%R -> Int_part r = z.
Proof. intros H. symmetry. apply Int_part_spec. lra. Qed.

Lemma int_of_R_IZR (z : Z) : int_of_R (IZR z) = z.
Proof.
  unfold int_of_R. destruct (Rle_dec 0 (IZR z)) as [H | H].
  - apply Int_part_IZR.
  - rewrite <- opp_IZR, Int_part_IZR. lia.
Qed.


Lemma int_of_R_neg (r : R) (z : Z) :
  (r < 0)%R -> (IZR z - 1 < r <= IZR z)%R -> int_of_R r = z.
Proof.
  intros H0 H. unfold int_of_R. destruct (Rle_dec 0 r); [lra |].
  rewrite (Int_part_between (- r) (- z)); [lia |]. rewrite opp_IZR. lra.
Qed.

(** ** The implicit curve far from the centre *)

Lemma far_outside_R (u v : R) :
  (4 <= u * u + v * v -> 0 < (u ^ 2 + v ^ 2 - 1) ^ 3 - u ^ 2 * v ^ 3)%R.
Proof.
  intros H.
  set (a := (u * u)%R) in *. set (b := (v * v)%R) in *.
  assert (Ha : (0 <= a)%R) by (unfold a; nra).
  assert (Hb : (0 <= b)%R) by (unfold b; nra).
  assert (Hv : (v <= 1 + b / 4)%R).
  { pose proof (Rle_0_sqr (v - 2)) as Hs. unfold Rsqr in Hs. unfold b. lra. }
  assert (Hab : (0 <= a * b)%R) by (apply Rmult_le_pos; assumption).
  assert (H1 : (a * b * v <= a * b * (1 + b / 4))%R)
    by (apply Rmult_le_compat_l; assumption).
  replace (u ^ 2 * v ^ 3)%R with (a * b * v)%R by (unfold a, b; ring).
  replace (u ^ 2)%R with a by (unfold a; ring).
  replace (v ^ 2)%R with b by (unfold b; ring).
  set (d := (a + b - 4)%R). assert (Hd : (0 <= d)%R) by (unfold d; lra).
  assert (H2 : (a * b <= (a + b) * (a + b) / 4)%R).
  { pose proof (Rle_0_sqr (a - b)) as Hs. unfold Rsqr in Hs. lra. }
  assert (H3 : (a * b * (1 + b / 4) <= (a + b) * (a + b) / 4 * (1 + (a + b) / 4))%R).
  { apply Rmult_le_compat; lra. }
  replace (a + b)%R with (4 + d)%R in * by (unfold d; ring).
  assert (H4 : (0 <= d * d)%R) by (apply Rmult_le_pos; assumption).
  assert (H5 : (0 <= d * d * d)%R) by (apply Rmult_le_pos; assumption).
  apply Rlt_le_trans
    with (r2 := ((4 + d - 1) ^ 3 - (4 + d) * (4 + d) / 4 * (1 + (4 + d) / 4))%R); [| lra].
  replace ((4 + d - 1) ^ 3 - (4 + d) * (4 + d) / 4 * (1 + (4 + d) / 4))%R
    with (19 + 22 * d + 8 * (d * d) + 15 / 16 * (d * d * d))%R by field.
  lra.
Qed.

Ltac push_Q2R :=
  repeat (rewrite Q2R_plus in * || rewrite Q2R_minus in * || rewrite Q2R_mult in *).

Lemma Q2R_inject_Z (z : Z) : Q2R (inject_Z z) = IZR z.
Proof. unfold Q2R, inject_Z. simpl. field. Qed.

Lemma far_outside_Q (u v : Q) :
  (4 <= u * u + v * v -> 0 < (u ^ 2 + v ^ 2 - 1) ^ 3 - u ^ 2 * v ^ 3)%Q.
Proof.
  intros H. apply Rlt_Qlt. apply Qle_Rle in H. simpl. push_Q2R.
  change 0%Q with (inject_Z 0). change 1%Q with (inject_Z 1).
  change 4%Q with (inject_Z 4) in H. rewrite !Q2R_inject_Z. rewrite Q2R_inject_Z in H.
  pose proof (far_outside_R (Q2R u) (Q2R v) H) as Hr.
  simpl in Hr. lra.
Qed.

Lemma scale_entries (scale_type s : Z) :
  py_getitem scale scale_type = Some s -> s = 150%Z \/ s = 120%Z.
Proof.
  unfold py_getitem. intros H.
  assert (Hin : s ∈ scale).
  { destruct (0 <=? scale_type)%Z; [| destruct (_ <=? scale_type)%Z; [| discriminate]];
      apply list_elem_of_lookup; eauto. }
  unfold scale in Hin. rewrite !elem_of_cons, elem_of_nil in Hin. tauto.
Qed.

(** C6: a point at least twice the scale constant away from the centre is
    outside the curve: [heart_equation] returns [False] for it, for either
    scale selector. *)
Theorem heart_equation_far_false (x y scale_type s : Z) :
  py_getitem scale scale_type = Some s ->
  (4 * s ^ 2 <= x ^ 2 + y ^ 2)%Z ->
  heart_equation x y scale_type = Ok false.
Proof.
  intros Hs Hfar. unfold heart_equation. rewrite Hs.
  assert (Hpos : (0 < s)%Z) by (destruct (scale_entries _ _ Hs); lia).
  destruct (Z.eqb_spec s 0) as [-> | _]; [lia |].
  f_equal. apply not_true_is_false. rewrite Qle_bool_iff. apply Qlt_not_le.
  apply far_outside_Q.
  apply Rle_Qle. push_Q2R. change 4%Q with (inject_Z 4).
  assert (Hne : ~ inject_Z s == 0).
  { intros E. apply Qeq_eqR in E. change 0%Q with (inject_Z 0) in E.
    rewrite !Q2R_inject_Z in E. apply eq_IZR in E. lia. }
  rewrite !Q2R_div, !Q2R_inject_Z by exact Hne.
  assert (HsR : (0 < IZR s)%R) by (apply IZR_lt; exact Hpos).
  rewrite !Z.pow_2_r in Hfar. apply IZR_le in Hfar.
  rewrite plus_IZR, !mult_IZR in Hfar.
  replace (IZR x / IZR s * (IZR x / IZR s) + IZR y / IZR s * (IZR y / IZR s))%R
    with ((IZR x * IZR x + IZR y * IZR y) / (IZR s * IZR s))%R by (field; lra).
  apply Rmult_le_reg_r with (r := (IZR s * IZR s)%R); [nra |].
  unfold Rdiv. rewrite Rmult_assoc, Rinv_l by nra. lra.
Qed.

Lemma heart_equation_far_false_witness :
  py_getitem scale 0 = Some 150%Z /\
  (4 * 150 ^ 2 <= 300 ^ 2 + 0 ^ 2)%Z /\
  heart_equation 300 0 0 = Ok false.
Proof.
  split; [reflexivity |]. split; [lia |].
  apply (heart_equation_far_false 300 0 0 150); [reflexivity | lia].
Defined.

(** ** The colour gradient *)

Lemma max_distance_pos : (0 < max_distance)%R.
Proof.
  unfold max_distance. apply sqrt_lt_R0.
  replace ((WIDTH / 2) ^ 2 + (HEIGHT / 2) ^ 2)%Z with 180000%Z by reflexivity. lra.
Qed.

Lemma distance_nonneg (dx dy : Z) : (0 <= distance dx dy)%R.
Proof. unfold distance. apply sqrt_pos. Qed.

Lemma fade_factor_clamp (dx dy : Z) :
  fade_factor dx dy = clamp (1 - distance dx dy / max_distance) 0 1.
Proof.
  unfold fade_factor, clamp. fold (distance dx dy).
  assert (H : (0 <= distance dx dy / max_distance)%R).
  { pose proof (distance_nonneg dx dy). pose proof max_distance_pos.
    unfold Rdiv. apply Rmult_le_pos; [assumption |].
    apply Rlt_le, Rinv_0_lt_compat. assumption. }
  rewrite (Rmin_right 1) by lra. reflexivity.
Qed.

Lemma get_fade_color_lerp (dx dy : Z) :
  get_fade_color dx dy =
    (int_of_R (lerp 219 255 (fade_factor dx dy)),
     int_of_R (lerp 112 204 (fade_factor dx dy)),
     int_of_R (lerp 147 213 (fade_factor dx dy))).
Proof. reflexivity. Qed.

Lemma lerp_near (near far : Z) : int_of_R (lerp near far 1) = near.
Proof.
  unfold lerp. replace (IZR near * 1 + IZR far * (1 - 1))%R with (IZR near) by ring.
  apply int_of_R_IZR.
Qed.

Lemma lerp_far (near far : Z) : int_of_R (lerp near far 0) = far.
Proof.
  unfold lerp. replace (IZR near * 0 + IZR far * (1 - 0))%R with (IZR far) by ring.
  apply int_of_R_IZR.
Qed.

(** C7: the fade factor is [clamp(1 - distance/max_distance, 0, 1)], each
    channel is the (truncated) linear interpolation between [PINK] and
    [SOFTER_PINK] with the fade factor weighing [PINK]; at distance [0] the
    colour is [PINK] exactly and at distance [max_distance] it is
    [SOFTER_PINK] exactly. *)
Theorem get_fade_color_gradient (dx dy : Z) :
  let fade := clamp (1 - distance dx dy / max_distance) 0 1 in
  fade_factor dx dy = fade /\
  get_fade_color dx dy =
    (int_of_R (lerp PINK.1.1 SOFTER_PINK.1.1 fade),
     int_of_R (lerp PINK.1.2 SOFTER_PINK.1.2 fade),
     int_of_R (lerp PINK.2 SOFTER_PINK.2 fade)) /\
  (distance dx dy = 0%R -> get_fade_color dx dy = PINK) /\
  (distance dx dy = max_distance -> get_fade_color dx dy = SOFTER_PINK).
Proof.
  intros fade. pose proof (fade_factor_clamp dx dy) as Hf. fold fade in Hf.
  pose proof max_distance_pos as Hm.
  split; [exact Hf |]. split; [rewrite get_fade_color_lerp, Hf; reflexivity |].
  split; intros Hd.
  - assert (E : fade_factor dx dy = 1%R).
    { unfold fade_factor. fold (distance dx dy). rewrite Hd.
      replace (1 - 0 / max_distance)%R with 1%R by (field; lra).
      apply Rmax_right. lra. }
    rewrite get_fade_color_lerp, E, !lerp_near. reflexivity.
  - assert (E : fade_factor dx dy = 0%R).
    { unfold fade_factor. fold (distance dx dy). rewrite Hd.
      replace (1 - max_distance / max_distance)%R with 0%R by (field; lra).
      apply Rmax_left. lra. }
    rewrite get_fade_color_lerp, E, !lerp_far. reflexivity.
Qed.

Lemma get_fade_color_gradient_witness :
  (distance 0 0 = 0%R /\ get_fade_color 0 0 = PINK) /\
  (distance 300 300 = max_distance /\ get_fade_color 300 300 = SOFTER_PINK).
Proof.
  assert (H0 : distance 0 0 = 0%R) by (unfold distance; simpl; apply sqrt_0).
  assert (H1 : distance 300 300 = max_distance) by reflexivity.
  split; (split; [assumption |]).
  - apply (get_fade_color_gradient 0 0). exact H0.
  - apply (get_fade_color_gradient 300 300). exact H1.
Defined.

(** ** The heartbeat scale factor *)

Lemma sin_shift_2PI (x : R) : sin (x + 2 * PI) = sin x.
Proof. rewrite sin_plus, sin_2PI, cos_2PI. ring. Qed.

(** C5: the scale factor is [1 + 0.06 sin(2t)^3] when [sin(2t) > 0] and
    [1 + 0.06 sin(2t)] otherwise; it stays within [1 - 0.06, 1 + 0.06] and
    takes the same value at [t] and at [t + PI]. *)
Theorem scale_factor_bounded_periodic (t : R) :
  scale_factor t =
    (if Rlt_dec 0 (sin (2 * t)) then 1 + 0.06 * sin (2 * t) ^ 3 else 1 + 0.06 * sin (2 * t))%R /\
  (1 - 0.06 <= scale_factor t <= 1 + 0.06)%R /\
  scale_factor (t + PI) = scale_factor t.
Proof.
  split; [| split].
  - unfold scale_factor. replace (t * 2)%R with (2 * t)%R by ring. reflexivity.
  - unfold scale_factor. pose proof (SIN_bound (t * 2)) as [Hlo Hhi].
    set (v := sin (t * 2)) in *.
    destruct (Rlt_dec 0 v) as [Hp | Hn]; [| lra].
    assert (0 <= v * v <= 1)%R by nra.
    assert (0 <= v * (v * v) <= 1)%R by nra.
    simpl. rewrite Rmult_1_r. lra.
  - unfold scale_factor.
    replace ((t + PI) * 2)%R with (t * 2 + 2 * PI)%R by ring.
    rewrite sin_shift_2PI. reflexivity.
Qed.

(** ** Running the primitives *)

Lemma get_Pos_Ok s l p : pos_store s !! l = Some p -> get_Pos l s = Ok (p, s).
Proof. intros E. unfold get_Pos. rewrite E. reflexivity. Qed.

Lemma modify_Pos_Ok s l p f :
  pos_store s !! l = Some p ->
  modify_Pos l f s = Ok (tt, with_pos_store (<[l := f p]> (pos_store s)) s).
Proof. intros E. unfold modify_Pos. rewrite E. reflexivity. Qed.

Lemma randint_Ok a b s :
  (a <= b)%Z ->
  randint a b s =
    Ok ((a + rand_ints s (rand_cursor s) mod (b - a + 1))%Z,
        with_rand_cursor (S (rand_cursor s)) s).
Proof.
  intros H. unfold randint. destruct (Z.ltb_spec b a); [lia | reflexivity].
Qed.

Lemma item_Ok s l i h p :
  l !! i = Some h -> pos_store s !! h = Some p -> item l i s = Ok (p, s).
Proof.
  intros Hl Hp. unfold item, index. rewrite Hl. unfold bind, ret. apply get_Pos_Ok, Hp.
Qed.

Lemma set_item_Ok s l i h p f :
  l !! i = Some h -> pos_store s !! h = Some p ->
  set_item l i f s = Ok (tt, with_pos_store (<[h := f p]> (pos_store s)) s).
Proof.
  intros Hl Hp. unfold set_item, index. rewrite Hl. unfold bind, ret.
  apply modify_Pos_Ok, Hp.
Qed.

Lemma heart_beat_one_eq s working root sf i h o ph po :
  working !! i = Some h -> root !! i = Some o ->
  pos_store s !! h = Some ph -> pos_store s !! o = Some po ->
  heart_beat_one working root sf i tt s =
    Ok (tt, with_pos_store
              (<[h := deformed sf (jitter3 (rand_ints s (rand_cursor s)))
                        (jitter3 (rand_ints s (S (rand_cursor s)))) po ph]> (pos_store s))
              (with_rand_cursor (S (S (rand_cursor s))) s)).
Proof.
  intros Hw Hr Hh Ho.
  assert (Hlt : h < length (pos_store s)) by (eapply lookup_lt_Some; eauto).
  unfold heart_beat_one.
  rewrite (bind_Ok _ _ _ _ _ (item_Ok _ _ _ _ _ Hr Ho)).
  rewrite (bind_Ok _ _ _ _ _ (item_Ok _ _ _ _ _ Hr Ho)).
  rewrite (bind_Ok _ _ _ _ _ (randint_Ok (-3) 3 _ ltac:(lia))).
  erewrite bind_Ok; [| eapply set_item_Ok; [exact Hw |]; cbn; exact Hh].
  rewrite (bind_Ok _ _ _ _ _ (randint_Ok (-3) 3 _ ltac:(lia))).
  erewrite bind_Ok;
    [| eapply set_item_Ok; [exact Hw |]; cbn; apply list_lookup_insert_eq, Hlt].
  erewrite bind_Ok;
    [| eapply item_Ok; [exact Hw |]; cbn; apply list_lookup_insert_eq;
       rewrite length_insert; exact Hlt].
  erewrite bind_Ok;
    [| eapply set_item_Ok; [exact Hw |]; cbn; apply list_lookup_insert_eq;
       rewrite length_insert; exact Hlt].
  erewrite bind_Ok;
    [| eapply item_Ok; [exact Hw |]; cbn; apply list_lookup_insert_eq;
       rewrite !length_insert; exact Hlt].
  erewrite bind_Ok;
    [| eapply set_item_Ok; [exact Hw |]; cbn; apply list_lookup_insert_eq;
       rewrite !length_insert; exact Hlt].
  cbn. rewrite !list_insert_insert_eq. reflexivity.
Qed.

(** ** The deformer's loop *)

Lemma deformed_invariant sf jx jy po ph : coordinate_invariant (deformed sf jx jy po ph).
Proof. split; reflexivity. Qed.

Lemma seq_app_inv (n : nat) (done rest : list nat) (a : nat) :
  seq 0 n = done ++ a :: rest -> a = length done /\ a < n.
Proof.
  intros E.
  assert (H : seq 0 n !! length done = Some a).
  { rewrite E. rewrite lookup_app_r by lia. rewrite Nat.sub_diag. reflexivity. }
  apply lookup_seq in H. lia.
Qed.

Section HeartBeatLoop.
Variables (s0 : state) (working root : list loc) (sf : R).
Hypothesis Hworking : valid_refs (pos_store s0) working.
Hypothesis Hroot : valid_refs (pos_store s0) root.
Hypothesis Hlen : length working <= length root.

Lemma heart_beat_inv_init : heart_beat_inv s0 working root sf 0 s0.
Proof.
  unfold heart_beat_inv. repeat split; try reflexivity; try lia.
  - intros l p E. eauto.
  - intros l Hl. rewrite take_0 in Hl. inversion Hl.
Qed.

Lemma heart_beat_inv_step (k : nat) :
  k < length working ->
  hoare (heart_beat_inv s0 working root sf k) (heart_beat_one working root sf k tt)
    (fun _ => heart_beat_inv s0 working root sf (S k)).
Proof.
  intros Hk s (Hrc & Hcc & Hps & Hsc & Hg & Hor & Hl & Hframe & Hcol & Hinv & Hdef).
  destruct (lookup_lt_is_Some_2 working k Hk) as [h Hh].
  destruct (lookup_lt_is_Some_2 root k ltac:(lia)) as [o Ho].
  assert (Hhv : h < length (pos_store s)).
  { rewrite Hl. apply Hworking. apply list_elem_of_lookup. eauto. }
  assert (Hov : o < length (pos_store s)).
  { rewrite Hl. apply Hroot. apply list_elem_of_lookup. eauto. }
  destruct (lookup_lt_is_Some_2 _ _ Hhv) as [ph Hph].
  destruct (lookup_lt_is_Some_2 _ _ Hov) as [po Hpo].
  eexists tt, _. split; [apply (heart_beat_one_eq _ _ _ _ _ _ _ _ _ Hh Ho Hph Hpo) |].
  assert (Htake : take (S k) working = take k working ++ [h]).
  { erewrite take_S_r; eauto. }
  unfold heart_beat_inv. cbn. rewrite Htake.
  split; [lia |]. split; [exact Hcc |]. split; [exact Hps |]. split; [exact Hsc |].
  split; [exact Hg |]. split; [exact Hor |].
  split; [rewrite length_insert; exact Hl |].
  split; [| split; [| split]].
  - intros l Hnot. rewrite elem_of_app, list_elem_of_singleton in Hnot.
    rewrite list_lookup_insert_ne by (intros ->; tauto). apply Hframe. tauto.
  - intros l p E. destruct (decide (l = h)) as [-> | Hne].
    + rewrite list_lookup_insert_eq in E by exact Hhv. injection E as <-.
      cbn. apply Hcol. exact Hph.
    + rewrite list_lookup_insert_ne in E by congruence. apply Hcol. exact E.
  - intros l Hin. destruct (decide (l = h)) as [-> | Hne].
    + eexists. split; [apply list_lookup_insert_eq, Hhv | apply deformed_invariant].
    + rewrite list_lookup_insert_ne by congruence. apply Hinv.
      rewrite elem_of_app, list_elem_of_singleton in Hin. tauto.
  - intros Hsep j h' o' Hj Hh' Ho'. destruct Hsep as [Hnd Hdisj].
    assert (Eor : rand_ints s = rand_ints s0) by (unfold oracles in Hor; congruence).
    destruct (decide (j = k)) as [-> | Hjk].
    + assert (h' = h) by congruence. assert (o' = o) by congruence. subst h' o'.
      assert (Hh_fresh : h ∉ take k working).
      { intros Hin. apply list_elem_of_lookup in Hin as [j Hj'].
        apply lookup_take_Some in Hj' as [Hj1 Hj2].
        pose proof (NoDup_lookup _ _ _ _ Hnd Hj1 Hh). lia. }
      assert (Ho_fresh : o ∉ take k working).
      { intros Hin. apply elem_of_take in Hin as (j & Hj1 & _).
        apply (Hdisj o); apply list_elem_of_lookup; eauto. }
      rewrite (Hframe _ Hh_fresh) in Hph. rewrite (Hframe _ Ho_fresh) in Hpo.
      exists ph, po. split; [exact Hph |]. split; [exact Hpo |].
      rewrite list_lookup_insert_eq by exact Hhv. rewrite Eor, Hrc. reflexivity.
    + destruct (Hdef (conj Hnd Hdisj) j h' o' ltac:(lia) Hh' Ho')
        as (ph' & po' & E1 & E2 & E3).
      exists ph', po'. split; [exact E1 |]. split; [exact E2 |].
      rewrite list_lookup_insert_ne; [exact E3 |].
      intros ->. pose proof (NoDup_lookup _ _ _ _ Hnd Hh Hh'). lia.
Qed.
End HeartBeatLoop.

Lemma time_time_Ok s :
  time_time s = Ok (clock s (clock_cursor s), with_clock_cursor (S (clock_cursor s)) s).
Proof. reflexivity. Qed.

Lemma jitter3_bounds (z : Z) : (-3 <= jitter3 z <= 3)%Z.
Proof. unfold jitter3. pose proof (Z.mod_pos_bound z (3 - -3 + 1)). lia. Qed.

(** The deformer runs to completion on clouds that point into the store,
    and ends in a state described by [heart_beat_inv]. *)
Lemma heart_beat_spec (s : state) (working root : list loc) (frame : R) :
  valid_refs (pos_store s) working ->
  valid_refs (pos_store s) root ->
  length working <= length root ->
  exists s',
    heart_beat working root frame s = Ok (tt, s') /\
    heart_beat_inv (with_clock_cursor (S (clock_cursor s)) s) working root
      (scale_factor (clock s (clock_cursor s))) (length working) s'.
Proof.
  intros Hw Hr Hlen. unfold heart_beat. rewrite (bind_Ok _ _ _ _ _ (time_time_Ok s)).
  set (s0 := with_clock_cursor (S (clock_cursor s)) s).
  set (sf := scale_factor (clock s (clock_cursor s))).
  assert (Hfor : hoare (heart_beat_inv s0 working root sf 0)
            (for_ (seq 0 (length working)) tt (heart_beat_one working root sf))
            (fun _ => heart_beat_inv s0 working root sf (length working))).
  { eapply hoare_conseq.
    - apply (hoare_for
        (fun done (_ : unit) st => heart_beat_inv s0 working root sf (length done) st)).
      intros done a rest [] Esplit. apply seq_app_inv in Esplit as [-> Hlt].
      eapply hoare_conseq.
      + apply (heart_beat_inv_step s0 working root sf Hw Hr Hlen (length done) Hlt).
      + auto.
      + intros [] st Hst. rewrite length_app. simpl.
        replace (length done + 1) with (S (length done)) by lia. exact Hst.
    - auto.
    - intros [] st Hst. simpl in Hst. rewrite length_seq in Hst. exact Hst. }
  destruct (Hfor s0 (heart_beat_inv_init s0 working root sf Hlen)) as ([] & s' & E & Hinv).
  exists s'. split; [exact E | exact Hinv].
Qed.

Lemma get_Particle_Ok s l p :
  particle_store s !! l = Some p -> get_Particle l s = Ok (p, s).
Proof. intros E. unfold get_Particle. rewrite E. reflexivity. Qed.

Lemma modify_Particle_Ok s l p f :
  particle_store s !! l = Some p ->
  modify_Particle l f s =
    Ok (tt, with_particle_store (<[l := f p]> (particle_store s)) s).
Proof. intros E. unfold modify_Particle. rewrite E. reflexivity. Qed.

Lemma chosen_elem {A : Type} (l : list A) (z : Z) :
  l <> [] -> exists a, chosen l z = Some a /\ a ∈ l.
Proof.
  intros Hne. unfold chosen.
  assert (Hlen : (0 < Z.of_nat (length l))%Z) by (destruct l; [congruence | simpl; lia]).
  pose proof (Z.mod_pos_bound z _ Hlen) as Hb.
  destruct (lookup_lt_is_Some_2 l (Z.to_nat (z mod Z.of_nat (length l))) ltac:(lia))
    as [a Ha].
  exists a. split; [exact Ha |]. apply list_elem_of_lookup. eauto.
Qed.

Lemma choice_Ok {A : Type} (l : list A) (a : A) s :
  chosen l (rand_ints s (rand_cursor s)) = Some a ->
  choice l s = Ok (a, with_rand_cursor (S (rand_cursor s)) s).
Proof.
  intros E. unfold choice. destruct l as [| b l]; [discriminate |].
  unfold bind, draw_int. unfold chosen in E. rewrite E. reflexivity.
Qed.

Lemma update_one_waiting ct p acc s o :
  particle_store s !! p = Some o -> ~ starts ct o ->
  update_one ct p acc s = Ok (acc, s).
Proof.
  intros Hp Hns. unfold update_one.
  rewrite (bind_Ok _ _ _ _ _ (get_Particle_Ok _ _ _ Hp)).
  unfold starts in Hns. destruct (Particle.active o); [tauto |].
  destruct (Rge_dec ct (Particle.start_time o)); [tauto |]. reflexivity.
Qed.

(** An eligible particle: the store after the three assignments. *)
Lemma update_one_moves ct p acc s o :
  particle_store s !! p = Some o -> starts ct o ->
  update_one ct p acc s =
    settle p acc (with_particle_store (<[p := advance o]> (particle_store s)) s).
Proof.
  intros Hp Hs. unfold update_one.
  assert (Hlt : p < length (particle_store s)) by (eapply lookup_lt_Some; eauto).
  rewrite (bind_Ok _ _ _ _ _ (get_Particle_Ok _ _ _ Hp)).
  destruct o as [x y c rx ry st v a]. unfold starts in Hs. cbn in Hs.
  destruct a.
  - cbn [Particle.active]. unfold bind at 1, ret at 1.
    erewrite bind_Ok; [| apply modify_Particle_Ok; exact Hp].
    erewrite bind_Ok; [| apply modify_Particle_Ok; cbn; apply list_lookup_insert_eq, Hlt].
    cbn. rewrite list_insert_insert_eq. reflexivity.
  - cbn [Particle.active Particle.start_time].
    destruct (Rge_dec ct st) as [_ | Hn]; [| destruct Hs; [discriminate | contradiction]].
    unfold bind at 1. unfold bind at 1, ret at 1.
    rewrite (modify_Particle_Ok _ _ _ _ Hp).
    erewrite bind_Ok; [| apply modify_Particle_Ok; cbn; apply list_lookup_insert_eq, Hlt].
    erewrite bind_Ok;
      [| apply modify_Particle_Ok; cbn; apply list_lookup_insert_eq;
         rewrite length_insert; exact Hlt].
    cbn. rewrite !list_insert_insert_eq. reflexivity.
Qed.

Lemma settle_expire p acc s o cur q :
  particle_store s !! p = Some o -> off_screen o ->
  list_remove p acc.1 = Some cur ->
  chosen (heart_data_root s) (rand_ints s (rand_cursor s)) = Some q ->
  settle p acc s = Ok ((cur, acc.2 ++ [q]), with_rand_cursor (S (rand_cursor s)) s).
Proof.
  intros Hp Hoff Hrm Hq. unfold settle.
  rewrite (bind_Ok _ _ _ _ _ (get_Particle_Ok _ _ _ Hp)).
  destruct (Rgt_dec (Particle.y o) (IZR HEIGHT)) as [_ | Hn]; [| contradiction].
  rewrite Hrm. unfold gets. unfold bind at 1.
  rewrite (bind_Ok _ _ _ _ _ (choice_Ok _ _ _ Hq)). reflexivity.
Qed.

Lemma settle_draw p acc s o :
  particle_store s !! p = Some o -> ~ off_screen o ->
  exists sc, settle p acc s = Ok (acc, with_screen sc s).
Proof.
  intros Hp Hon. unfold settle.
  rewrite (bind_Ok _ _ _ _ _ (get_Particle_Ok _ _ _ Hp)).
  destruct (Rgt_dec (Particle.y o) (IZR HEIGHT)) as [Hn | _]; [contradiction |].
  unfold set_at, modify, bind, ret.
  destruct (_ && _)%bool; [eexists; reflexivity |].
  exists (screen s). destruct s; reflexivity.
Qed.

Lemma list_remove_middle (p : loc) (kept rest : list loc) :
  p ∉ kept -> list_remove p (kept ++ p :: rest) = Some (kept ++ rest).
Proof.
  induction kept as [| b kept IH]; intros Hnot; simpl.
  - destruct (decide (p = p)); [reflexivity | congruence].
  - rewrite not_elem_of_cons in Hnot. destruct Hnot as [Hne Hnot].
    destruct (decide (b = p)); [congruence |]. rewrite (IH Hnot). reflexivity.
Qed.

Lemma update_inv_init s0 ct snap : update_inv s0 ct snap [] (snap, []) s0.
Proof.
  unfold update_inv. do 6 (split; [reflexivity |]).
  split; [intros q Hq; inversion Hq |].
  exists []. simpl. do 3 (split; [reflexivity || constructor |]).
  intros l o Hl. inversion Hl.
Qed.

Section UpdateLoop.
Variables (s0 : state) (ct : R) (snap : list loc).
Hypothesis Hvalid : valid_refs (particle_store s0) snap.
Hypothesis Hnodup : NoDup snap.
Hypothesis Hroot : heart_data_root s0 <> [].

Lemma update_inv_step (done rest : list loc) (p : loc) (acc : list loc * list loc) :
  snap = done ++ p :: rest ->
  hoare (update_inv s0 ct snap done acc) (update_one ct p acc)
    (fun acc' => update_inv s0 ct snap (done ++ [p]) acc').
Proof.
  intros Esnap s
    (Hpos & Hg & Hor & Hcc & Hlen & Hframe & Hnews & kept & Hacc & Hsub & Hcount & Hper).
  assert (Hp_done : p ∉ done).
  { rewrite Esnap in Hnodup. apply NoDup_app in Hnodup as (_ & Hd & _).
    intros Hin. apply (Hd p Hin). left. }
  assert (Hp_kept : p ∉ kept).
  { intros Hin. apply Hp_done. eapply elem_of_sublist; eauto. }
  assert (Hp_lt : p < length (particle_store s0)).
  { apply Hvalid. rewrite Esnap. apply elem_of_app. right. left. }
  destruct (lookup_lt_is_Some_2 _ _ Hp_lt) as [o Ho0].
  assert (Ho : particle_store s !! p = Some o) by (rewrite Hframe; assumption).
  assert (Hdrop : drop (length done) snap = p :: rest)
    by (rewrite Esnap; apply drop_app_length).
  assert (Hdrop' : drop (length (done ++ [p])) snap = rest).
  { rewrite Esnap.
    replace (done ++ p :: rest) with ((done ++ [p]) ++ rest)
      by (rewrite <- app_assoc; reflexivity).
    apply drop_app_length. }
  rewrite Hdrop in Hacc.
  (* the facts about the elements already done survive a write at [p] *)
  assert (Hother : forall st, (forall l, l <> p -> particle_store st !! l = particle_store s !! l) ->
            forall l o', l ∈ done -> particle_store s0 !! l = Some o' ->
              particle_store st !! l = Some (if starts_dec ct o' then advance o' else o')).
  { intros st Hst l o' Hl Hl0. rewrite Hst by (intros ->; contradiction).
    apply (Hper l o' Hl Hl0). }
  destruct (starts_dec ct o) as [Hs | Hns].
  - destruct (Rgt_dec (Particle.y (advance o)) (IZR HEIGHT)) as [Hoff | Hon].
    + (* removed and replaced *)
      destruct (chosen_elem (heart_data_root s) (rand_ints s (rand_cursor s)))
        as (q & Hq & Hqin).
      { unfold globals in Hg. congruence. }
      eexists _, _. split.
      { rewrite (update_one_moves _ _ _ _ _ Ho Hs).
        eapply settle_expire.
        - cbn. apply list_lookup_insert_eq. rewrite Hlen. exact Hp_lt.
        - exact Hoff.
        - rewrite Hacc. apply list_remove_middle, Hp_kept.
        - exact Hq. }
      unfold update_inv. cbn.
      do 4 (split; [assumption |]).
      split; [rewrite length_insert; exact Hlen |].
      split.
      { intros l Hl. rewrite not_elem_of_app, list_elem_of_singleton in Hl.
        rewrite list_lookup_insert_ne by (intros ->; tauto). apply Hframe. tauto. }
      split.
      { intros q' Hq'. rewrite elem_of_app, list_elem_of_singleton in Hq'.
        destruct Hq' as [Hq' | ->]; [auto |]. unfold globals in Hg. congruence. }
      exists kept. rewrite Hdrop'. split; [reflexivity |].
      split; [apply sublist_inserts_r, Hsub |].
      split; [rewrite !length_app; simpl; lia |].
      intros l o' Hl Hl0. rewrite elem_of_app, list_elem_of_singleton in Hl.
      destruct (decide (l = p)) as [-> | Hne].
      * assert (o' = o) by congruence. subst o'. split.
        -- split; [contradiction |]. intros Hnf. exfalso. apply Hnf. split; assumption.
        -- rewrite list_lookup_insert_eq by (rewrite Hlen; exact Hp_lt).
           destruct (starts_dec ct o); [reflexivity | contradiction].
      * destruct Hl as [Hl | ->]; [| congruence]. split; [apply (Hper l o' Hl Hl0) |].
        rewrite list_lookup_insert_ne by congruence. apply (Hper l o' Hl Hl0).
    + (* moved and drawn *)
      destruct (settle_draw p acc
                  (with_particle_store (<[p := advance o]> (particle_store s)) s)
                  (advance o)) as [sc Hsc].
      { cbn. apply list_lookup_insert_eq. rewrite Hlen. exact Hp_lt. }
      { exact Hon. }
      eexists _, _. split.
      { rewrite (update_one_moves _ _ _ _ _ Ho Hs). exact Hsc. }
      unfold update_inv. cbn.
      do 4 (split; [assumption |]).
      split; [rewrite length_insert; exact Hlen |].
      split.
      { intros l Hl. rewrite not_elem_of_app, list_elem_of_singleton in Hl.
        rewrite list_lookup_insert_ne by (intros ->; tauto). apply Hframe. tauto. }
      split; [exact Hnews |].
      exists (kept ++ [p]). rewrite Hdrop', Hacc.
      split; [rewrite <- app_assoc; reflexivity |].
      split; [apply sublist_app; [exact Hsub | reflexivity] |].
      split; [rewrite !length_app; simpl; lia |].
      intros l o' Hl Hl0. rewrite elem_of_app, list_elem_of_singleton in Hl.
      rewrite elem_of_app, list_elem_of_singleton.
      destruct (decide (l = p)) as [-> | Hne].
      * assert (o' = o) by congruence. subst o'. split.
        -- split; [| auto]. intros _ [_ Hoff]. contradiction.
        -- rewrite list_lookup_insert_eq by (rewrite Hlen; exact Hp_lt).
           destruct (starts_dec ct o); [reflexivity | contradiction].
      * destruct Hl as [Hl | ->]; [| congruence].
        destruct (Hper l o' Hl Hl0) as [Hk Hst]. split; [rewrite <- Hk; tauto |].
        rewrite list_lookup_insert_ne by congruence. exact Hst.
  - (* still waiting *)
    exists acc, s. split; [apply (update_one_waiting _ _ _ _ _ Ho Hns) |].
    unfold update_inv.
    do 5 (split; [assumption |]).
    split.
    { intros l Hl. rewrite not_elem_of_app in Hl. apply Hframe. tauto. }
    split; [exact Hnews |].
    exists (kept ++ [p]). rewrite Hdrop', Hacc.
    split; [rewrite <- app_assoc; reflexivity |].
    split; [apply sublist_app; [exact Hsub | reflexivity] |].
    split; [rewrite !length_app; simpl; lia |].
    intros l o' Hl Hl0. rewrite elem_of_app, list_elem_of_singleton in Hl.
    rewrite elem_of_app, list_elem_of_singleton.
    destruct (decide (l = p)) as [-> | Hne].
    * assert (o' = o) by congruence. subst o'. split.
      -- split; [| auto]. intros _ [Hs _]. contradiction.
      -- rewrite Ho. destruct (starts_dec ct o); [contradiction | reflexivity].
    * destruct Hl as [Hl | ->]; [| congruence].
      destruct (Hper l o' Hl Hl0) as [Hk Hst]. split; [rewrite <- Hk; tauto | exact Hst].
Qed.
End UpdateLoop.

Lemma unit_interval_bounds (r : R) : (0 <= unit_interval r <= 1)%R.
Proof.
  unfold unit_interval. split; [apply Rmax_l |].
  apply Rmax_lub; [lra | apply Rmin_l].
Qed.

Lemma delay_of_bounds (hi u : R) : (0 <= hi -> 0 <= delay_of hi u <= hi)%R.
Proof. intros H. unfold delay_of. pose proof (unit_interval_bounds u). nra. Qed.

Lemma spawn_Ok hi q particles s o :
  pos_store s !! q = Some o ->
  spawn hi q particles s =
    Ok (particles ++ [length (particle_store s)],
        with_particle_store
          (particle_store s ++
             [particle_of o (clock s (clock_cursor s))
                (delay_of hi (rand_units s (rand_cursor s)))])
          (with_clock_cursor (S (clock_cursor s))
             (with_rand_cursor (S (rand_cursor s)) s))).
Proof.
  intros Hq. unfold spawn. rewrite (bind_Ok _ _ _ _ _ (get_Pos_Ok _ _ _ Hq)).
  reflexivity.
Qed.

Lemma spawn_inv_init hi s1 base : spawn_inv hi s1 base [] base s1.
Proof.
  unfold spawn_inv. simpl. do 3 (split; [reflexivity |]).
  do 2 (split; [lia |]). split; [rewrite app_nil_r; reflexivity |].
  exists []. rewrite app_nil_r. do 2 (split; [reflexivity |]).
  intros i q Hq. rewrite lookup_nil in Hq. discriminate.
Qed.

Lemma spawn_inv_step hi s1 base (news done rest : list loc) (q : loc) (acc : list loc) :
  valid_refs (pos_store s1) news ->
  news = done ++ q :: rest ->
  hoare (spawn_inv hi s1 base done acc) (spawn hi q acc)
    (fun acc' => spawn_inv hi s1 base (done ++ [q]) acc').
Proof.
  intros Hvalid Enews s (Hpos & Hg & Hor & Hrc & Hcc & Hacc & added & Hst & Hlen & Hper).
  assert (Hq_lt : q < length (pos_store s1)).
  { apply Hvalid. rewrite Enews. apply elem_of_app. right. left. }
  destruct (lookup_lt_is_Some_2 _ _ Hq_lt) as [o Ho].
  eexists _, _. split; [apply spawn_Ok; rewrite Hpos; exact Ho |].
  unfold spawn_inv. cbn. rewrite length_app. simpl.
  do 3 (split; [assumption |]). do 2 (split; [lia |]).
  split.
  { rewrite Hacc, Hst, length_app, Hlen, seq_app, app_assoc. reflexivity. }
  exists (added ++ [particle_of o (clock s (clock_cursor s))
                      (delay_of hi (rand_units s (rand_cursor s)))]).
  split; [rewrite Hst, app_assoc; reflexivity |].
  split; [rewrite length_app; simpl; lia |].
  intros i q' Hq'. destruct (decide (i < length done)) as [Hlt | Hge].
  - rewrite lookup_app_l in Hq' by exact Hlt.
    rewrite lookup_app_l by lia. apply Hper. exact Hq'.
  - rewrite lookup_app_r in Hq' by lia.
    destruct (i - length done) as [| n] eqn:En; [| destruct n; discriminate].
    simpl in Hq'. injection Hq' as <-. exists o. split; [exact Ho |].
    rewrite lookup_app_r by lia. replace (i - length added) with 0 by lia. simpl.
    assert (Ei : i = length done) by lia. subst i.
    unfold oracles in Hor. injection Hor as E1 E2 E3. rewrite Hrc, Hcc, E2, E3.
    reflexivity.
Qed.

(** [update_falling_particles] runs to completion on a pool of distinct
    particles when the root cloud is not empty. *)
Lemma update_falling_particles_spec (s : state) (particles : list loc) :
  valid_refs (particle_store s) particles ->
  NoDup particles ->
  valid_refs (pos_store s) (heart_data_root s) ->
  heart_data_root s <> [] ->
  exists kept news s',
    update_falling_particles particles s =
      Ok (kept ++ seq (length (particle_store s)) (length news), s') /\
    update_post s particles kept news s'.
Proof.
  intros Hvalid Hnodup Hrootv Hroot. unfold update_falling_particles.
  rewrite (bind_Ok _ _ _ _ _ (time_time_Ok s)).
  set (ct := clock s (clock_cursor s)).
  set (s0 := with_clock_cursor (S (clock_cursor s)) s).
  assert (Hloop1 : hoare (update_inv s0 ct particles [] (particles, []))
            (for_ particles (particles, []) (update_one ct))
            (fun acc => update_inv s0 ct particles particles acc)).
  { apply (hoare_for (update_inv s0 ct particles)).
    intros done a rest acc E.
    apply (update_inv_step s0 ct particles Hvalid Hnodup Hroot done rest a acc E). }
  destruct (Hloop1 s0 (update_inv_init s0 ct particles))
    as ([cur news] & s1 & E1 & Hinv1).
  rewrite (bind_Ok _ _ _ _ _ E1). cbn [fst snd].
  destruct Hinv1 as (Hpos & Hg & Hor & Hcc & Hlen & Hframe & Hnews & kept & Hacc & Hsub &
                     Hcount & Hper).
  cbn [fst snd] in *. rewrite drop_all, app_nil_r in Hacc. subst cur.
  assert (Hnewsv : valid_refs (pos_store s1) news).
  { intros q Hq. rewrite Hpos. apply Hrootv. apply (Hnews q Hq). }
  assert (Hloop2 : hoare (spawn_inv 1 s1 kept [] kept) (for_ news kept (spawn 1))
            (fun acc => spawn_inv 1 s1 kept news acc)).
  { apply (hoare_for (spawn_inv 1 s1 kept)).
    intros done a rest acc E. apply (spawn_inv_step 1 s1 kept news done rest a acc Hnewsv E). }
  destruct (Hloop2 s1 (spawn_inv_init 1 s1 kept))
    as (res & s2 & E2 & (Hpos2 & Hg2 & Hor2 & Hrc2 & Hcc2 & Hres & added & Hst2 & Hlen2 & Hper2)).
  exists kept, news, s2. split.
  { rewrite E2, Hres, Hlen. reflexivity. }
  unfold update_post. fold ct.
  split; [exact Hsub |]. split; [exact Hcount |].
  split.
  { intros l o Hl Ho. destruct (Hper l o Hl Ho) as [Hk Hst]. split; [exact Hk |].
    rewrite Hst2, lookup_app_l; [exact Hst |]. rewrite Hlen. apply Hvalid, Hl. }
  split.
  { intros l Hl Hnot. rewrite Hst2, lookup_app_l by (rewrite Hlen; exact Hl).
    apply Hframe, Hnot. }
  split; [rewrite Hst2, length_app, Hlen, Hlen2; reflexivity |].
  split.
  { intros i q Hq. split; [apply Hnews; apply list_elem_of_lookup; eauto |].
    destruct (Hper2 i q Hq) as (o & Ho & Hadd).
    exists o, (clock_cursor s1 + i), (rand_units s1 (rand_cursor s1 + i)).
    split; [rewrite Hpos in Ho; exact Ho |].
    rewrite Hst2, lookup_app_r by (rewrite Hlen; cbn; lia).
    replace (length (particle_store s) + i - length (particle_store s1)) with i
      by (rewrite Hlen; cbn; lia).
    rewrite Hadd. unfold oracles in Hor. injection Hor as _ _ ->. reflexivity. }
  split; [rewrite Hpos2, Hpos; reflexivity |].
  split; [rewrite Hg2, Hg; reflexivity |].
  rewrite Hor2, Hor. reflexivity.
Qed.

(** ** The two scans *)

Lemma heart_equation_inside (x y scale_type : Z) :
  scale_type = 0%Z \/ scale_type = 1%Z ->
  heart_equation x y scale_type = Ok (inside scale_type (x, y)).
Proof.
  intros [-> | ->]; unfold inside, heart_equation; cbn [fst snd].
  - change (py_getitem scale 0) with (Some 150%Z). reflexivity.
  - change (py_getitem scale 1) with (Some 120%Z). reflexivity.
Qed.

Lemma plot_Ok (jx jy scale_type x y : Z) (acc : list loc) (s : state) :
  (0 <= jx)%Z -> (0 <= jy)%Z -> scale_type = 0%Z \/ scale_type = 1%Z ->
  exists p,
    plot jx jy scale_type x y acc s =
      if inside scale_type (x, y)
      then Ok (acc ++ [length (pos_store s)],
               with_pos_store (pos_store s ++ [p]) (with_rand_cursor (S (S (rand_cursor s))) s))
      else Ok (acc, s).
Proof.
  intros Hjx Hjy Hst. unfold plot. rewrite (heart_equation_inside x y scale_type Hst).
  unfold lift. unfold bind at 1.
  destruct (inside scale_type (x, y)); [| exists (Pos.mk 0 0 BLACK 0 0); reflexivity].
  rewrite (bind_Ok _ _ _ _ _ (randint_Ok (- jx) jx _ ltac:(lia))).
  rewrite (bind_Ok _ _ _ _ _ (randint_Ok (- jy) jy _ ltac:(lia))).
  eexists. reflexivity.
Qed.

Lemma scan_inv_plot (s0 : state) (acc0 : list loc) (jx jy scale_type x y : Z)
    (pts : list (Z * Z)) (acc : list loc) :
  (0 <= jx)%Z -> (0 <= jy)%Z -> scale_type = 0%Z \/ scale_type = 1%Z ->
  hoare (scan_inv s0 acc0 scale_type pts acc) (plot jx jy scale_type x y acc)
    (fun acc' => scan_inv s0 acc0 scale_type (pts ++ [(x, y)]) acc').
Proof.
  intros Hjx Hjy Hst s (Hps & Hg & Hor & Hcc & added & Hstore & Hlen & Hacc).
  destruct (plot_Ok jx jy scale_type x y acc s Hjx Hjy Hst) as [p Hp].
  destruct (inside scale_type (x, y)) eqn:Hin.
  - eexists _, _. split; [exact Hp |]. unfold scan_inv. cbn.
    do 4 (split; [assumption |]).
    exists (added ++ [p]). rewrite Hstore, <- app_assoc. split; [reflexivity |].
    rewrite filter_app, filter_cons_True by exact Hin.
    rewrite filter_nil, !length_app. simpl.
    split; [lia |]. rewrite seq_app, app_assoc, Hacc. reflexivity.
  - eexists _, _. split; [exact Hp |]. unfold scan_inv.
    do 4 (split; [assumption |]).
    exists added. split; [exact Hstore |].
    rewrite filter_app, filter_cons_False by (rewrite Hin; discriminate).
    rewrite filter_nil, app_nil_r.
    split; [exact Hlen | exact Hacc].
Qed.

Lemma grid_snoc (xs ys : list Z) (x : Z) :
  grid (xs ++ [x]) ys = grid xs ys ++ (pair x <$> ys).
Proof. unfold grid. rewrite bind_app. simpl. rewrite app_nil_r. reflexivity. Qed.

Lemma scan_spec (s0 : state) (acc0 : list loc) (jx jy scale_type : Z) (xs ys : list Z) :
  (0 <= jx)%Z -> (0 <= jy)%Z -> scale_type = 0%Z \/ scale_type = 1%Z ->
  hoare (scan_inv s0 acc0 scale_type [] acc0)
    (for_ xs acc0 (fun real_x heart_data =>
       for_ ys heart_data (fun real_y heart_data =>
         plot jx jy scale_type real_x real_y heart_data)))
    (fun acc => scan_inv s0 acc0 scale_type (grid xs ys) acc).
Proof.
  intros Hjx Hjy Hst.
  apply (hoare_for (fun done acc s => scan_inv s0 acc0 scale_type (grid done ys) acc s)).
  intros done x rest acc _.
  eapply hoare_conseq.
  - apply (hoare_for (fun doney acc s =>
             scan_inv s0 acc0 scale_type (grid done ys ++ (pair x <$> doney)) acc s)).
    intros doney y resty acc' _.
    eapply hoare_conseq.
    + apply (scan_inv_plot s0 acc0 jx jy scale_type x y
               (grid done ys ++ (pair x <$> doney)) acc' Hjx Hjy Hst).
    + auto.
    + intros a s H. rewrite fmap_app, app_assoc. exact H.
  - intros s H. simpl. rewrite app_nil_r. exact H.
  - intros a s H. rewrite grid_snoc. exact H.
Qed.

Lemma scan_inv_init (s0 : state) (acc0 : list loc) (scale_type : Z) :
  scan_inv s0 acc0 scale_type [] acc0 s0.
Proof.
  unfold scan_inv. do 4 (split; [reflexivity |]).
  exists []. simpl. rewrite !app_nil_r. auto.
Qed.

(** ** [deepcopy] and the normalization pass *)

Lemma new_Pos_Ok x y c rx ry s :
  new_Pos x y c rx ry s =
    Ok (length (pos_store s), with_pos_store (pos_store s ++ [Pos.mk x y c rx ry]) s).
Proof. reflexivity. Qed.

Lemma deepcopy_spec (s0 : state) (l : list loc) :
  valid_refs (pos_store s0) l ->
  hoare (copy_inv s0 [] []) (deepcopy l) (fun acc => copy_inv s0 l acc).
Proof.
  intros Hvalid. unfold deepcopy. apply (hoare_for (copy_inv s0)).
  intros done p rest acc E s (Hacc & copies & Hs & Hlen & Hper).
  assert (Hp : p < length (pos_store s0)).
  { apply Hvalid. rewrite E. apply elem_of_app. right. left. }
  destruct (lookup_lt_is_Some_2 _ _ Hp) as [o Ho].
  assert (Ho' : pos_store s !! p = Some o).
  { rewrite Hs. cbn. rewrite lookup_app_l by exact Hp. exact Ho. }
  eexists _, _. split.
  { rewrite (bind_Ok _ _ _ _ _ (get_Pos_Ok _ _ _ Ho')).
    rewrite (bind_Ok _ _ _ _ _ (new_Pos_Ok _ _ _ _ _ _)). reflexivity. }
  unfold copy_inv. split.
  { rewrite Hacc, length_app, seq_app. simpl. rewrite Hs. cbn.
    rewrite length_app, Hlen. reflexivity. }
  exists (copies ++ [o]). split.
  { rewrite Hs. cbn. rewrite <- app_assoc. destruct o. reflexivity. }
  split; [rewrite !length_app, Hlen; reflexivity |].
  intros i q Hq. destruct (decide (i < length done)) as [Hlt | Hge].
  - rewrite lookup_app_l in Hq by exact Hlt. rewrite lookup_app_l by lia. auto.
  - rewrite lookup_app_r in Hq by lia.
    destruct (i - length done) as [| n] eqn:En; [| destruct n; discriminate].
    simpl in Hq. injection Hq as <-.
    rewrite lookup_app_r by lia. replace (i - length copies) with 0 by lia.
    simpl. symmetry. exact Ho.
Qed.

Lemma copy_inv_init (s0 : state) : copy_inv s0 [] [] s0.
Proof.
  unfold copy_inv. split; [reflexivity |]. exists [].
  split; [rewrite app_nil_r; destruct s0; reflexivity |].
  split; [reflexivity |]. intros i l H. rewrite lookup_nil in H. discriminate.
Qed.

Lemma normalize_inv_init (s0 : state) : normalize_inv s0 [] s0.
Proof.
  unfold normalize_inv, same_but_pos. split; [tauto |].
  split; [reflexivity |]. split; [reflexivity |].
  split; [intros l H; inversion H |]. intros l p H. eauto.
Qed.

Lemma normalize_spec (s0 : state) (root : list loc) :
  valid_refs (pos_store s0) root ->
  hoare (normalize_inv s0 []) (normalize root) (fun _ => normalize_inv s0 root).
Proof.
  intros Hvalid. unfold normalize.
  apply (hoare_for (fun done (_ : unit) s => normalize_inv s0 done s)).
  intros done p rest [] E s (Hs & Hlen & Hframe & Hinv & Hkeep).
  assert (Hp : p < length (pos_store s)).
  { rewrite Hlen. apply Hvalid. rewrite E. apply elem_of_app. right. left. }
  destruct (lookup_lt_is_Some_2 _ _ Hp) as [o Ho].
  eexists tt, _. split.
  { rewrite (bind_Ok _ _ _ _ _ (get_Pos_Ok _ _ _ Ho)).
    rewrite (bind_Ok _ _ _ _ _ (modify_Pos_Ok _ _ _ _ Ho)).
    erewrite bind_Ok; [| apply get_Pos_Ok; cbn; apply list_lookup_insert_eq, Hp].
    apply modify_Pos_Ok. cbn. apply list_lookup_insert_eq, Hp. }
  unfold normalize_inv. cbn. rewrite list_insert_insert_eq.
  split; [exact Hs |].
  split; [rewrite length_insert; exact Hlen |].
  split.
  { intros l Hl. rewrite not_elem_of_app, list_elem_of_singleton in Hl.
    rewrite list_lookup_insert_ne by (intros ->; tauto). apply Hframe. tauto. }
  split.
  { intros l Hl. destruct (decide (l = p)) as [-> | Hne].
    - eexists. split; [apply list_lookup_insert_eq, Hp |].
      unfold coordinate_invariant. cbn. lia.
    - rewrite list_lookup_insert_ne by congruence. apply Hinv.
      rewrite elem_of_app, list_elem_of_singleton in Hl. tauto. }
  intros l q Hq. destruct (decide (l = p)) as [-> | Hne].
  - rewrite list_lookup_insert_eq in Hq by exact Hp. injection Hq as <-. cbn.
    apply Hkeep. exact Ho.
  - rewrite list_lookup_insert_ne in Hq by congruence. apply Hkeep. exact Hq.
Qed.

(** ** Seeding: sorting, sampling and [generate_falling_particles] *)

Lemma insert_by_key_perm (k : Z) (p : loc) (l : list (Z * loc)) :
  insert_by_key k p l ≡ₚ (k, p) :: l.
Proof.
  induction l as [| [k' q] l IH]; simpl; [reflexivity |].
  destruct (k <=? k')%Z; [reflexivity |].
  rewrite IH. apply Permutation_swap.
Qed.

Lemma stable_sort_perm (l : list (Z * loc)) : stable_sort l ≡ₚ l.
Proof.
  induction l as [| [k p] l IH]; simpl; [reflexivity |].
  rewrite insert_by_key_perm. cbn. rewrite IH. reflexivity.
Qed.

Lemma sorted_by_real_y_spec (s : state) (heart_data : list loc) :
  valid_refs (pos_store s) heart_data ->
  exists sorted,
    sorted_by_real_y heart_data s = Ok (sorted, s) /\ sorted ≡ₚ heart_data.
Proof.
  intros Hvalid. unfold sorted_by_real_y.
  assert (Hloop : hoare (fun st => st = s)
            (for_ heart_data [] (fun p acc =>
               o <- get_Pos p ;; ret (acc ++ [(Pos.real_y o, p)])))
            (fun acc st => st = s /\ acc.*2 = heart_data)).
  { eapply hoare_conseq.
    - apply (hoare_for (fun done (acc : list (Z * loc)) st => st = s /\ acc.*2 = done)).
      intros done p rest acc E st [-> Hacc].
      assert (Hp : p < length (pos_store s)).
      { apply Hvalid. rewrite E. apply elem_of_app. right. left. }
      destruct (lookup_lt_is_Some_2 _ _ Hp) as [o Ho].
      eexists _, _. split.
      { rewrite (bind_Ok _ _ _ _ _ (get_Pos_Ok _ _ _ Ho)). reflexivity. }
      split; [reflexivity |]. rewrite fmap_app, Hacc. reflexivity.
    - intros st ->. split; reflexivity.
    - auto. }
  destruct (Hloop s eq_refl) as (keyed & s' & E & -> & Hk).
  exists ((stable_sort keyed).*2). split.
  { rewrite (bind_Ok _ _ _ _ _ E). reflexivity. }
  rewrite <- Hk. apply fmap_Permutation, stable_sort_perm.
Qed.

Lemma sample_from_spec {A : Type} (k : nat) :
  forall (population : list A) (s : state),
    k <= length population ->
    exists chosen_list,
      sample_from population k s =
        Ok (chosen_list, with_rand_cursor (rand_cursor s + k) s) /\
      length chosen_list = k /\
      chosen_list ⊆ population.
Proof.
  induction k as [| k IH]; intros population s Hk.
  - exists []. simpl. split.
    + unfold ret. rewrite Nat.add_0_r. destruct s; reflexivity.
    + split; [reflexivity |]. intros x Hx. inversion Hx.
  - simpl. unfold bind at 1, draw_int.
    set (i := Z.to_nat (rand_ints s (rand_cursor s) mod Z.of_nat (length population))).
    assert (Hi : i < length population).
    { unfold i. pose proof (Z.mod_pos_bound (rand_ints s (rand_cursor s))
                              (Z.of_nat (length population)) ltac:(lia)). lia. }
    destruct (lookup_lt_is_Some_2 _ _ Hi) as [a Ha]. rewrite Ha.
    destruct (IH (delete i population) (with_rand_cursor (S (rand_cursor s)) s))
      as (rest & E & Hlen & Hsub).
    { rewrite length_delete by eauto. lia. }
    exists (a :: rest). split.
    { rewrite (bind_Ok _ _ _ _ _ E). unfold ret. cbn.
      replace (rand_cursor s + S k) with (S (rand_cursor s + k)) by lia. reflexivity. }
    split; [simpl; lia |].
    intros x Hx. apply elem_of_cons in Hx as [-> | Hx].
    + apply list_elem_of_lookup. eauto.
    + apply Hsub in Hx. eapply sublist_subseteq; [apply sublist_delete | exact Hx].
Qed.

Lemma sample_spec {A : Type} (population : list A) (k : nat) (s : state) :
  k <= length population ->
  exists chosen_list,
    sample population k s = Ok (chosen_list, with_rand_cursor (rand_cursor s + k) s) /\
    length chosen_list = k /\
    chosen_list ⊆ population.
Proof.
  intros Hk. unfold sample.
  destruct (Nat.ltb_spec (length population) k); [lia |].
  apply sample_from_spec, Hk.
Qed.

(** [generate_falling_particles] returns [count] fresh particles, each a
    point of the cloud it is given, at rest and not yet active. *)
Lemma generate_falling_particles_spec (s : state) (heart_data : list loc) (count : nat) :
  valid_refs (pos_store s) heart_data ->
  count <= length heart_data -> count <= 5000 ->
  exists added s',
    generate_falling_particles heart_data count s =
      Ok (seq (length (particle_store s)) count, s') /\
    particle_store s' = particle_store s ++ added /\
    length added = count /\
    pos_store s' = pos_store s /\
    globals s' = globals s /\
    oracles s' = oracles s /\
    forall a, a ∈ added ->
      exists h o j u, h ∈ heart_data /\ pos_store s !! h = Some o /\
        a = particle_of o (clock s j) (delay_of MAX_DELAY u).
Proof.
  intros Hvalid Hcount H5000. unfold generate_falling_particles.
  destruct (sorted_by_real_y_spec s heart_data Hvalid) as (sorted & Esort & Hperm).
  rewrite (bind_Ok _ _ _ _ _ Esort).
  assert (Hbottom : count <= length (take 5000 sorted)).
  { rewrite length_take, (Permutation_length Hperm). lia. }
  destruct (sample_spec (take 5000 sorted) count s Hbottom) as (picked & Esample & Hlen & Hsub).
  rewrite (bind_Ok _ _ _ _ _ Esample).
  set (s1 := with_rand_cursor (rand_cursor s + count) s).
  assert (Hpicked : forall h, h ∈ picked -> h ∈ heart_data).
  { intros h Hh. rewrite <- Hperm. eapply subseteq_take. apply Hsub, Hh. }
  assert (Hpv : valid_refs (pos_store s1) picked).
  { intros h Hh. apply Hvalid, Hpicked, Hh. }
  assert (Hloop : hoare (spawn_inv MAX_DELAY s1 [] [] []) (for_ picked [] (spawn MAX_DELAY))
            (fun acc => spawn_inv MAX_DELAY s1 [] picked acc)).
  { apply (hoare_for (spawn_inv MAX_DELAY s1 [])).
    intros done a rest acc E.
    apply (spawn_inv_step MAX_DELAY s1 [] picked done rest a acc Hpv E). }
  destruct (Hloop s1 (spawn_inv_init MAX_DELAY s1 []))
    as (res & s2 & E2 & (Hpos2 & Hg2 & Hor2 & Hrc2 & Hcc2 & Hres & added & Hst2 & Hlen2 & Hper2)).
  exists added, s2. split; [rewrite E2, Hres, Hlen; reflexivity |].
  split; [exact Hst2 |]. split; [lia |]. split; [exact Hpos2 |].
  split; [exact Hg2 |]. split; [exact Hor2 |].
  intros a Ha. apply list_elem_of_lookup in Ha as [i Hi].
  assert (Hi' : i < length picked) by (rewrite <- Hlen2; eapply lookup_lt_Some; eauto).
  destruct (lookup_lt_is_Some_2 _ _ Hi') as [h Hh].
  destruct (Hper2 i h Hh) as (o & Ho & Hadd).
  exists h, o, (clock_cursor s1 + i), (rand_units s1 (rand_cursor s1 + i)).
  split; [apply Hpicked; apply list_elem_of_lookup; eauto |].
  split; [exact Ho |]. rewrite Hadd in Hi. injection Hi as <-. reflexivity.
Qed.

(** ** Start-up *)

Lemma enough_points :
  PARTICLE_COUNT <=
    length (filter (fun xy => inside 0 xy = true)
              (grid (py_range ((- WIDTH) / 2) (WIDTH / 2) 1)
                    (py_range ((- HEIGHT) / 2) (HEIGHT / 2) 2))).
Proof.
  set (ys := py_range ((- HEIGHT) / 2) (HEIGHT / 2) 2).
  assert (E : py_range ((- WIDTH) / 2) (WIDTH / 2) 1 =
              py_range (-300) (-10) 1 ++ py_range (-10) 10 1 ++ py_range 10 300 1)
    by (vm_compute; reflexivity).
  rewrite E. unfold grid. rewrite !bind_app, !filter_app, !length_app.
  assert (Hmid : PARTICLE_COUNT <=
            length (filter (fun xy => inside 0 xy = true)
                      (py_range (-10) 10 1 ≫= fun x => pair x <$> ys))).
  { apply Nat.leb_le. vm_compute. reflexivity. }
  lia.
Qed.

Lemma globals_inv (s s0 : state) :
  globals s = globals s0 ->
  heart_data_root s = heart_data_root s0 /\
  heart_data s = heart_data s0 /\
  falling_particles s = falling_particles s0.
Proof. unfold globals. intros H. injection H as -> -> ->. auto. Qed.

Lemma valid_refs_seq {A : Type} (store : list A) (a n : nat) :
  a + n <= length store -> valid_refs store (seq a n).
Proof. intros H r Hr. apply elem_of_seq in Hr. lia. Qed.

(** Projections of updated states, without unfolding anything else. *)
Ltac state_simpl :=
  cbn [pos_store particle_store rand_ints rand_units rand_cursor clock clock_cursor
       screen heart_data_root heart_data falling_particles
       with_pos_store with_particle_store with_rand_cursor with_clock_cursor
       with_screen with_heart_data_root with_heart_data with_falling_particles
       initial_state] in *.

Lemma modify_Ok (f : state -> state) (s : state) : modify f s = Ok (tt, f s).
Proof. reflexivity. Qed.

Lemma gets_Ok {A : Type} (f : state -> A) (s : state) : gets f s = Ok (f s, s).
Proof. reflexivity. Qed.

(** The program starts without raising and reaches a well-formed state
    with a full pool. *)
Lemma startup_spec (ints : nat -> Z) (units times : nat -> R) :
  exists s,
    startup (initial_state ints units times) = Ok (tt, s) /\
    wf s /\
    length (falling_particles s) = PARTICLE_COUNT /\
    oracles s = (ints, units, times).
Proof.
  set (si := initial_state ints units times).
  unfold startup, get_pos_begin, get_hide_pos.
  (* the two scans *)
  destruct (scan_spec si [] 20 10 0 (py_range ((- WIDTH) / 2) (WIDTH / 2) 1)
              (py_range ((- HEIGHT) / 2) (HEIGHT / 2) 2)
              ltac:(lia) ltac:(lia) (or_introl eq_refl) si (scan_inv_init si [] 0))
    as (root1 & s1 & E1 & Hps1 & Hg1 & Hor1 & Hcc1 & added1 & Hst1 & Hlen1 & Hacc1).
  rewrite (bind_Ok _ _ _ _ _ E1).
  destruct (scan_spec s1 [] 5 10 1 (py_range ((- WIDTH) / 2) (WIDTH / 2) 1)
              (py_range ((- HEIGHT) / 2) (HEIGHT / 2) 1)
              ltac:(lia) ltac:(lia) (or_intror eq_refl) s1 (scan_inv_init s1 [] 1))
    as (layout_2 & s2 & E2 & Hps2 & Hg2 & Hor2 & Hcc2 & added2 & Hst2 & Hlen2 & Hacc2).
  rewrite (bind_Ok _ _ _ _ _ E2).
  pose proof enough_points as Hmany. rewrite <- Hlen1 in Hmany.
  clear Hlen1 Hlen2.
  subst si. state_simpl. rewrite app_nil_l in Hst1, Hacc1, Hacc2.
  cbn [length] in Hacc1. subst root1 layout_2.
  rewrite Hst1 in Hst2. rewrite Hst1.
  rewrite <- seq_app.
  set (n := length added1 + length added2).
  rewrite (bind_Ok _ _ _ _ _ (modify_Ok _ _)).
  rewrite (bind_Ok _ _ _ _ _ (gets_Ok _ _)).
  state_simpl.
  set (s3 := with_heart_data_root (seq 0 n) s2).
  assert (Hn : length (pos_store s3) = n).
  { subst s3. state_simpl. rewrite Hst2, length_app. reflexivity. }
  (* the working copy *)
  assert (Hv3 : valid_refs (pos_store s3) (seq 0 n)) by (apply valid_refs_seq; lia).
  destruct (deepcopy_spec s3 (seq 0 n) Hv3 s3 (copy_inv_init s3))
    as (working & s4 & E4 & Hw & copies & Hs4 & Hclen & Hcopies).
  rewrite (bind_Ok _ _ _ _ _ E4).
  rewrite length_seq in Hw, Hclen. rewrite Hn in Hw. subst working.
  rewrite (bind_Ok _ _ _ _ _ (modify_Ok _ _)).
  set (s5 := with_heart_data (seq n n) s4).
  assert (Hps5 : pos_store s5 = pos_store s2 ++ copies) by (subst s5 s4 s3; reflexivity).
  assert (Hlen5 : length (pos_store s5) = n + n).
  { rewrite Hps5, Hst2, !length_app. unfold n. lia. }
  assert (Hpart5 : particle_store s5 = []).
  { subst s5 s4 s3. state_simpl. rewrite Hps2, Hps1. reflexivity. }
  assert (Hg5 : globals s5 = (seq 0 n, seq n n, [])).
  { subst s5 s4 s3. unfold globals in *. state_simpl.
    injection Hg2 as _ _ ->. injection Hg1 as _ _ ->. reflexivity. }
  assert (Hor5 : oracles s5 = (ints, units, times)).
  { subst s5 s4 s3. unfold oracles in *. state_simpl. rewrite Hor2, Hor1. reflexivity. }
  (* the pool *)
  destruct (generate_falling_particles_spec s5 (seq 0 n) PARTICLE_COUNT)
    as (parts & s6 & E6 & Hst6 & Hplen & Hps6 & Hg6 & Hor6 & Hparts).
  { apply valid_refs_seq. lia. }
  { rewrite length_seq. unfold n. lia. }
  { unfold PARTICLE_COUNT. lia. }
  rewrite (bind_Ok _ _ _ _ _ E6).
  rewrite (bind_Ok _ _ _ _ _ (modify_Ok _ _)).
  rewrite Hpart5 in Hst6, E6 |- *. rewrite app_nil_l in Hst6. cbn [length].
  clearbody s5. clear E1 E2 E4 E6.
  set (s7 := with_falling_particles (seq 0 PARTICLE_COUNT) s6).
  (* the normalization pass *)
  assert (Hv7 : valid_refs (pos_store s7) (seq 0 n)).
  { apply valid_refs_seq. unfold s7. state_simpl. rewrite Hps6, Hlen5. lia. }
  destruct (normalize_spec s7 (seq 0 n) Hv7 s7 (normalize_inv_init s7 ))
    as ([] & s8 & E8 & Hsame & Hlen8 & Hframe8 & Hinv8 & Hkeep8).
  exists s8. split; [exact E8 |].
  destruct Hsame as (Hpart8 & _ & _ & _ & Hg8 & Hor8).
  apply globals_inv in Hg8 as (Hr8 & Hw8 & Hf8).
  rewrite Hg5 in Hg6. unfold globals in Hg6.
  assert (Hr6 : heart_data_root s6 = seq 0 n) by congruence.
  assert (Hw6 : heart_data s6 = seq n n) by congruence.
  subst s7. state_simpl. rewrite Hr6 in Hr8. rewrite Hw6 in Hw8. clear Hg6.
  assert (Hlen8' : length (pos_store s8) = n + n).
  { rewrite Hlen8, Hps6. exact Hlen5. }
  assert (Hpart8' : particle_store s8 = parts).
  { rewrite Hpart8. exact Hst6. }
  split.
  { unfold wf. rewrite Hr8, Hw8, Hf8, Hpart8'.
    split; [apply valid_refs_seq; lia |].
    split; [apply valid_refs_seq; lia |].
    split; [rewrite !length_seq; reflexivity |].
    split.
    { split; [apply NoDup_seq |]. intros r Hr Hr'.
      apply elem_of_seq in Hr. apply elem_of_seq in Hr'. lia. }
    split; [rewrite length_seq; unfold PARTICLE_COUNT in Hmany; unfold n; lia |].
    split; [apply valid_refs_seq; lia |].
    split; [apply NoDup_seq |].
    split; [exact Hinv8 |].
    intros l p Hl Hp. apply list_elem_of_lookup_2 in Hp.
    destruct (Hparts p Hp) as (h & o & j & u & _ & _ & ->).
    unfold particle_of. cbn [Particle.velocity]. lra. }
  split; [rewrite Hf8; apply length_seq |].
  rewrite Hor8. unfold oracles in *. state_simpl. rewrite Hor6, Hor5.
  reflexivity.
Qed.

(** ** The frame loop *)

Lemma set_at_Ok (x y : Z) (c : rgb) (s : state) :
  exists sc, set_at x y c s = Ok (tt, with_screen sc s).
Proof.
  unfold set_at, modify. destruct (_ && _)%bool; [eexists; reflexivity |].
  exists (screen s). destruct s; reflexivity.
Qed.

Lemma draw_heart_spec (heart_data : list loc) :
  forall s, valid_refs (pos_store s) heart_data ->
    exists sc, draw_heart heart_data s = Ok (tt, with_screen sc s).
Proof.
  unfold draw_heart. induction heart_data as [| p l IH]; intros s Hvalid.
  - exists (screen s). destruct s; reflexivity.
  - assert (Hp : p < length (pos_store s)) by (apply Hvalid; left).
    destruct (lookup_lt_is_Some_2 _ _ Hp) as [o Ho].
    destruct (set_at_Ok (Pos.x o) (Pos.y o) (Pos.color o) s) as [sc1 E1].
    destruct (IH (with_screen sc1 s)) as [sc2 E2].
    { intros r Hr. apply Hvalid. right. exact Hr. }
    exists sc2. simpl. unfold bind at 1.
    rewrite (bind_Ok _ _ _ _ _ (get_Pos_Ok _ _ _ Ho)), E1. exact E2.
Qed.

(** The top-up loop: it leaves a full pool alone, and otherwise appends
    batches of [5] fresh particles until the pool is full. *)
Lemma top_up_loop_spec (turns : nat) :
  forall s,
    valid_refs (pos_store s) (heart_data s) ->
    5 <= length (heart_data s) ->
    PARTICLE_COUNT - length (falling_particles s) <= turns ->
    exists k added s',
      top_up_loop turns s = Ok (tt, s') /\
      PARTICLE_COUNT <= length (falling_particles s') /\
      (k = 0 \/ length (falling_particles s') < PARTICLE_COUNT + 5) /\
      (PARTICLE_COUNT <= length (falling_particles s) -> k = 0) /\
      falling_particles s' =
        falling_particles s ++ seq (length (particle_store s)) (5 * k) /\
      particle_store s' = particle_store s ++ added /\
      length added = 5 * k /\
      (forall a, a ∈ added -> Particle.velocity a = 0%R /\ Particle.active a = false) /\
      pos_store s' = pos_store s /\
      heart_data s' = heart_data s /\
      heart_data_root s' = heart_data_root s /\
      oracles s' = oracles s.
Proof.
  induction turns as [| turns IH]; intros s Hvalid H5 Hdef.
  - exists 0, [], s. simpl. rewrite !app_nil_r.
    repeat split; auto; try lia;
      match goal with H : _ ∈ [] |- _ => inversion H end.
  - simpl. rewrite (bind_Ok _ _ _ _ _ (gets_Ok _ _)).
    destruct (Nat.ltb_spec (length (falling_particles s)) PARTICLE_COUNT) as [Hlt | Hge].
    + rewrite (bind_Ok _ _ _ _ _ (gets_Ok _ _)).
      destruct (generate_falling_particles_spec s (heart_data s) 5 Hvalid H5 ltac:(lia))
        as (batch & s1 & E1 & Hst1 & Hlen1 & Hps1 & Hg1 & Hor1 & Hbatch).
      rewrite (bind_Ok _ _ _ _ _ E1). rewrite (bind_Ok _ _ _ _ _ (modify_Ok _ _)).
      apply globals_inv in Hg1 as (Hr1 & Hw1 & Hf1).
      set (s2 := with_falling_particles (falling_particles s1 ++ seq (length (particle_store s)) 5) s1).
      destruct (IH s2) as (k & added & s' & E & Hfull & Hexact & Hzero & Hfp & Hst & Hlen &
                            Hadded & Hps & Hw & Hr & Hor).
      { unfold s2. state_simpl. rewrite Hps1, Hw1. exact Hvalid. }
      { unfold s2. state_simpl. rewrite Hw1. exact H5. }
      { unfold s2. state_simpl. rewrite length_app, length_seq, Hf1. lia. }
      unfold s2 in Hexact, Hzero, Hfp, Hst, Hps, Hw, Hr, Hor. state_simpl.
      exists (S k), (batch ++ added), s'. split; [exact E |].
      split; [exact Hfull |].
      split.
      { right. destruct Hexact as [-> | Hex]; [| exact Hex].
        rewrite Hfp, Hf1, !length_app, !length_seq. unfold PARTICLE_COUNT in *. lia. }
      split; [lia |].
      split.
      { rewrite Hfp, Hf1, Hst1, length_app, Hlen1, <- app_assoc, <- seq_app.
        f_equal. f_equal. lia. }
      split; [rewrite Hst, Hst1, app_assoc; reflexivity |].
      split; [rewrite length_app; lia |].
      split.
      { intros a Ha. apply elem_of_app in Ha as [Ha | Ha]; [| auto].
        destruct (Hbatch a Ha) as (h & o & j & u & _ & _ & ->). auto. }
      split; [congruence |]. split; [congruence |]. split; [congruence |].
      rewrite Hor. unfold oracles. state_simpl. exact Hor1.
    + exists 0, [], s. simpl. rewrite !app_nil_r.
      repeat split; auto; try lia;
      match goal with H : _ ∈ [] |- _ => inversion H end.
Qed.

(** [wf] reads the two stores and the three lists only. *)
Lemma wf_ext (s s' : state) :
  pos_store s' = pos_store s -> particle_store s' = particle_store s ->
  globals s' = globals s -> wf s -> wf s'.
Proof.
  intros Hp Hq Hg. apply globals_inv in Hg as (Hr & Hw & Hf).
  unfold wf. rewrite Hp, Hq, Hr, Hw, Hf. auto.
Qed.

Lemma take_all {A : Type} (l : list A) : take (length l) l = l.
Proof. apply take_ge. lia. Qed.

(** The deformer keeps the loop invariant and leaves the working cloud
    satisfying the coordinate invariant. *)
Lemma wf_heart_beat (s s0 s' : state) (sf : R) :
  wf s ->
  pos_store s0 = pos_store s -> particle_store s0 = particle_store s ->
  globals s0 = globals s ->
  heart_beat_inv s0 (heart_data s) (heart_data_root s) sf (length (heart_data s)) s' ->
  wf s' /\
  (forall l, l ∈ heart_data s ->
     exists p, pos_store s' !! l = Some p /\ coordinate_invariant p) /\
  (forall l, l ∈ heart_data_root s -> pos_store s' !! l = pos_store s !! l).
Proof.
  intros (Hvw & Hvr & Hlen & [Hnd Hdisj] & H5 & Hvp & Hndp & Hrinv & Hvel) Hp0 Hq0 Hg0
    (_ & _ & Hq & _ & Hg & _ & Hl & Hframe & _ & Hinv & _).
  rewrite take_all in Hframe, Hinv. rewrite Hp0 in Hl, Hframe.
  rewrite Hg0 in Hg. apply globals_inv in Hg as (Hr & Hw & Hf). rewrite Hq0 in Hq.
  assert (Hroot : forall l, l ∈ heart_data_root s -> pos_store s' !! l = pos_store s !! l).
  { intros l Hl'. apply Hframe. intros Hin. exact (Hdisj l Hin Hl'). }
  split; [| split; [exact Hinv | exact Hroot]].
  unfold wf. rewrite Hr, Hw, Hf, Hq.
  split; [intros r Hr'; rewrite Hl; auto |].
  split; [intros r Hr'; rewrite Hl; auto |].
  split; [exact Hlen |]. split; [split; assumption |]. split; [exact H5 |].
  split; [exact Hvp |]. split; [exact Hndp |].
  split; [| exact Hvel].
  intros l Hl'. rewrite (Hroot l Hl'). apply Hrinv, Hl'.
Qed.

Lemma advance_velocity (o : Particle.t) :
  (0 <= Particle.velocity o -> 0 <= Particle.velocity (advance o))%R.
Proof. unfold advance, GRAVITY. cbn. lra. Qed.

(** The update of the pool keeps the loop invariant. *)
Lemma wf_update (s s' : state) (kept news : list loc) :
  wf s ->
  update_post s (falling_particles s) kept news s' ->
  wf (with_falling_particles
        (kept ++ seq (length (particle_store s)) (length news)) s').
Proof.
  intros (Hvw & Hvr & Hlen & Hsep & H5 & Hvp & Hndp & Hrinv & Hvel)
    (Hsub & Hcount & Hper & Hother & Hlen' & Hnews & Hp & Hg & _).
  apply globals_inv in Hg as (Hr & Hw & Hf).
  assert (Hkept : forall l, l ∈ kept -> l ∈ falling_particles s)
    by (intros l Hl; eapply elem_of_sublist; eauto).
  unfold wf. state_simpl. rewrite Hp, Hr, Hw.
  do 5 (split; [assumption |]).
  split.
  { intros r Hr'. rewrite Hlen'. apply elem_of_app in Hr' as [Hr' | Hr'].
    - apply Hkept, Hvp in Hr'. lia.
    - apply elem_of_seq in Hr'. lia. }
  split.
  { apply NoDup_app. split; [eapply sublist_NoDup; eauto |].
    split; [| apply NoDup_seq].
    intros l Hl Hl'. apply Hkept, Hvp in Hl. apply elem_of_seq in Hl'. lia. }
  split; [exact Hrinv |].
  intros l p Hl Hlp. apply elem_of_app in Hl as [Hl | Hl].
  - apply Hkept in Hl. pose proof (Hvp l Hl) as Hlt.
    destruct (lookup_lt_is_Some_2 _ _ Hlt) as [o Ho].
    destruct (Hper l o Hl Ho) as [_ Hst]. rewrite Hst in Hlp. injection Hlp as <-.
    pose proof (Hvel l o Hl Ho) as Hv.
    destruct (starts_dec _ o); [apply advance_velocity |]; exact Hv.
  - apply elem_of_seq in Hl as [Hl1 Hl2].
    assert (Hi : l - length (particle_store s) < length news) by lia.
    destruct (lookup_lt_is_Some_2 _ _ Hi) as [q Hq].
    destruct (Hnews _ q Hq) as (_ & o & j & u & _ & Hnew).
    replace (length (particle_store s) + (l - length (particle_store s))) with l
      in Hnew by lia.
    rewrite Hnew in Hlp. injection Hlp as <-. cbn. lra.
Qed.

(** One turn of the main loop runs to completion from a well-formed state
    and ends in one; the pool is full afterwards, and exactly full when it
    was exactly full before. *)
Lemma frame_spec (s : state) :
  wf s ->
  exists s',
    frame s = Ok (tt, s') /\
    wf s' /\
    PARTICLE_COUNT <= length (falling_particles s') /\
    (length (falling_particles s) = PARTICLE_COUNT ->
     length (falling_particles s') = PARTICLE_COUNT) /\
    oracles s' = oracles s /\
    heart_data s' = heart_data s /\
    heart_data_root s' = heart_data_root s /\
    (forall l, l ∈ heart_data s' ->
       exists p, pos_store s' !! l = Some p /\ coordinate_invariant p) /\
    (forall l, l ∈ heart_data_root s' ->
       exists p, pos_store s' !! l = Some p /\ coordinate_invariant p).
Proof.
  intros Hwf. unfold frame.
  rewrite (bind_Ok _ _ _ _ _ (modify_Ok _ _)).
  rewrite (bind_Ok _ _ _ _ _ (gets_Ok _ _)).
  rewrite (bind_Ok _ _ _ _ _ (gets_Ok _ _)).
  set (sa := with_screen [] s). state_simpl.
  pose proof Hwf as (Hvw & Hvr & Hlen & Hsep & H5 & Hvp & Hndp & Hrinv & Hvel).
  (* the deformer *)
  destruct (heart_beat_spec sa (heart_data s) (heart_data_root s) 0 Hvw Hvr ltac:(lia))
    as (sb & Eb & Hinvb).
  rewrite (bind_Ok _ _ _ _ _ Eb).
  pose proof Hinvb as (_ & _ & _ & _ & _ & Horb & _).
  destruct (wf_heart_beat s (with_clock_cursor (S (clock_cursor sa)) sa) sb _ Hwf
              eq_refl eq_refl eq_refl Hinvb)
    as (Hwfb & Hworking & Hrootb).
  destruct Hinvb as (_ & _ & Hqb & _ & Hgb & _ & Hlb & _).
  apply globals_inv in Hgb as (Hrb & Hwb & Hfb). state_simpl.
  (* drawing *)
  destruct (draw_heart_spec (heart_data s) sb) as [sc Ec].
  { intros r Hr. rewrite Hlb. apply Hvw, Hr. }
  rewrite (bind_Ok _ _ _ _ _ Ec).
  rewrite (bind_Ok _ _ _ _ _ (gets_Ok _ _)). state_simpl.
  set (s_c := with_screen sc sb).
  assert (Hwfc : wf s_c) by (apply (wf_ext sb); [reflexivity .. | exact Hwfb]).
  (* the particles *)
  pose proof Hwfc as (_ & Hvrc & _ & _ & H5c & Hvpc & Hndpc & _).
  destruct (update_falling_particles_spec s_c (falling_particles sb) Hvpc Hndpc Hvrc)
    as (kept & news & sd & Ed & Hpost).
  { intros E. destruct Hwfc as (_ & _ & Hlenc & _). rewrite Hlenc, E in H5c.
    simpl in H5c. lia. }
  rewrite (bind_Ok _ _ _ _ _ Ed). rewrite (bind_Ok _ _ _ _ _ (modify_Ok _ _)).
  pose proof (wf_update s_c sd kept news Hwfc Hpost) as Hwfe.
  destruct Hpost as (_ & Hcount & _ & _ & _ & _ & Hpd & Hgd & Hord).
  apply globals_inv in Hgd as (Hrd & Hwd & Hfd). unfold s_c in *. state_simpl.
  set (se := with_falling_particles
               (kept ++ seq (length (particle_store sb)) (length news)) sd) in *.
  (* the top-up *)
  unfold top_up. rewrite (bind_Ok _ _ _ _ _ (gets_Ok _ _)).
  pose proof Hwfe as (Hvwe & _ & _ & _ & H5e & _).
  destruct (top_up_loop_spec (PARTICLE_COUNT - length (falling_particles se)) se
              Hvwe H5e ltac:(lia))
    as (k & added & sf & Ef & Hfull & _ & Hzero & Hfpf & Hstf & Hlenf & Haddedf & Hpf &
        Hwf' & Hrf & Horf).
  exists sf. split; [exact Ef |].
  assert (Hfpe : length (falling_particles se) = length (falling_particles s)).
  { unfold se. state_simpl. rewrite length_app, length_seq, Hcount, Hfb. reflexivity. }
  assert (Hpos : pos_store sf = pos_store sb).
  { rewrite Hpf. unfold se. state_simpl. exact Hpd. }
  assert (Hw : heart_data sf = heart_data s).
  { rewrite Hwf'. unfold se. state_simpl. rewrite Hwd, Hwb. reflexivity. }
  assert (Hr : heart_data_root sf = heart_data_root s).
  { rewrite Hrf. unfold se. state_simpl. rewrite Hrd, Hrb. reflexivity. }
  assert (Hwff : wf sf).
  { destruct Hwfe as (Hv1 & Hv2 & Hl1 & Hs1 & H51 & Hv3 & Hnd1 & Hri1 & Hvel1).
    unfold wf. rewrite Hpf, Hwf', Hrf, Hfpf, Hstf.
    do 5 (split; [assumption |]).
    split.
    { intros r Hr'. rewrite length_app, Hlenf.
      apply elem_of_app in Hr' as [Hr' | Hr'].
      - apply Hv3 in Hr'. lia.
      - apply elem_of_seq in Hr'. lia. }
    split.
    { apply NoDup_app. split; [exact Hnd1 |]. split; [| apply NoDup_seq].
      intros l Hl Hl'. apply Hv3 in Hl. apply elem_of_seq in Hl'. lia. }
    split; [exact Hri1 |].
    intros l p Hl Hlp. apply elem_of_app in Hl as [Hl | Hl].
    - rewrite lookup_app_l in Hlp by (apply Hv3, Hl). apply (Hvel1 l p Hl Hlp).
    - apply elem_of_seq in Hl. rewrite lookup_app_r in Hlp by lia.
      apply list_elem_of_lookup_2, Haddedf in Hlp as [-> _]. lra. }
  split; [exact Hwff |]. split; [exact Hfull |].
  split.
  { intros Hexact. rewrite Hfpf, Hzero by lia.
    rewrite Nat.mul_0_r. cbn [seq]. rewrite app_nil_r. lia. }
  split.
  { rewrite Horf. unfold se. unfold oracles in *. state_simpl.
    rewrite Hord. state_simpl. exact Horb. }
  split; [exact Hw |]. split; [exact Hr |].
  split.
  { intros l Hl. rewrite Hw in Hl. rewrite Hpos. apply Hworking, Hl. }
  destruct Hwff as (_ & _ & _ & _ & _ & _ & _ & Hri & _). exact Hri.
Qed.

(** ** The whole program *)

Lemma frames_spec (n : nat) :
  forall s, wf s ->
    exists s',
      frames n s = Ok (tt, s') /\
      wf s' /\
      (length (falling_particles s) = PARTICLE_COUNT ->
       length (falling_particles s') = PARTICLE_COUNT) /\
      oracles s' = oracles s /\
      (n <> 0 -> cloud_invariant s' (heart_data s')).
Proof.
  induction n as [| n IH]; intros s Hwf.
  - exists s. simpl. split; [reflexivity |]. split; [exact Hwf |].
    split; [auto |]. split; [reflexivity |]. intros H. contradiction.
  - destruct (frame_spec s Hwf)
      as (s1 & E1 & Hwf1 & _ & Hexact1 & Hor1 & _ & _ & Hworking1 & _).
    destruct (IH s1 Hwf1) as (s' & E & Hwf' & Hexact & Hor & Hworking).
    exists s'. simpl. rewrite (bind_Ok _ _ _ _ _ E1).
    split; [exact E |]. split; [exact Hwf' |]. split; [auto |].
    split; [congruence |]. intros _.
    destruct n as [| n]; [| apply Hworking; discriminate].
    simpl in E. injection E as <-. exact Hworking1.
Qed.

(** The program runs any number of turns without raising; it is then in a
    well-formed state with a pool of exactly [PARTICLE_COUNT] particles. *)
Lemma main_spec (n : nat) (ints : nat -> Z) (units times : nat -> R) :
  exists s,
    main n (initial_state ints units times) = Ok (tt, s) /\
    wf s /\
    length (falling_particles s) = PARTICLE_COUNT /\
    (n <> 0 -> cloud_invariant s (heart_data s)).
Proof.
  destruct (startup_spec ints units times) as (s0 & E0 & Hwf0 & Hlen0 & _).
  destruct (frames_spec n s0 Hwf0) as (s & E & Hwf & Hexact & _ & Hworking).
  exists s. unfold main. rewrite (bind_Ok _ _ _ _ _ E0). auto.
Qed.

(** ** The deformer: what it writes and what it leaves alone *)

Lemma heart_beat_cloud_invariant (s : state) (working root : list loc) (frame : R) :
  valid_refs (pos_store s) working ->
  valid_refs (pos_store s) root ->
  length working <= length root ->
  exists s', heart_beat working root frame s = Ok (tt, s') /\ cloud_invariant s' working.
Proof.
  intros Hw Hr Hlen.
  destruct (heart_beat_spec s working root frame Hw Hr Hlen)
    as (s' & E & _ & _ & _ & _ & _ & _ & _ & _ & _ & Hinv & _).
  exists s'. split; [exact E |]. rewrite take_all in Hinv. exact Hinv.
Qed.

Lemma normalize_cloud_invariant (s : state) (root : list loc) :
  valid_refs (pos_store s) root ->
  exists s', normalize root s = Ok (tt, s') /\ cloud_invariant s' root.
Proof.
  intros Hr.
  destruct (normalize_spec s root Hr s (normalize_inv_init s))
    as ([] & s' & E & _ & _ & _ & Hinv & _).
  exists s'. split; [exact E | exact Hinv].
Qed.

(** The scans alone do not give the invariant: the point generated at the
    centre with the raw draws [0] is stored [20] pixels to the left of
    [center_x + real_x].  It is the normalization pass (for the root cloud)
    and the first call of [heart_beat] (for the working cloud) that
    establish it. *)
Remark plot_jitters_screen_position :
  exists l s' p,
    plot 20 10 0 0 0 [] (example_state 0) = Ok ([l], s') /\
    pos_store s' !! l = Some p /\
    Pos.real_x p = 0%Z /\ Pos.x p = 280%Z /\
    ~ coordinate_invariant p.
Proof.
  unfold plot. rewrite (heart_equation_inside 0 0 0 (or_introl eq_refl)).
  change (inside 0 (0%Z, 0%Z)) with true.
  unfold lift. unfold bind at 1.
  rewrite (bind_Ok _ _ _ _ _ (randint_Ok (- 20) 20 _ ltac:(lia))).
  rewrite (bind_Ok _ _ _ _ _ (randint_Ok (- 10) 10 _ ltac:(lia))).
  rewrite (bind_Ok _ _ _ _ _ (new_Pos_Ok _ _ _ _ _ _)).
  eexists _, _, _. split; [reflexivity |]. split; [reflexivity |].
  split; [reflexivity |]. split; [reflexivity |].
  intros [Hx _]. cbn in Hx. discriminate.
Qed.

(** C3, as amended: the coordinate invariant [x = center_x + real_x],
    [y = center_y - real_y] holds of every object of the working cloud
    after any call of [heart_beat], and of every object of the root cloud
    after the normalization pass (not already after construction, where
    the scans jitter the screen position only); in the running program it
    holds of the root cloud from the end of start-up on and of the working
    cloud after every turn of the main loop. *)
Theorem coordinate_invariant_established
    (s : state) (working root : list loc) (frame : R)
    (n : nat) (ints : nat -> Z) (units times : nat -> R) :
  valid_refs (pos_store s) working ->
  valid_refs (pos_store s) root ->
  length working <= length root ->
  (exists s', heart_beat working root frame s = Ok (tt, s') /\
              cloud_invariant s' working) /\
  (exists s', normalize root s = Ok (tt, s') /\ cloud_invariant s' root) /\
  (exists s', main n (initial_state ints units times) = Ok (tt, s') /\
              cloud_invariant s' (heart_data_root s')) /\
  (exists s', main (S n) (initial_state ints units times) = Ok (tt, s') /\
              cloud_invariant s' (heart_data_root s') /\
              cloud_invariant s' (heart_data s')).
Proof.
  intros Hw Hr Hlen.
  split; [apply heart_beat_cloud_invariant; assumption |].
  split; [apply normalize_cloud_invariant; assumption |].
  split.
  - destruct (main_spec n ints units times) as (s' & E & Hwf & _).
    exists s'. split; [exact E |].
    destruct Hwf as (_ & _ & _ & _ & _ & _ & _ & Hri & _). exact Hri.
  - destruct (main_spec (S n) ints units times) as (s' & E & Hwf & _ & Hworking).
    exists s'. split; [exact E |].
    destruct Hwf as (_ & _ & _ & _ & _ & _ & _ & Hri & _).
    split; [exact Hri | apply Hworking; discriminate].
Qed.

(** C10: [heart_beat] leaves the colour of every object as it was, leaves
    every object outside the working cloud untouched, and so does not
    modify the root cloud when the two clouds share no object. *)
Theorem heart_beat_frame (s : state) (working root : list loc) (frame : R) :
  valid_refs (pos_store s) working ->
  valid_refs (pos_store s) root ->
  length working <= length root ->
  (forall r, r ∈ working -> r ∉ root) ->
  exists s',
    heart_beat working root frame s = Ok (tt, s') /\
    length (pos_store s') = length (pos_store s) /\
    (forall l p p', pos_store s !! l = Some p -> pos_store s' !! l = Some p' ->
       Pos.color p' = Pos.color p) /\
    (forall l, l ∉ working -> pos_store s' !! l = pos_store s !! l) /\
    (forall o, o ∈ root -> pos_store s' !! o = pos_store s !! o) /\
    particle_store s' = particle_store s /\
    globals s' = globals s.
Proof.
  intros Hw Hr Hlen Hdisj.
  destruct (heart_beat_spec s working root frame Hw Hr Hlen)
    as (s' & E & _ & _ & Hq & _ & Hg & _ & Hl & Hframe & Hcol & _).
  rewrite take_all in Hframe. state_simpl.
  exists s'. split; [exact E |]. split; [exact Hl |].
  split.
  { intros l p p' Hp Hp'. destruct (Hcol l p' Hp') as (p0 & Hp0 & Hc). congruence. }
  split; [exact Hframe |].
  split; [| split; [exact Hq | exact Hg]].
  intros o Ho. apply Hframe. intros Hin. exact (Hdisj o Hin Ho).
Qed.

(** ** Running the deformer on the example *)

Lemma valid_refs_singleton {A : Type} (store : list A) (r : loc) :
  r < length store -> valid_refs store [r].
Proof. intros H x Hx. apply list_elem_of_singleton in Hx. subst x. exact H. Qed.

Lemma separated_singleton (h o : loc) : h <> o -> separated [h] [o].
Proof.
  intros Hne. split; [apply NoDup_singleton |].
  intros r Hr Hr'. apply list_elem_of_singleton in Hr, Hr'. congruence.
Qed.

Lemma coordinate_invariant_established_witness :
  (valid_refs (pos_store (example_state 0)) [1] /\
   valid_refs (pos_store (example_state 0)) [0] /\
   length [1] <= length [0]) /\
  exists s', heart_beat [1] [0] 0 (example_state 0) = Ok (tt, s') /\
             cloud_invariant s' [1].
Proof.
  assert (H1 : valid_refs (pos_store (example_state 0)) [1])
    by (apply valid_refs_singleton; simpl; lia).
  assert (H0 : valid_refs (pos_store (example_state 0)) [0])
    by (apply valid_refs_singleton; simpl; lia).
  assert (Hl : length [1] <= length [0]) by (simpl; lia).
  split; [auto |].
  exact (proj1 (coordinate_invariant_established (example_state 0) [1] [0] 0
                  0 (fun _ => 0%Z) (fun _ => 0%R) (fun _ => 0%R) H1 H0 Hl)).
Defined.

Lemma heart_beat_frame_witness :
  (valid_refs (pos_store (example_state 0)) [1] /\
   valid_refs (pos_store (example_state 0)) [0] /\
   length [1] <= length [0] /\
   (forall r, r ∈ [1] -> r ∉ [0])) /\
  exists s', heart_beat [1] [0] 0 (example_state 0) = Ok (tt, s') /\
             pos_store s' !! 0 = pos_store (example_state 0) !! 0.
Proof.
  assert (H1 : valid_refs (pos_store (example_state 0)) [1])
    by (apply valid_refs_singleton; simpl; lia).
  assert (H0 : valid_refs (pos_store (example_state 0)) [0])
    by (apply valid_refs_singleton; simpl; lia).
  assert (Hl : length [1] <= length [0]) by (simpl; lia).
  assert (Hd : forall r, r ∈ [1] -> r ∉ [0]) by (apply (separated_singleton 1 0); lia).
  split; [auto |].
  destruct (heart_beat_frame (example_state 0) [1] [0] 0 H1 H0 Hl Hd)
    as (s' & E & _ & _ & _ & Hroot & _).
  exists s'. split; [exact E |]. apply Hroot. apply list_elem_of_singleton. reflexivity.
Defined.








(** C8: when [sin(2t) = 0] at the clock reading [t], the scale factor is
    [1] and every working point's logical offsets are the root point's
    offsets plus a jitter of [-3..3] on each axis. *)
Theorem heart_beat_identity_at_zero (s : state) (working root : list loc) (frame : R) :
  valid_refs (pos_store s) working ->
  valid_refs (pos_store s) root ->
  length working <= length root ->
  separated working root ->
  sin (2 * clock s (clock_cursor s)) = 0%R ->
  scale_factor (clock s (clock_cursor s)) = 1%R /\
  (forall z : Z, int_of_R (IZR z * scale_factor (clock s (clock_cursor s))) = z) /\
  exists s',
    heart_beat working root frame s = Ok (tt, s') /\
    forall i h o, working !! i = Some h -> root !! i = Some o ->
      exists po p',
        pos_store s !! o = Some po /\ pos_store s' !! h = Some p' /\
        (-3 <= Pos.real_x p' - Pos.real_x po <= 3)%Z /\
        (-3 <= Pos.real_y p' - Pos.real_y po <= 3)%Z.
Proof.
  intros Hw Hr Hlen Hsep Hsin.
  assert (Hsf : scale_factor (clock s (clock_cursor s)) = 1%R).
  { unfold scale_factor. replace (clock s (clock_cursor s) * 2)%R
      with (2 * clock s (clock_cursor s))%R by ring.
    rewrite Hsin. destruct (Rlt_dec 0 0); lra. }
  assert (Hid : forall z : Z, int_of_R (IZR z * scale_factor (clock s (clock_cursor s))) = z).
  { intros z. rewrite Hsf, Rmult_1_r. apply int_of_R_IZR. }
  split; [exact Hsf |]. split; [exact Hid |].
  destruct (heart_beat_spec s working root frame Hw Hr Hlen)
    as (s' & E & _ & _ & _ & _ & _ & _ & _ & _ & _ & _ & Hdef).
  state_simpl. exists s'. split; [exact E |]. intros i h o Hh Ho.
  assert (Hi : i < length working) by (eapply lookup_lt_Some; eauto).
  destruct (Hdef Hsep i h o Hi Hh Ho) as (ph & po & Hph & Hpo & Hp').
  eexists po, _. split; [exact Hpo |]. split; [exact Hp' |].
  unfold deformed. cbn [Pos.real_x Pos.real_y]. rewrite !Hid.
  pose proof (jitter3_bounds (rand_ints s (rand_cursor s + 2 * i))).
  pose proof (jitter3_bounds (rand_ints s (S (rand_cursor s + 2 * i)))).
  lia.
Qed.

Lemma heart_beat_identity_at_zero_witness :
  (valid_refs (pos_store (example_state 0)) [1] /\
   valid_refs (pos_store (example_state 0)) [0] /\
   length [1] <= length [0] /\
   separated [1] [0] /\
   sin (2 * clock (example_state 0) (clock_cursor (example_state 0))) = 0%R) /\
  scale_factor (clock (example_state 0) (clock_cursor (example_state 0))) = 1%R.
Proof.
  assert (H1 : valid_refs (pos_store (example_state 0)) [1])
    by (apply valid_refs_singleton; simpl; lia).
  assert (H0 : valid_refs (pos_store (example_state 0)) [0])
    by (apply valid_refs_singleton; simpl; lia).
  assert (Hl : length [1] <= length [0]) by (simpl; lia).
  assert (Hs : separated [1] [0]) by (apply separated_singleton; lia).
  assert (Hz : sin (2 * clock (example_state 0) (clock_cursor (example_state 0))) = 0%R).
  { cbn [clock clock_cursor example_state]. rewrite Rmult_0_r. apply sin_0. }
  split; [auto |].
  exact (proj1 (heart_beat_identity_at_zero (example_state 0) [1] [0] 0 H1 H0 Hl Hs Hz)).
Defined.

(** ** Recycling *)

Lemma sublist_missing (p : loc) (k l : list loc) :
  sublist k l -> p ∈ l -> p ∉ k -> length k < length l.
Proof.
  induction 1 as [| x k l Hsub IH | x k l Hsub IH]; intros Hin Hnot.
  - inversion Hin.
  - rewrite not_elem_of_cons in Hnot. destruct Hnot as [Hne Hnot].
    apply elem_of_cons in Hin as [-> | Hin]; [congruence |].
    simpl. specialize (IH Hin Hnot). lia.
  - simpl. apply sublist_length in Hsub. lia.
Qed.


Lemma active_off_screen_falls (ct : R) (o : Particle.t) :
  Particle.active o = true -> (Particle.y o > IZR HEIGHT)%R ->
  (0 <= Particle.velocity o)%R -> falls_off ct o.
Proof.
  intros Ha Hy Hv. split; [left; exact Ha |].
  unfold off_screen, advance, GRAVITY. cbn [Particle.y]. lra.
Qed.


Lemma example_state_update_ready (now : R) :
  valid_refs (particle_store (example_state now)) [0] /\
  NoDup [0] /\
  valid_refs (pos_store (example_state now)) (heart_data_root (example_state now)) /\
  heart_data_root (example_state now) <> [].
Proof.
  split; [apply valid_refs_singleton; simpl; lia |].
  split; [apply NoDup_singleton |].
  split; [apply valid_refs_singleton; simpl; lia | discriminate].
Qed.


(** ** The random draws of the update pass *)

(** One turn of the first loop either draws nothing and collects nothing,
    or collects the point that [random.choice] picks in the root cloud on
    the next draw. *)
Lemma update_one_draws (ct : R) (p : loc) (acc acc' : list loc * list loc) (s s' : state) :
  update_one ct p acc s = Ok (acc', s') ->
  rand_ints s' = rand_ints s /\
  heart_data_root s' = heart_data_root s /\
  ((acc'.2 = acc.2 /\ rand_cursor s' = rand_cursor s) \/
   (exists q, chosen (heart_data_root s) (rand_ints s (rand_cursor s)) = Some q /\
              acc'.2 = acc.2 ++ [q] /\ rand_cursor s' = S (rand_cursor s))).
Proof.
  intros E.
  destruct (particle_store s !! p) as [o |] eqn:Ho.
  2: { unfold update_one, bind, get_Particle in E. rewrite Ho in E. discriminate. }
  assert (Hlt : p < length (particle_store s)) by (eapply lookup_lt_Some; eauto).
  destruct (starts_dec ct o) as [Hs | Hns].
  2: { rewrite (update_one_waiting _ _ _ _ _ Ho Hns) in E. injection E as <- <-. auto. }
  rewrite (update_one_moves _ _ _ _ _ Ho Hs) in E.
  set (s1 := with_particle_store (<[p := advance o]> (particle_store s)) s) in E.
  assert (Ho1 : particle_store s1 !! p = Some (advance o)).
  { unfold s1. cbn. apply list_lookup_insert_eq, Hlt. }
  destruct (Rgt_dec (Particle.y (advance o)) (IZR HEIGHT)) as [Hoff | Hon].
  - unfold settle in E. rewrite (bind_Ok _ _ _ _ _ (get_Particle_Ok _ _ _ Ho1)) in E.
    destruct (Rgt_dec (Particle.y (advance o)) (IZR HEIGHT)) as [_ | Hn]; [| contradiction].
    destruct (list_remove p acc.1) as [cur |]; [| discriminate].
    unfold gets in E. unfold bind at 1 in E. unfold bind at 1 in E.
    unfold choice in E. change (heart_data_root s1) with (heart_data_root s) in E.
    destruct (heart_data_root s) as [| r0 root] eqn:Hroot; [discriminate |].
    unfold bind at 1, draw_int in E.
    change (rand_ints s1) with (rand_ints s) in E.
    change (rand_cursor s1) with (rand_cursor s) in E.
    destruct ((r0 :: root) !! _) as [q |] eqn:Hq; [| discriminate].
    injection E as <- <-. cbn [snd]. split; [reflexivity |]. split; [exact Hroot |].
    right. exists q. unfold chosen. rewrite Hq. auto.
  - destruct (settle_draw p acc s1 (advance o) Ho1 Hon) as [sc Hsc].
    rewrite Hsc in E. injection E as <- <-. auto.
Qed.

(** The first loop collects the picks of [random.choice] on successive
    draws, and draws nothing else. *)
Lemma update_loop_draws (ct : R) (l : list loc) :
  forall (acc acc' : list loc * list loc) (s s' : state),
    for_ l acc (update_one ct) s = Ok (acc', s') ->
    exists extra,
      acc'.2 = acc.2 ++ extra /\
      rand_cursor s' = rand_cursor s + length extra /\
      forall i q, extra !! i = Some q ->
        chosen (heart_data_root s) (rand_ints s (rand_cursor s + i)) = Some q.
Proof.
  induction l as [| p l IH]; intros acc acc' s s' E.
  - simpl in E. injection E as <- <-. exists []. rewrite app_nil_r.
    split; [reflexivity |]. split; [simpl; lia |].
    intros i q Hq. rewrite lookup_nil in Hq. discriminate.
  - simpl in E. unfold bind in E.
    destruct (update_one ct p acc s) as [[acc1 s1] | e] eqn:E1; [| discriminate].
    destruct (update_one_draws _ _ _ _ _ _ E1) as (Hints & Hroot & Hcase).
    destruct (IH _ _ _ _ E) as (extra & Hacc & Hrc & Hpick).
    rewrite Hints, Hroot in Hpick.
    destruct Hcase as [[Ha Hc] | (q & Hq & Ha & Hc)].
    + exists extra. rewrite Hacc, Ha, Hrc, Hc. split; [reflexivity |].
      split; [reflexivity |]. intros i q Hi. rewrite <- Hc. apply Hpick, Hi.
    + exists (q :: extra). rewrite Hacc, Ha, Hrc, Hc, <- app_assoc.
      split; [reflexivity |]. split; [simpl; lia |].
      intros [| i] q' Hi.
      * simpl in Hi. injection Hi as <-. rewrite Nat.add_0_r. exact Hq.
      * simpl in Hi. replace (rand_cursor s + S i) with (rand_cursor s1 + i) by lia.
        apply Hpick, Hi.
Qed.

(** [update_falling_particles], with the draws and the clock readings it
    uses: the pass reads the clock once, picks one root point per particle
    that leaves, and then builds the replacements in order, each reading
    the clock and drawing its delay. *)
Lemma update_falling_particles_recycles (s : state) (particles : list loc) :
  valid_refs (particle_store s) particles ->
  NoDup particles ->
  valid_refs (pos_store s) (heart_data_root s) ->
  heart_data_root s <> [] ->
  exists (kept news : list loc) (s' : state),
    update_falling_particles particles s =
      Ok (kept ++ seq (length (particle_store s)) (length news), s') /\
    update_post s particles kept news s' /\
    forall i r, news !! i = Some r ->
      chosen (heart_data_root s) (rand_ints s (rand_cursor s + i)) = Some r /\
      exists o,
        pos_store s !! r = Some o /\
        particle_store s' !! (length (particle_store s) + i) =
          Some (particle_of o (clock s (S (clock_cursor s) + i))
                  (delay_of 1 (rand_units s (rand_cursor s + length news + i)))).
Proof.
  intros Hvalid Hnodup Hrootv Hroot. unfold update_falling_particles.
  rewrite (bind_Ok _ _ _ _ _ (time_time_Ok s)).
  set (ct := clock s (clock_cursor s)).
  set (s0 := with_clock_cursor (S (clock_cursor s)) s).
  assert (Hloop1 : hoare (update_inv s0 ct particles [] (particles, []))
            (for_ particles (particles, []) (update_one ct))
            (fun acc => update_inv s0 ct particles particles acc)).
  { apply (hoare_for (update_inv s0 ct particles)).
    intros done a rest acc E.
    apply (update_inv_step s0 ct particles Hvalid Hnodup Hroot done rest a acc E). }
  destruct (Hloop1 s0 (update_inv_init s0 ct particles))
    as ([cur news] & s1 & E1 & Hinv1).
  destruct (update_loop_draws _ _ _ _ _ _ E1) as (extra & Hextra & Hrc1 & Hpick).
  cbn [snd] in Hextra. rewrite app_nil_l in Hextra. subst extra.
  rewrite (bind_Ok _ _ _ _ _ E1). cbn [fst snd].
  destruct Hinv1 as (Hpos & Hg & Hor & Hcc & Hlen & Hframe & Hnews & kept & Hacc & Hsub &
                     Hcount & Hper).
  cbn [fst snd] in *. rewrite drop_all, app_nil_r in Hacc. subst cur.
  assert (Hnewsv : valid_refs (pos_store s1) news).
  { intros q Hq. rewrite Hpos. apply Hrootv. apply (Hnews q Hq). }
  assert (Hloop2 : hoare (spawn_inv 1 s1 kept [] kept) (for_ news kept (spawn 1))
            (fun acc => spawn_inv 1 s1 kept news acc)).
  { apply (hoare_for (spawn_inv 1 s1 kept)).
    intros done a rest acc E. apply (spawn_inv_step 1 s1 kept news done rest a acc Hnewsv E). }
  destruct (Hloop2 s1 (spawn_inv_init 1 s1 kept))
    as (res & s2 & E2 & (Hpos2 & Hg2 & Hor2 & Hrc2 & Hcc2 & Hres & added & Hst2 & Hlen2 & Hper2)).
  exists kept, news, s2. split.
  { rewrite E2, Hres, Hlen. reflexivity. }
  split.
  { unfold update_post. fold ct.
    split; [exact Hsub |]. split; [exact Hcount |].
    split.
    { intros l o Hl Ho. destruct (Hper l o Hl Ho) as [Hk Hst]. split; [exact Hk |].
      rewrite Hst2, lookup_app_l; [exact Hst |]. rewrite Hlen. apply Hvalid, Hl. }
    split.
    { intros l Hl Hnot. rewrite Hst2, lookup_app_l by (rewrite Hlen; exact Hl).
      apply Hframe, Hnot. }
    split; [rewrite Hst2, length_app, Hlen, Hlen2; reflexivity |].
    split.
    { intros i q Hq. split; [apply Hnews; apply list_elem_of_lookup; eauto |].
      destruct (Hper2 i q Hq) as (o & Ho & Hadd).
      exists o, (clock_cursor s1 + i), (rand_units s1 (rand_cursor s1 + i)).
      split; [rewrite Hpos in Ho; exact Ho |].
      rewrite Hst2, lookup_app_r by (rewrite Hlen; cbn; lia).
      replace (length (particle_store s) + i - length (particle_store s1)) with i
        by (rewrite Hlen; cbn; lia).
      rewrite Hadd. unfold oracles in Hor. injection Hor as _ _ ->. reflexivity. }
    split; [rewrite Hpos2, Hpos; reflexivity |].
    split; [rewrite Hg2, Hg; reflexivity |].
    rewrite Hor2, Hor. reflexivity. }
  intros i r Hr. split; [apply (Hpick i r Hr) |].
  destruct (Hper2 i r Hr) as (o & Ho & Hadd).
  exists o. split; [rewrite Hpos in Ho; exact Ho |].
  rewrite Hst2, lookup_app_r by (rewrite Hlen; cbn; lia).
  replace (length (particle_store s) + i - length (particle_store s1)) with i
    by (rewrite Hlen; cbn; lia).
  rewrite Hadd, Hcc, Hrc1. unfold oracles in Hor. injection Hor as _ -> ->.
  reflexivity.
Qed.

(** C1, as amended: a particle that expires in an update pass (it moves
    in this pass and its new [y] exceeds [HEIGHT]) is removed from the pool
    and one replacement per expired particle is appended.  The i-th
    replacement is built from the point that [random.choice] picks in the
    root cloud [heart_data_root] (not in the working cloud) on the i-th
    draw of the pass: it copies that point's fields, has velocity [0], is
    inactive, and its start time is the clock reading taken when it is
    built (the pass reads the clock once, then each constructor once) plus
    a delay of [0, 1] drawn for it alone. *)
Theorem recycled_from_root_cloud (s : state) (particles : list loc) :
  valid_refs (particle_store s) particles ->
  NoDup particles ->
  valid_refs (pos_store s) (heart_data_root s) ->
  heart_data_root s <> [] ->
  exists (kept news : list loc) (s' : state),
    update_falling_particles particles s =
      Ok (kept ++ seq (length (particle_store s)) (length news), s') /\
    sublist kept particles /\
    length kept + length news = length particles /\
    (forall l o, l ∈ particles -> particle_store s !! l = Some o ->
       (l ∈ kept <-> ~ falls_off (clock s (clock_cursor s)) o)) /\
    (forall l o, l ∈ particles -> particle_store s !! l = Some o ->
       falls_off (clock s (clock_cursor s)) o ->
       (l ∉ kept ++ seq (length (particle_store s)) (length news)) /\
       1 <= length news) /\
    forall i : nat, i < length news ->
      exists r o,
        news !! i = Some r /\
        chosen (heart_data_root s) (rand_ints s (rand_cursor s + i)) = Some r /\
        r ∈ heart_data_root s /\
        pos_store s !! r = Some o /\
        (0 <= delay_of 1 (rand_units s (rand_cursor s + length news + i)) <= 1)%R /\
        particle_store s' !! (length (particle_store s) + i) =
          Some (Particle.mk (Pos.x o) (IZR (Pos.y o)) (Pos.color o)
                  (Pos.real_x o) (Pos.real_y o)
                  (clock s (S (clock_cursor s) + i) +
                   delay_of 1 (rand_units s (rand_cursor s + length news + i)))
                  0 false).
Proof.
  intros Hvalid Hnd Hrv Hroot.
  destruct (update_falling_particles_recycles s particles Hvalid Hnd Hrv Hroot)
    as (kept & news & s' & E & (Hsub & Hcount & Hper & _ & _ & Hnews & _) & Hdraws).
  exists kept, news, s'. split; [exact E |]. split; [exact Hsub |].
  split; [exact Hcount |].
  split; [intros l o Hl Ho; apply (Hper l o Hl Ho) |].
  split.
  { intros l o Hl Ho Hfall.
    assert (Hk : l ∉ kept).
    { intros Hk. apply (proj1 (Hper l o Hl Ho)) in Hk. contradiction. }
    pose proof (sublist_missing l kept particles Hsub Hl Hk) as Hless.
    split; [| lia].
    intros Hin. apply elem_of_app in Hin as [Hin | Hin]; [contradiction |].
    apply elem_of_seq in Hin. apply Hvalid in Hl. lia. }
  intros i Hi. destruct (lookup_lt_is_Some_2 _ _ Hi) as [r Hr].
  destruct (Hdraws i r Hr) as (Hpick & o & Ho & Hnew).
  exists r, o. split; [exact Hr |]. split; [exact Hpick |].
  split; [apply (Hnews i r Hr) |]. split; [exact Ho |].
  split; [apply delay_of_bounds; lra | exact Hnew].
Qed.

Lemma recycled_from_root_cloud_witness :
  (valid_refs (particle_store (example_state 0)) [0] /\
   NoDup [0] /\
   valid_refs (pos_store (example_state 0)) (heart_data_root (example_state 0)) /\
   heart_data_root (example_state 0) <> []) /\
  exists (kept news : list loc) (s' : state),
    update_falling_particles [0] (example_state 0) =
      Ok (kept ++ seq (length (particle_store (example_state 0))) (length news), s') /\
    (0 ∉ kept ++ seq (length (particle_store (example_state 0))) (length news)) /\
    1 <= length news.
Proof.
  pose proof (example_state_update_ready 0) as Hready.
  split; [exact Hready |].
  destruct Hready as (Hv & Hnd & Hrv & Hroot).
  destruct (recycled_from_root_cloud (example_state 0) [0] Hv Hnd Hrv Hroot)
    as (kept & news & s' & E & _ & _ & _ & Hgone & _).
  exists kept, news, s'. split; [exact E |].
  apply (Hgone 0 (Particle.mk 5 601 PINK 0 0 0 0 true)).
  - apply list_elem_of_singleton. reflexivity.
  - reflexivity.
  - apply active_off_screen_falls; cbn; [reflexivity | unfold HEIGHT; lra | lra].
Defined.

Lemma sublist_singleton_without (p : loc) (k : list loc) :
  sublist k [p] -> p ∉ k -> k = [].
Proof.
  intros Hsub Hnot. destruct k as [| x k]; [reflexivity |].
  exfalso. apply Hnot.
  assert (Hx : x ∈ [p]) by (eapply elem_of_sublist; [left | exact Hsub]).
  apply list_elem_of_singleton in Hx. subst x. left.
Qed.

(** C1 as stated fails: in the example the only point of the working cloud
    is object [1] (at [x = 320]) and the only point of the root cloud is
    object [0] (at [x = 310]); the particle that replaces the expired one
    is built from object [0], so it copies no point of the working cloud. *)
Lemma recycle_source_counterexample :
  exists s' l q,
    update_falling_particles [0] (example_state 0) = Ok ([l], s') /\
    particle_store s' !! l = Some q /\
    Particle.x q = 310%Z /\
    Particle.velocity q = 0%R /\ Particle.active q = false /\
    heart_data (example_state 0) = [1] /\
    pos_store s' = pos_store (example_state 0) /\
    ~ exists w pw, w ∈ heart_data (example_state 0) /\
        pos_store s' !! w = Some pw /\
        Particle.x q = Pos.x pw.
Proof.
  destruct (example_state_update_ready 0) as (Hv & Hnd & Hrv & Hroot).
  destruct (update_falling_particles_spec (example_state 0) [0] Hv Hnd Hrv Hroot)
    as (kept & news & s' & E & Hsub & Hcount & Hper & _ & _ & Hnews & Hpos & _).
  assert (Hin : 0 ∈ [0]) by (apply list_elem_of_singleton; reflexivity).
  destruct (Hper 0 _ Hin eq_refl) as [Hk _].
  assert (Hnot : 0 ∉ kept).
  { intros H0. apply Hk in H0. apply H0.
    apply active_off_screen_falls; cbn; [reflexivity | unfold HEIGHT; lra | lra]. }
  pose proof (sublist_singleton_without 0 kept Hsub Hnot) as ->.
  simpl in Hcount. destruct news as [| r [| r' news]]; try discriminate.
  destruct (Hnews 0 r eq_refl) as (Hr & o & j & u & Ho & Hnew).
  apply list_elem_of_singleton in Hr. subst r. cbn in Ho. injection Ho as <-.
  eexists s', 1, _. split; [exact E |]. split; [exact Hnew |].
  cbn [particle_of Particle.x Particle.velocity Particle.active Pos.x].
  do 3 (split; [reflexivity |]). split; [reflexivity |]. split; [exact Hpos |].
  intros (w & pw & Hw & Hpw & Hx).
  apply list_elem_of_singleton in Hw. subst w. rewrite Hpos in Hpw.
  cbn in Hpw. injection Hpw as <-. cbn in Hx. discriminate.
Qed.

(** C4: after any number of turns of the main loop the pool holds exactly
    [PARTICLE_COUNT] particles.  In the state reached, an update pass
    appends exactly as many particles as it removes, and the top-up loop,
    started from any shorter pool, appends batches of [5] until the pool
    holds at least [PARTICLE_COUNT], leaving a full pool as it is. *)
Theorem pool_size_invariant (n : nat) (ints : nat -> Z) (units times : nat -> R) :
  exists s,
    main n (initial_state ints units times) = Ok (tt, s) /\
    length (falling_particles s) = PARTICLE_COUNT /\
    PARTICLE_COUNT = 1000 /\
    (exists (kept news : list loc) (s' : state),
       update_falling_particles (falling_particles s) s =
         Ok (kept ++ seq (length (particle_store s)) (length news), s') /\
       sublist kept (falling_particles s) /\
       length (kept ++ seq (length (particle_store s)) (length news)) =
         length (falling_particles s)) /\
    (forall m, exists k s',
       top_up (with_falling_particles (take m (falling_particles s)) s) = Ok (tt, s') /\
       falling_particles s' =
         take m (falling_particles s) ++ seq (length (particle_store s)) (5 * k) /\
       PARTICLE_COUNT <= length (falling_particles s') /\
       (PARTICLE_COUNT <= m -> k = 0)).
Proof.
  destruct (main_spec n ints units times) as (s & E & Hwf & Hlen & _).
  exists s. split; [exact E |]. split; [exact Hlen |]. split; [reflexivity |].
  pose proof Hwf as (Hvw & Hvr & Hl & _ & H5 & Hvp & Hnd & _).
  split.
  - assert (Hroot : heart_data_root s <> []).
    { intros Er. rewrite Hl, Er in H5. simpl in H5. lia. }
    destruct (update_falling_particles_spec s (falling_particles s) Hvp Hnd Hvr Hroot)
      as (kept & news & s' & Eu & Hsub & Hcount & _).
    exists kept, news, s'. split; [exact Eu |]. split; [exact Hsub |].
    rewrite length_app, length_seq. exact Hcount.
  - intros m. unfold top_up. rewrite (bind_Ok _ _ _ _ _ (gets_Ok _ _)).
    set (st := with_falling_particles (take m (falling_particles s)) s).
    destruct (top_up_loop_spec (PARTICLE_COUNT - length (falling_particles st)) st
                Hvw H5 ltac:(lia))
      as (k & added & s' & Et & Hfull & _ & Hzero & Hfp & _).
    exists k, s'. split; [exact Et |]. split; [exact Hfp |]. split; [exact Hfull |].
    intros Hm. apply Hzero. unfold st. state_simpl. rewrite length_take. lia.
Qed.

(** * Further properties of the code *)

(** ** [heart_equation]: selectors and an integer form *)

Lemma py_getitem_scale (scale_type : Z) :
  py_getitem scale scale_type =
    if ((scale_type =? 0) || (scale_type =? -2))%Z then Some 150%Z
    else if ((scale_type =? 1) || (scale_type =? -1))%Z then Some 120%Z
    else None.
Proof.
  unfold py_getitem, scale. cbn [length].
  destruct (Z.leb_spec 0 scale_type) as [Hpos | Hneg].
  - destruct (Z.eqb_spec scale_type 0) as [-> | H0]; [reflexivity |].
    destruct (Z.eqb_spec scale_type (-2)) as [-> | _]; [lia |].
    destruct (Z.eqb_spec scale_type 1) as [-> | H1]; [reflexivity |].
    destruct (Z.eqb_spec scale_type (-1)) as [-> | _]; [lia |].
    cbn [orb]. apply lookup_ge_None. cbn [length]. lia.
  - destruct (Z.eqb_spec scale_type 0) as [-> | _]; [lia |].
    destruct (Z.eqb_spec scale_type (-2)) as [-> | H2]; [reflexivity |].
    destruct (Z.eqb_spec scale_type 1) as [-> | _]; [lia |].
    destruct (Z.eqb_spec scale_type (-1)) as [-> | H1]; [reflexivity |].
    cbn [orb]. destruct (Z.leb_spec (- Z.of_nat 2) scale_type); [lia | reflexivity].
Qed.

(** X1: [heart_equation] accepts the selectors [-2..1], the negative ones
    counting from the end of [scale] as Python does, and raises
    [IndexError] for every other selector; it never divides by zero. *)
Theorem heart_equation_selectors (x y scale_type : Z) :
  match heart_equation x y scale_type with
  | Ok _ => (-2 <= scale_type < 2)%Z
  | Raise e => e = IndexError /\ ~ (-2 <= scale_type < 2)%Z
  end /\
  heart_equation x y (-1) = heart_equation x y 1 /\
  heart_equation x y (-2) = heart_equation x y 0.
Proof.
  split; [| split; reflexivity].
  unfold heart_equation. rewrite py_getitem_scale.
  destruct (Z.eqb_spec scale_type 0); [cbn; lia |].
  destruct (Z.eqb_spec scale_type (-2)); [cbn; lia |].
  destruct (Z.eqb_spec scale_type 1); [cbn; lia |].
  destruct (Z.eqb_spec scale_type (-1)); [cbn; lia |].
  cbn. split; [reflexivity | lia].
Qed.

Lemma Q2R_0 : Q2R 0 = 0%R.
Proof. change 0%Q with (inject_Z 0). apply Q2R_inject_Z. Qed.

Lemma Q2R_1 : Q2R 1 = 1%R.
Proof. change 1%Q with (inject_Z 1). apply Q2R_inject_Z. Qed.

(** The value tested by [heart_equation], over the reals. *)
Lemma heart_value_Q2R (x y s : Z) :
  s <> 0%Z ->
  Q2R (((inject_Z x / inject_Z s) ^ 2 + (inject_Z y / inject_Z s) ^ 2 - 1) ^ 3
       - (inject_Z x / inject_Z s) ^ 2 * (inject_Z y / inject_Z s) ^ 3)%Q =
  (((IZR x / IZR s) ^ 2 + (IZR y / IZR s) ^ 2 - 1) ^ 3
   - (IZR x / IZR s) ^ 2 * (IZR y / IZR s) ^ 3)%R.
Proof.
  intros Hs.
  assert (Hne : ~ inject_Z s == 0).
  { intros E. apply Qeq_eqR in E. rewrite Q2R_inject_Z, Q2R_0 in E.
    apply eq_IZR in E. contradiction. }
  simpl. push_Q2R. rewrite Q2R_1. rewrite !Q2R_div by exact Hne.
  rewrite !Q2R_inject_Z. ring.
Qed.

(** The same test on integers, denominators cleared. *)
Lemma heart_test_poly (x y s : Z) :
  (0 < s)%Z ->
  Qle_bool (((inject_Z x / inject_Z s) ^ 2 + (inject_Z y / inject_Z s) ^ 2 - 1) ^ 3
            - (inject_Z x / inject_Z s) ^ 2 * (inject_Z y / inject_Z s) ^ 3) 0 =
  ((x ^ 2 + y ^ 2 - s ^ 2) ^ 3 <=? s * x ^ 2 * y ^ 3)%Z.
Proof.
  intros Hs. apply eq_true_iff_eq. rewrite Qle_bool_iff, Z.leb_le.
  assert (HsR : (0 < IZR s)%R) by (apply IZR_lt; exact Hs).
  assert (Hkey :
    (((IZR x / IZR s) ^ 2 + (IZR y / IZR s) ^ 2 - 1) ^ 3
     - (IZR x / IZR s) ^ 2 * (IZR y / IZR s) ^ 3)%R =
    (IZR ((x ^ 2 + y ^ 2 - s ^ 2) ^ 3 - s * x ^ 2 * y ^ 3) / IZR s ^ 6)%R).
  { replace ((x ^ 2 + y ^ 2 - s ^ 2) ^ 3 - s * x ^ 2 * y ^ 3)%Z
      with ((x * x + y * y - s * s) * (x * x + y * y - s * s) * (x * x + y * y - s * s)
            - s * (x * x) * (y * y * y))%Z by ring.
    repeat (rewrite minus_IZR || rewrite plus_IZR || rewrite mult_IZR).
    field. lra. }
  assert (Hpow : (0 < IZR s ^ 6)%R) by (apply pow_lt; exact HsR).
  split.
  - intros H. apply Qle_Rle in H. rewrite heart_value_Q2R, Q2R_0, Hkey in H by lia.
    apply Rmult_le_compat_r with (r := (IZR s ^ 6)%R) in H; [| lra].
    unfold Rdiv in H. rewrite Rmult_assoc, Rinv_l, Rmult_1_r, Rmult_0_l in H by lra.
    apply le_IZR in H. lia.
  - intros H. apply Rle_Qle. rewrite heart_value_Q2R, Q2R_0, Hkey by lia.
    assert (H' : (IZR ((x ^ 2 + y ^ 2 - s ^ 2) ^ 3 - s * x ^ 2 * y ^ 3) <= 0)%R)
      by (apply IZR_le; lia).
    assert (Hinv : (0 < / IZR s ^ 6)%R) by (apply Rinv_0_lt_compat, Hpow).
    unfold Rdiv. nra.
Qed.

(** X2: in exact arithmetic the test of [heart_equation] is a test on
    integers: with [s] the selected scale constant the result is
    [(x^2 + y^2 - s^2)^3 <= s * x^2 * y^3]. *)
Theorem heart_equation_integer_form (x y scale_type : Z) :
  heart_equation x y scale_type =
    match py_getitem scale scale_type with
    | Some s => Ok ((x ^ 2 + y ^ 2 - s ^ 2) ^ 3 <=? s * x ^ 2 * y ^ 3)%Z
    | None => Raise IndexError
    end.
Proof.
  unfold heart_equation.
  destruct (py_getitem scale scale_type) as [s |] eqn:E; [| reflexivity].
  assert (Hs : (0 < s)%Z) by (destruct (scale_entries _ _ E); lia).
  destruct (Z.eqb_spec s 0); [lia |]. f_equal. apply heart_test_poly, Hs.
Qed.

(** [heart_equation] on a valid selector, as the integer test. *)
Lemma heart_equation_at (x y scale_type s : Z) :
  py_getitem scale scale_type = Some s ->
  (0 < s)%Z /\
  heart_equation x y scale_type =
    Ok ((x ^ 2 + y ^ 2 - s ^ 2) ^ 3 <=? s * x ^ 2 * y ^ 3)%Z.
Proof.
  intros E. assert (Hs : (0 < s)%Z) by (destruct (scale_entries _ _ E); lia).
  split; [exact Hs |]. unfold heart_equation. rewrite E.
  destruct (Z.eqb_spec s 0); [lia |]. f_equal. apply heart_test_poly, Hs.
Qed.

(** X3: the curve is symmetric about the vertical axis:
    [heart_equation(-x, y, t)] is [heart_equation(x, y, t)], errors
    included. *)
Theorem heart_equation_mirror (x y scale_type : Z) :
  heart_equation (- x) y scale_type = heart_equation x y scale_type.
Proof.
  destruct (py_getitem scale scale_type) as [s |] eqn:E.
  - destruct (heart_equation_at (- x) y _ _ E) as [_ ->].
    destruct (heart_equation_at x y _ _ E) as [_ ->].
    replace ((- x) ^ 2)%Z with (x ^ 2)%Z by ring. reflexivity.
  - unfold heart_equation. rewrite E. reflexivity.
Qed.

(** X4: the upper half of the disc of radius [scale] is inside the curve:
    [heart_equation] returns [True] when [y >= 0] and
    [x^2 + y^2 <= scale^2]. *)
Theorem heart_equation_upper_disc (x y scale_type s : Z) :
  py_getitem scale scale_type = Some s ->
  (0 <= y)%Z ->
  (x ^ 2 + y ^ 2 <= s ^ 2)%Z ->
  heart_equation x y scale_type = Ok true.
Proof.
  intros E Hy Hdisc. destruct (heart_equation_at x y _ _ E) as [Hs ->].
  f_equal. apply Z.leb_le.
  assert (H1 : ((x ^ 2 + y ^ 2 - s ^ 2) ^ 3 <= 0)%Z).
  { set (d := (s ^ 2 - (x ^ 2 + y ^ 2))%Z). assert (0 <= d)%Z by (unfold d; lia).
    replace (x ^ 2 + y ^ 2 - s ^ 2)%Z with (- d)%Z by (unfold d; ring).
    replace ((- d) ^ 3)%Z with (- (d * d * d))%Z by ring.
    assert (0 <= d * d * d)%Z
      by (apply Z.mul_nonneg_nonneg; [apply Z.mul_nonneg_nonneg |]; assumption).
    lia. }
  assert (H2 : (0 <= s * x ^ 2 * y ^ 3)%Z).
  { apply Z.mul_nonneg_nonneg; [apply Z.mul_nonneg_nonneg; [lia |] |].
    - rewrite Z.pow_2_r. apply Z.square_nonneg.
    - apply Z.pow_nonneg. exact Hy. }
  exact (Z.le_trans _ _ _ H1 H2).
Qed.

Lemma heart_equation_upper_disc_witness :
  (py_getitem scale 1 = Some 120%Z /\ (0 <= 72)%Z /\ (96 ^ 2 + 72 ^ 2 <= 120 ^ 2)%Z) /\
  heart_equation 96 72 1 = Ok true.
Proof.
  assert (H1 : py_getitem scale 1 = Some 120%Z) by reflexivity.
  assert (H2 : (0 <= 72)%Z) by lia.
  assert (H3 : (96 ^ 2 + 72 ^ 2 <= 120 ^ 2)%Z) by lia.
  split; [auto |]. exact (heart_equation_upper_disc 96 72 1 120 H1 H2 H3).
Defined.

(** X5: on the vertical axis the curve reaches exactly from [-scale] to
    [scale]: [heart_equation(0, y, t)] is [True] if and only if
    [|y| <= scale]. *)
Theorem heart_equation_on_axis (y scale_type s : Z) :
  py_getitem scale scale_type = Some s ->
  heart_equation 0 y scale_type = Ok (Z.abs y <=? s)%Z.
Proof.
  intros E. destruct (heart_equation_at 0 y _ _ E) as [Hs ->].
  f_equal. apply eq_true_iff_eq. rewrite !Z.leb_le.
  replace (s * 0 ^ 2 * y ^ 3)%Z with 0%Z by ring.
  replace (0 ^ 2 + y ^ 2 - s ^ 2)%Z with (y * y - s * s)%Z by ring.
  set (d := (y * y - s * s)%Z).
  replace (d ^ 3)%Z with (d * d * d)%Z by ring.
  assert (Hsq : (0 <= d * d)%Z) by apply Z.square_nonneg.
  split; intros H.
  - assert (Hd : (d <= 0)%Z).
    { destruct (Z_le_gt_dec d 0) as [Hle | Hgt]; [exact Hle |].
      assert (0 < d * d * d)%Z
        by (apply Z.mul_pos_pos; [apply Z.mul_pos_pos |]; lia).
      lia. }
    unfold d in Hd. nia.
  - assert (Hd : (d <= 0)%Z) by (unfold d; nia).
    nia.
Qed.

Lemma heart_equation_on_axis_witness :
  py_getitem scale 0 = Some 150%Z /\
  heart_equation 0 (-150) 0 = Ok true /\ heart_equation 0 151 0 = Ok false.
Proof.
  assert (H : py_getitem scale 0 = Some 150%Z) by reflexivity.
  split; [exact H |]. split.
  - exact (heart_equation_on_axis (-150) 0 150 H).
  - exact (heart_equation_on_axis 151 0 150 H).
Defined.

(** ** [get_fade_color]: range, saturation and monotonicity *)

Lemma Int_part_bounds (r : R) : (IZR (Int_part r) <= r < IZR (Int_part r) + 1)%R.
Proof. destruct (base_Int_part r) as [H1 H2]. lra. Qed.

Lemma int_of_R_nonneg_eq (r : R) : (0 <= r)%R -> int_of_R r = Int_part r.
Proof. intros H. unfold int_of_R. destruct (Rle_dec 0 r); [reflexivity | contradiction]. Qed.

Lemma Int_part_le (r1 r2 : R) : (r1 <= r2)%R -> (Int_part r1 <= Int_part r2)%Z.
Proof.
  intros H. pose proof (Int_part_bounds r1). pose proof (Int_part_bounds r2).
  assert (Hlt : (IZR (Int_part r1) < IZR (Int_part r2 + 1))%R)
    by (rewrite plus_IZR; lra).
  apply lt_IZR in Hlt. lia.
Qed.

Lemma int_of_R_between (a b : Z) (r : R) :
  (0 <= a)%Z -> (IZR a <= r <= IZR b)%R -> (a <= int_of_R r <= b)%Z.
Proof.
  intros Ha [H1 H2].
  assert (H0 : (0 <= r)%R) by (apply IZR_le in Ha; lra).
  rewrite (int_of_R_nonneg_eq r H0).
  rewrite <- (Int_part_IZR a), <- (Int_part_IZR b). split; apply Int_part_le; assumption.
Qed.

Lemma fade_factor_bounds (dx dy : Z) : (0 <= fade_factor dx dy <= 1)%R.
Proof.
  rewrite fade_factor_clamp. unfold clamp.
  split; [apply Rmax_l |]. apply Rmax_lub; [lra | apply Rmin_l].
Qed.

Lemma mix_between (near far : Z) (f : R) :
  (0 <= near <= far)%Z -> (0 <= f <= 1)%R -> (near <= mix near far f <= far)%Z.
Proof.
  intros [H0 Hnf] Hf. unfold mix. apply int_of_R_between; [exact H0 |].
  apply IZR_le in Hnf. nra.
Qed.

(** X6: every colour of the gradient lies between the two palette colours,
    channel by channel, hence is a valid 8-bit colour. *)
Theorem get_fade_color_in_palette (real_x real_y : Z) :
  (PINK.1.1 <= (get_fade_color real_x real_y).1.1 <= SOFTER_PINK.1.1)%Z /\
  (PINK.1.2 <= (get_fade_color real_x real_y).1.2 <= SOFTER_PINK.1.2)%Z /\
  (PINK.2 <= (get_fade_color real_x real_y).2 <= SOFTER_PINK.2)%Z /\
  (0 <= (get_fade_color real_x real_y).1.1 <= 255)%Z /\
  (0 <= (get_fade_color real_x real_y).1.2 <= 255)%Z /\
  (0 <= (get_fade_color real_x real_y).2 <= 255)%Z.
Proof.
  pose proof (fade_factor_bounds real_x real_y) as Hf.
  unfold get_fade_color. cbn [fst snd PINK SOFTER_PINK].
  pose proof (mix_between 219 255 _ ltac:(lia) Hf).
  pose proof (mix_between 112 204 _ ltac:(lia) Hf).
  pose proof (mix_between 147 213 _ ltac:(lia) Hf).
  lia.
Qed.

Lemma distance_le (x1 y1 x2 y2 : Z) :
  (x1 ^ 2 + y1 ^ 2 <= x2 ^ 2 + y2 ^ 2)%Z -> (distance x1 y1 <= distance x2 y2)%R.
Proof. intros H. unfold distance. apply sqrt_le_1_alt, IZR_le, H. Qed.

Lemma fade_factor_antitone (x1 y1 x2 y2 : Z) :
  (x1 ^ 2 + y1 ^ 2 <= x2 ^ 2 + y2 ^ 2)%Z ->
  (fade_factor x2 y2 <= fade_factor x1 y1)%R.
Proof.
  intros H. apply distance_le in H. pose proof max_distance_pos as Hm.
  unfold fade_factor. fold (distance x1 y1) (distance x2 y2).
  assert (Hd : (distance x1 y1 / max_distance <= distance x2 y2 / max_distance)%R).
  { unfold Rdiv. apply Rmult_le_compat_r; [| exact H].
    apply Rlt_le, Rinv_0_lt_compat, Hm. }
  apply Rle_max_compat_l. lra.
Qed.

(** X7: at and beyond the distance of a canvas corner the fade factor is
    clamped to [0] and the colour is [SOFTER_PINK]. *)
Theorem get_fade_color_saturates (real_x real_y : Z) :
  ((WIDTH / 2) ^ 2 + (HEIGHT / 2) ^ 2 <= real_x ^ 2 + real_y ^ 2)%Z ->
  fade_factor real_x real_y = 0%R /\ get_fade_color real_x real_y = SOFTER_PINK.
Proof.
  intros H.
  assert (E : fade_factor real_x real_y = 0%R).
  { pose proof max_distance_pos as Hm.
    assert (Hd : (max_distance <= distance real_x real_y)%R).
    { unfold max_distance, distance. apply sqrt_le_1_alt, IZR_le, H. }
    unfold fade_factor. fold (distance real_x real_y). apply Rmax_left.
    assert (1 <= distance real_x real_y / max_distance)%R; [| lra].
    apply Rmult_le_reg_r with (r := max_distance); [exact Hm |].
    unfold Rdiv. rewrite Rmult_assoc, Rinv_l by lra. lra. }
  split; [exact E |]. rewrite get_fade_color_lerp, E, !lerp_far. reflexivity.
Qed.

Lemma get_fade_color_saturates_witness :
  ((WIDTH / 2) ^ 2 + (HEIGHT / 2) ^ 2 <= 500 ^ 2 + (-7) ^ 2)%Z /\
  get_fade_color 500 (-7) = SOFTER_PINK.
Proof.
  assert (H : ((WIDTH / 2) ^ 2 + (HEIGHT / 2) ^ 2 <= 500 ^ 2 + (-7) ^ 2)%Z)
    by (vm_compute; discriminate).
  split; [exact H |]. exact (proj2 (get_fade_color_saturates 500 (-7) H)).
Defined.

Lemma mix_monotone (near far : Z) (f1 f2 : R) :
  (0 <= near <= far)%Z -> (0 <= f2 <= f1)%R -> (f1 <= 1)%R ->
  (mix near far f1 <= mix near far f2)%Z.
Proof.
  intros [H0 Hnf] Hf H1. unfold mix.
  apply IZR_le in Hnf. apply IZR_le in H0.
  rewrite !int_of_R_nonneg_eq by nra. apply Int_part_le. nra.
Qed.

(** X8: the gradient is monotone in the distance from the centre: a point
    at least as far as another gets a colour at least as light on every
    channel; in particular the colour depends on [x^2 + y^2] only. *)
Theorem get_fade_color_monotone (x1 y1 x2 y2 : Z) :
  (x1 ^ 2 + y1 ^ 2 <= x2 ^ 2 + y2 ^ 2)%Z ->
  ((get_fade_color x1 y1).1.1 <= (get_fade_color x2 y2).1.1)%Z /\
  ((get_fade_color x1 y1).1.2 <= (get_fade_color x2 y2).1.2)%Z /\
  ((get_fade_color x1 y1).2 <= (get_fade_color x2 y2).2)%Z /\
  (x1 ^ 2 + y1 ^ 2 = x2 ^ 2 + y2 ^ 2 -> get_fade_color x1 y1 = get_fade_color x2 y2)%Z.
Proof.
  intros H. pose proof (fade_factor_antitone _ _ _ _ H) as Hf.
  pose proof (fade_factor_bounds x1 y1) as [_ H1].
  pose proof (fade_factor_bounds x2 y2) as [H2 _].
  unfold get_fade_color. cbn [fst snd PINK SOFTER_PINK].
  split; [apply mix_monotone; [lia | lra | lra] |].
  split; [apply mix_monotone; [lia | lra | lra] |].
  split; [apply mix_monotone; [lia | lra | lra] |].
  intros E. unfold fade_factor. rewrite E. reflexivity.
Qed.

Lemma get_fade_color_monotone_witness :
  (3 ^ 2 + 4 ^ 2 <= 5 ^ 2 + 0 ^ 2)%Z /\ get_fade_color 3 4 = get_fade_color 5 0.
Proof.
  assert (H : (3 ^ 2 + 4 ^ 2 <= 5 ^ 2 + 0 ^ 2)%Z) by lia.
  split; [exact H |].
  apply (proj2 (proj2 (proj2 (get_fade_color_monotone 3 4 5 0 H)))). reflexivity.
Defined.

(** ** [heart_beat]: the sign of the deformation *)

(** X9: the heart is larger than the root shape exactly while [sin(2t)] is
    positive and smaller exactly while it is negative; the expansion is
    never farther from [1] than the contraction profile [0.06 |sin(2t)|]. *)
Theorem scale_factor_sign (t : R) :
  (1 < scale_factor t <-> 0 < sin (2 * t))%R /\
  (scale_factor t < 1 <-> sin (2 * t) < 0)%R /\
  (scale_factor t = 1 <-> sin (2 * t) = 0)%R /\
  (Rabs (scale_factor t - 1) <= 0.06 * Rabs (sin (2 * t)))%R.
Proof.
  unfold scale_factor. replace (t * 2)%R with (2 * t)%R by ring.
  pose proof (SIN_bound (2 * t)) as [Hlo Hhi]. set (v := sin (2 * t)) in *.
  destruct (Rlt_dec 0 v) as [Hp | Hn].
  - assert (Hv2 : (0 < v * v <= 1)%R) by nra.
    assert (Hv3 : (0 < v * (v * v) <= v)%R) by nra.
    replace (v ^ 3)%R with (v * (v * v))%R by ring.
    repeat split; intros; try lra.
    rewrite !Rabs_pos_eq by lra. lra.
  - repeat split; intros; try lra.
    replace (1 + 0.06 * v - 1)%R with (0.06 * v)%R by ring.
    rewrite Rabs_mult, (Rabs_pos_eq 0.06) by lra. lra.
Qed.

(** ** The scans, point by point *)

Lemma elem_of_py_range (start stop step z : Z) :
  (0 < step)%Z ->
  z ∈ py_range start stop step <->
  (start <= z < stop)%Z /\ ((z - start) mod step = 0)%Z.
Proof.
  intros Hstep. unfold py_range. rewrite list_elem_of_fmap.
  set (n := ((stop - start + step - 1) / step)%Z).
  assert (Hn1 : (step * n <= stop - start + step - 1)%Z)
    by (apply Z.mul_div_le; exact Hstep).
  assert (Hn2 : (stop - start + step - 1 < step * (n + 1))%Z).
  { pose proof (Z.mod_pos_bound (stop - start + step - 1) step Hstep).
    pose proof (Z.div_mod (stop - start + step - 1) step ltac:(lia)). fold n in H0. lia. }
  split.
  - intros (i & -> & Hi). apply elem_of_seqZ in Hi.
    split; [nia |]. replace (start + i * step - start)%Z with (i * step)%Z by ring.
    apply Z.mod_mul. lia.
  - intros [[H1 H2] Hmod]. exists ((z - start) / step)%Z.
    pose proof (Z.div_mod (z - start) step ltac:(lia)) as Hdm. rewrite Hmod in Hdm.
    split; [lia |]. apply elem_of_seqZ.
    assert (0 <= (z - start) / step)%Z by (apply Z.div_pos; lia). nia.
Qed.

Lemma heart_equation_valid (x y scale_type : Z) :
  (-2 <= scale_type < 2)%Z ->
  heart_equation x y scale_type = Ok (inside scale_type (x, y)).
Proof.
  intros Hst. unfold inside. cbn [fst snd].
  destruct (heart_equation x y scale_type) as [b | e] eqn:E; [reflexivity |].
  exfalso. unfold heart_equation in E. rewrite py_getitem_scale in E.
  destruct (Z.eqb_spec scale_type 0); [discriminate |].
  destruct (Z.eqb_spec scale_type (-2)); [discriminate |].
  destruct (Z.eqb_spec scale_type 1); [discriminate |].
  destruct (Z.eqb_spec scale_type (-1)); [discriminate |]. lia.
Qed.

Lemma jitter_bounds (j z : Z) : (0 <= j)%Z -> (Z.abs (jitter j z) <= j)%Z.
Proof.
  intros Hj. unfold jitter. pose proof (Z.mod_pos_bound z (j - - j + 1) ltac:(lia)). lia.
Qed.

Lemma plot_point (jx jy scale_type x y : Z) (acc : list loc) (s : state) :
  (0 <= jx)%Z -> (0 <= jy)%Z -> (-2 <= scale_type < 2)%Z ->
  plot jx jy scale_type x y acc s =
    if inside scale_type (x, y)
    then Ok (acc ++ [length (pos_store s)],
             with_pos_store
               (pos_store s ++
                  [Pos.mk (center_x + x + jitter jx (rand_ints s (rand_cursor s)))
                     (center_y - y + jitter jy (rand_ints s (S (rand_cursor s))))
                     (get_fade_color x y) x y])
               (with_rand_cursor (S (S (rand_cursor s))) s))
    else Ok (acc, s).
Proof.
  intros Hjx Hjy Hst. unfold plot. rewrite (heart_equation_valid x y scale_type Hst).
  unfold lift. unfold bind at 1.
  destruct (inside scale_type (x, y)); [| reflexivity].
  rewrite (bind_Ok _ _ _ _ _ (randint_Ok (- jx) jx _ ltac:(lia))).
  rewrite (bind_Ok _ _ _ _ _ (randint_Ok (- jy) jy _ ltac:(lia))).
  reflexivity.
Qed.

Lemma scan_points_inv_plot (s0 : state) (acc0 : list loc) (jx jy scale_type x y : Z)
    (pts : list (Z * Z)) (acc : list loc) :
  (0 <= jx)%Z -> (0 <= jy)%Z -> (-2 <= scale_type < 2)%Z ->
  hoare (scan_points_inv s0 acc0 jx jy scale_type pts acc) (plot jx jy scale_type x y acc)
    (fun acc' => scan_points_inv s0 acc0 jx jy scale_type (pts ++ [(x, y)]) acc').
Proof.
  intros Hjx Hjy Hst s (Hps & Hg & Hor & Hcc & Hsc & added & Hstore & Hrc & Hgen & Hacc).
  rewrite (plot_point jx jy scale_type x y acc s Hjx Hjy Hst).
  destruct (inside scale_type (x, y)) eqn:Hin.
  - eexists _, _. split; [reflexivity |]. unfold scan_points_inv. cbn.
    do 5 (split; [assumption |]).
    eexists (added ++ [_]). rewrite Hstore, <- app_assoc. split; [reflexivity |].
    rewrite filter_app, filter_cons_True by exact Hin.
    rewrite filter_nil, !length_app. simpl.
    split; [lia |]. split.
    + apply Forall2_app; [exact Hgen |]. constructor; [| constructor].
      unfold generated. cbn.
      split; [reflexivity |]. split; [reflexivity |]. split; [reflexivity |].
      pose proof (jitter_bounds jx (rand_ints s (rand_cursor s)) Hjx).
      pose proof (jitter_bounds jy (rand_ints s (S (rand_cursor s))) Hjy).
      split; lia.
    + rewrite seq_app, app_assoc, Hacc. reflexivity.
  - eexists _, _. split; [reflexivity |]. unfold scan_points_inv.
    do 5 (split; [assumption |]).
    exists added. split; [exact Hstore |]. split; [exact Hrc |].
    rewrite filter_app, filter_cons_False by (rewrite Hin; discriminate).
    rewrite filter_nil, app_nil_r.
    split; [exact Hgen | exact Hacc].
Qed.

Lemma scan_points_spec (s0 : state) (acc0 : list loc) (jx jy scale_type : Z)
    (xs ys : list Z) :
  (0 <= jx)%Z -> (0 <= jy)%Z -> (-2 <= scale_type < 2)%Z ->
  hoare (scan_points_inv s0 acc0 jx jy scale_type [] acc0)
    (for_ xs acc0 (fun real_x heart_data =>
       for_ ys heart_data (fun real_y heart_data =>
         plot jx jy scale_type real_x real_y heart_data)))
    (fun acc => scan_points_inv s0 acc0 jx jy scale_type (grid xs ys) acc).
Proof.
  intros Hjx Hjy Hst.
  apply (hoare_for (fun done acc s =>
           scan_points_inv s0 acc0 jx jy scale_type (grid done ys) acc s)).
  intros done x rest acc _.
  eapply hoare_conseq.
  - apply (hoare_for (fun doney acc s =>
             scan_points_inv s0 acc0 jx jy scale_type
               (grid done ys ++ (pair x <$> doney)) acc s)).
    intros doney y resty acc' _.
    eapply hoare_conseq.
    + apply (scan_points_inv_plot s0 acc0 jx jy scale_type x y
               (grid done ys ++ (pair x <$> doney)) acc' Hjx Hjy Hst).
    + auto.
    + intros a s H. rewrite fmap_app, app_assoc. exact H.
  - intros s H. simpl. rewrite app_nil_r. exact H.
  - intros a s H. rewrite grid_snoc. exact H.
Qed.

Lemma scan_points_inv_init (s0 : state) (acc0 : list loc) (jx jy scale_type : Z) :
  scan_points_inv s0 acc0 jx jy scale_type [] acc0 s0.
Proof.
  unfold scan_points_inv. do 5 (split; [reflexivity |]).
  exists []. simpl. rewrite !app_nil_r. repeat split; [lia | constructor].
Qed.

Lemma elem_of_grid (xs ys : list Z) (xy : Z * Z) :
  xy ∈ grid xs ys <-> xy.1 ∈ xs /\ xy.2 ∈ ys.
Proof.
  unfold grid. rewrite list_elem_of_bind. split.
  - intros (x & Hxy & Hx). apply list_elem_of_fmap in Hxy as (y & -> & Hy). auto.
  - intros [Hx Hy]. exists xy.1. split; [| exact Hx].
    apply list_elem_of_fmap. exists xy.2. split; [destruct xy; reflexivity | exact Hy].
Qed.

Lemma generated_in_grid (jx jy scale_type : Z) (xs ys : list Z) (added : list Pos.t)
    (p : Pos.t) :
  Forall2 (generated jx jy) added
    (filter (fun xy => inside scale_type xy = true) (grid xs ys)) ->
  p ∈ added ->
  inside scale_type (Pos.real_x p, Pos.real_y p) = true /\
  Pos.real_x p ∈ xs /\ Pos.real_y p ∈ ys /\
  Pos.color p = get_fade_color (Pos.real_x p) (Pos.real_y p) /\
  (Z.abs (Pos.x p - (center_x + Pos.real_x p)) <= jx)%Z /\
  (Z.abs (Pos.y p - (center_y - Pos.real_y p)) <= jy)%Z.
Proof.
  intros Hall Hp. apply list_elem_of_lookup in Hp as [i Hi].
  destruct (Forall2_lookup_l _ _ _ _ _ Hall Hi) as ([x y] & Hxy & Hgen).
  apply list_elem_of_lookup_2, list_elem_of_filter in Hxy as [Hin Hgrid].
  apply elem_of_grid in Hgrid as [Hx Hy]. cbn [fst snd] in *.
  destruct Hgen as (-> & -> & Hc & Hjx & Hjy). cbn [fst snd] in *. auto 10.
Qed.

(** X10: [get_pos_begin] appends to the list it is given one new [Pos] per
    grid point inside the curve, in scan order, and draws two random
    numbers for each.  Every new point has logical offsets inside the
    curve, [real_x] in [-300..299] and an even [real_y] in [-300..298], the
    gradient colour of its offsets, and a screen position within [20]
    pixels horizontally and [10] vertically of
    [(center_x + real_x, center_y - real_y)]. *)
Theorem get_pos_begin_points (s : state) (heart_data : list loc) (scale_type : Z) :
  (-2 <= scale_type < 2)%Z ->
  exists added s',
    get_pos_begin heart_data scale_type s =
      Ok (heart_data ++ seq (length (pos_store s)) (length added), s') /\
    pos_store s' = pos_store s ++ added /\
    particle_store s' = particle_store s /\
    globals s' = globals s /\
    rand_cursor s' = rand_cursor s + 2 * length added /\
    Forall2 (generated 20 10) added
      (filter (fun xy => inside scale_type xy = true)
         (grid (py_range ((- WIDTH) / 2) (WIDTH / 2) 1)
               (py_range ((- HEIGHT) / 2) (HEIGHT / 2) 2))) /\
    Forall (fun p =>
              heart_equation (Pos.real_x p) (Pos.real_y p) scale_type = Ok true /\
              (-300 <= Pos.real_x p < 300)%Z /\
              (-300 <= Pos.real_y p < 300)%Z /\ Z.even (Pos.real_y p) = true /\
              Pos.color p = get_fade_color (Pos.real_x p) (Pos.real_y p) /\
              (Z.abs (Pos.x p - (center_x + Pos.real_x p)) <= 20)%Z /\
              (Z.abs (Pos.y p - (center_y - Pos.real_y p)) <= 10)%Z) added.
Proof.
  intros Hst. unfold get_pos_begin.
  destruct (scan_points_spec s heart_data 20 10 scale_type
              (py_range ((- WIDTH) / 2) (WIDTH / 2) 1)
              (py_range ((- HEIGHT) / 2) (HEIGHT / 2) 2)
              ltac:(lia) ltac:(lia) Hst s (scan_points_inv_init s heart_data 20 10 scale_type))
    as (res & s' & E & Hps & Hg & _ & _ & _ & added & Hstore & Hrc & Hgen & Hres).
  exists added, s'. rewrite E, Hres.
  do 5 (split; [reflexivity || assumption |]). split; [exact Hgen |].
  apply Forall_forall. intros p Hp.
  destruct (generated_in_grid _ _ _ _ _ _ p Hgen Hp) as (Hin & Hx & Hy & Hc & Hjx & Hjy).
  apply elem_of_py_range in Hx as [Hx _]; [| lia].
  apply elem_of_py_range in Hy as [Hy Hmod]; [| lia].
  change ((- WIDTH) / 2)%Z with (-300)%Z in *. change (WIDTH / 2)%Z with 300%Z in *.
  change ((- HEIGHT) / 2)%Z with (-300)%Z in *. change (HEIGHT / 2)%Z with 300%Z in *.
  split; [rewrite (heart_equation_valid _ _ _ Hst), Hin; reflexivity |].
  split; [exact Hx |]. split; [exact Hy |].
  split; [| auto].
  rewrite Z.even_spec. exists ((Pos.real_y p - -300) / 2 - 150)%Z.
  pose proof (Z.div_mod (Pos.real_y p - -300) 2 ltac:(lia)). lia.
Qed.

Lemma get_pos_begin_points_witness :
  (-2 <= 0 < 2)%Z /\
  exists res s', get_pos_begin [] 0 (example_state 0) = Ok (res, s').
Proof.
  assert (H : (-2 <= 0 < 2)%Z) by lia. split; [exact H |].
  destruct (get_pos_begin_points (example_state 0) [] 0 H) as (added & s' & E & _).
  eexists _, s'. exact E.
Defined.

(** X11: [get_hide_pos] does the same on the full grid (every [real_y] of
    [-300..299]) with a horizontal jitter of at most [5] pixels. *)
Theorem get_hide_pos_points (s : state) (heart_data : list loc) (scale_type : Z) :
  (-2 <= scale_type < 2)%Z ->
  exists added s',
    get_hide_pos heart_data scale_type s =
      Ok (heart_data ++ seq (length (pos_store s)) (length added), s') /\
    pos_store s' = pos_store s ++ added /\
    particle_store s' = particle_store s /\
    globals s' = globals s /\
    rand_cursor s' = rand_cursor s + 2 * length added /\
    Forall2 (generated 5 10) added
      (filter (fun xy => inside scale_type xy = true)
         (grid (py_range ((- WIDTH) / 2) (WIDTH / 2) 1)
               (py_range ((- HEIGHT) / 2) (HEIGHT / 2) 1))) /\
    Forall (fun p =>
              heart_equation (Pos.real_x p) (Pos.real_y p) scale_type = Ok true /\
              (-300 <= Pos.real_x p < 300)%Z /\
              (-300 <= Pos.real_y p < 300)%Z /\
              Pos.color p = get_fade_color (Pos.real_x p) (Pos.real_y p) /\
              (Z.abs (Pos.x p - (center_x + Pos.real_x p)) <= 5)%Z /\
              (Z.abs (Pos.y p - (center_y - Pos.real_y p)) <= 10)%Z) added.
Proof.
  intros Hst. unfold get_hide_pos.
  destruct (scan_points_spec s heart_data 5 10 scale_type
              (py_range ((- WIDTH) / 2) (WIDTH / 2) 1)
              (py_range ((- HEIGHT) / 2) (HEIGHT / 2) 1)
              ltac:(lia) ltac:(lia) Hst s (scan_points_inv_init s heart_data 5 10 scale_type))
    as (res & s' & E & Hps & Hg & _ & _ & _ & added & Hstore & Hrc & Hgen & Hres).
  exists added, s'. rewrite E, Hres.
  do 5 (split; [reflexivity || assumption |]). split; [exact Hgen |].
  apply Forall_forall. intros p Hp.
  destruct (generated_in_grid _ _ _ _ _ _ p Hgen Hp) as (Hin & Hx & Hy & Hc & Hjx & Hjy).
  apply elem_of_py_range in Hx as [Hx _]; [| lia].
  apply elem_of_py_range in Hy as [Hy _]; [| lia].
  change ((- WIDTH) / 2)%Z with (-300)%Z in *. change (WIDTH / 2)%Z with 300%Z in *.
  change ((- HEIGHT) / 2)%Z with (-300)%Z in *. change (HEIGHT / 2)%Z with 300%Z in *.
  split; [rewrite (heart_equation_valid _ _ _ Hst), Hin; reflexivity |]. auto.
Qed.

Lemma get_hide_pos_points_witness :
  (-2 <= 1 < 2)%Z /\
  exists res s', get_hide_pos [] 1 (example_state 0) = Ok (res, s').
Proof.
  assert (H : (-2 <= 1 < 2)%Z) by lia. split; [exact H |].
  destruct (get_hide_pos_points (example_state 0) [] 1 H) as (added & s' & E & _).
  eexists _, s'. exact E.
Defined.

Lemma heart_equation_invalid (x y scale_type : Z) :
  ~ (-2 <= scale_type < 2)%Z -> heart_equation x y scale_type = Raise IndexError.
Proof.
  intros Hst. unfold heart_equation. rewrite py_getitem_scale.
  destruct (Z.eqb_spec scale_type 0); [lia |].
  destruct (Z.eqb_spec scale_type (-2)); [lia |].
  destruct (Z.eqb_spec scale_type 1); [lia |].
  destruct (Z.eqb_spec scale_type (-1)); [lia |]. reflexivity.
Qed.

(** X12: with a selector outside [-2..1] both scans raise [IndexError] at
    the first grid point, before any [Pos] is created. *)
Theorem scans_reject_bad_selector (s : state) (heart_data : list loc) (scale_type : Z) :
  ~ (-2 <= scale_type < 2)%Z ->
  get_pos_begin heart_data scale_type s = Raise IndexError /\
  get_hide_pos heart_data scale_type s = Raise IndexError.
Proof.
  intros Hst.
  assert (Hx : py_range ((- WIDTH) / 2) (WIDTH / 2) 1 = (-300)%Z :: py_range (-299) 300 1)
    by (vm_compute; reflexivity).
  assert (Hy2 : py_range ((- HEIGHT) / 2) (HEIGHT / 2) 2 = (-300)%Z :: py_range (-298) 300 2)
    by (vm_compute; reflexivity).
  assert (Hy1 : py_range ((- HEIGHT) / 2) (HEIGHT / 2) 1 = (-300)%Z :: py_range (-299) 300 1)
    by (vm_compute; reflexivity).
  unfold get_pos_begin, get_hide_pos. rewrite Hx, Hy2, Hy1.
  cbn [for_]. unfold bind, plot, lift.
  rewrite (heart_equation_invalid _ _ _ Hst). split; reflexivity.
Qed.

Lemma scans_reject_bad_selector_witness :
  ~ (-2 <= 2 < 2)%Z /\ get_pos_begin [] 2 (example_state 0) = Raise IndexError.
Proof.
  assert (H : ~ (-2 <= 2 < 2)%Z) by lia. split; [exact H |].
  exact (proj1 (scans_reject_bad_selector (example_state 0) [] 2 H)).
Defined.

(** ** Seeding from the bottom of the cloud *)

Lemma insert_by_key_ascending (k : Z) (p : loc) (l : list (Z * loc)) :
  ascending l -> ascending (insert_by_key k p l).
Proof.
  induction l as [| [k' q] l IH]; intros Hl; simpl.
  - split; [constructor | exact I].
  - destruct Hl as [Hall Hl]. destruct (Z.leb_spec k k') as [Hle | Hgt].
    + split; [| split; assumption].
      constructor; [exact Hle |].
      eapply Forall_impl; [exact Hall |]. cbn. intros b Hb. lia.
    + split; [| apply IH, Hl].
      rewrite insert_by_key_perm. constructor; [cbn; lia | exact Hall].
Qed.

Lemma stable_sort_ascending (l : list (Z * loc)) : ascending (stable_sort l).
Proof.
  induction l as [| [k p] l IH]; simpl; [exact I |].
  apply insert_by_key_ascending, IH.
Qed.

Lemma ascending_app (l1 l2 : list (Z * loc)) (a b : Z * loc) :
  ascending (l1 ++ l2) -> a ∈ l1 -> b ∈ l2 -> (a.1 <= b.1)%Z.
Proof.
  induction l1 as [| c l1 IH]; intros Hs Ha Hb; [inversion Ha |].
  destruct Hs as [Hall Hs]. apply elem_of_cons in Ha as [-> | Ha].
  - rewrite Forall_forall in Hall. apply Hall. apply elem_of_app. right. exact Hb.
  - apply IH; assumption.
Qed.

(** [sorted(...)] reads every key and returns the references in ascending
    order of [real_y]. *)
Lemma sorted_by_real_y_keys (s : state) (heart_data : list loc) :
  valid_refs (pos_store s) heart_data ->
  sorted_by_real_y heart_data s =
    Ok ((stable_sort ((fun h => (real_y_of s h, h)) <$> heart_data)).*2, s).
Proof.
  intros Hvalid. unfold sorted_by_real_y.
  assert (Hloop : hoare (fun st => st = s)
            (for_ heart_data [] (fun p acc =>
               o <- get_Pos p ;; ret (acc ++ [(Pos.real_y o, p)])))
            (fun acc st => st = s /\ acc = (fun h => (real_y_of s h, h)) <$> heart_data)).
  { eapply hoare_conseq.
    - apply (hoare_for (fun done (acc : list (Z * loc)) st =>
               st = s /\ acc = (fun h => (real_y_of s h, h)) <$> done)).
      intros done p rest acc E st [-> Hacc].
      assert (Hp : p < length (pos_store s)).
      { apply Hvalid. rewrite E. apply elem_of_app. right. left. }
      destruct (lookup_lt_is_Some_2 _ _ Hp) as [o Ho].
      eexists _, _. split.
      { rewrite (bind_Ok _ _ _ _ _ (get_Pos_Ok _ _ _ Ho)). reflexivity. }
      split; [reflexivity |]. rewrite fmap_app, Hacc. cbn.
      assert (Ekey : real_y_of s p = Pos.real_y o)
        by (unfold real_y_of; rewrite Ho; reflexivity).
      rewrite Ekey. reflexivity.
    - intros st ->. split; reflexivity.
    - auto. }
  destruct (Hloop s eq_refl) as (keyed & s' & E & -> & ->).
  rewrite (bind_Ok _ _ _ _ _ E). reflexivity.
Qed.

Lemma elem_of_keyed_sort (s : state) (heart_data : list loc) (a : Z * loc) :
  a ∈ stable_sort ((fun h => (real_y_of s h, h)) <$> heart_data) ->
  a.1 = real_y_of s a.2 /\ a.2 ∈ heart_data.
Proof.
  rewrite stable_sort_perm, list_elem_of_fmap. intros (h & -> & Hh). auto.
Qed.

Lemma delete_NoDup_notin {A : Type} (l : list A) (i : nat) (a : A) :
  NoDup l -> l !! i = Some a -> NoDup (delete i l) /\ a ∉ delete i l.
Proof.
  intros Hnd Ha. rewrite (delete_Permutation _ _ _ Ha) in Hnd.
  apply NoDup_cons in Hnd as [Hnot Hnd]. auto.
Qed.

Lemma sample_from_distinct {A : Type} (k : nat) :
  forall (population picked : list A) (s s' : state),
    sample_from population k s = Ok (picked, s') ->
    picked ⊆ population /\ (NoDup population -> NoDup picked).
Proof.
  induction k as [| k IH]; intros population picked s s' E.
  - simpl in E. injection E as <- _. split; [| constructor].
    intros x Hx. inversion Hx.
  - simpl in E. unfold bind at 1, draw_int in E.
    destruct (population !! _) as [a |] eqn:Ha; [| discriminate].
    unfold bind in E.
    destruct (sample_from _ k _) as [[rest s1] | e] eqn:Erest; [| discriminate].
    injection E as <- _.
    destruct (IH _ _ _ _ Erest) as [Hsub Hnd]. split.
    + intros x Hx. apply elem_of_cons in Hx as [-> | Hx].
      * apply list_elem_of_lookup. eauto.
      * apply Hsub in Hx. eapply sublist_subseteq; [apply sublist_delete | exact Hx].
    + intros Hpop. destruct (delete_NoDup_notin _ _ _ Hpop Ha) as [Hnd' Hnot].
      constructor; [| exact (Hnd Hnd')]. intros Hin. apply Hnot, Hsub, Hin.
Qed.

Lemma sample_Ok_inv {A : Type} (population picked : list A) (k : nat) (s s' : state) :
  sample population k s = Ok (picked, s') ->
  sample_from population k s = Ok (picked, s').
Proof.
  unfold sample. destruct (length population <? k); [discriminate | auto].
Qed.

(** X13: [generate_falling_particles] draws from the bottom of the cloud.
    The cloud splits into [bottom], its [min 5000 (length heart_data)]
    points of least [real_y], and the [rest], no point of which lies below
    a point of [bottom]; the [count] points picked all belong to [bottom],
    sit at distinct positions of it (so they are distinct when the cloud
    holds no reference twice), and the i-th particle returned copies the
    i-th picked point, at rest and inactive; its start time is the clock
    reading taken when it is built (the i-th reading from the call on)
    plus the delay of [0, MAX_DELAY] drawn for it, the draws of the sample
    coming first. *)
Theorem generate_falling_particles_from_bottom
    (s : state) (heart_data : list loc) (count : nat) :
  valid_refs (pos_store s) heart_data ->
  count <= length heart_data -> count <= 5000 ->
  exists (bottom rest picked : list loc) (added : list Particle.t) (s' : state),
    generate_falling_particles heart_data count s =
      Ok (seq (length (particle_store s)) count, s') /\
    heart_data ≡ₚ bottom ++ rest /\
    length bottom = Nat.min 5000 (length heart_data) /\
    (forall b r, b ∈ bottom -> r ∈ rest -> (real_y_of s b <= real_y_of s r)%Z) /\
    length picked = count /\
    picked ⊆ bottom /\
    (NoDup heart_data -> NoDup picked) /\
    particle_store s' = particle_store s ++ added /\
    length added = count /\
    pos_store s' = pos_store s /\
    forall i h, picked !! i = Some h ->
      exists o,
        pos_store s !! h = Some o /\
        (0 <= delay_of MAX_DELAY (rand_units s (rand_cursor s + count + i))
           <= MAX_DELAY)%R /\
        added !! i =
          Some (Particle.mk (Pos.x o) (IZR (Pos.y o)) (Pos.color o)
                  (Pos.real_x o) (Pos.real_y o)
                  (clock s (clock_cursor s + i) +
                   delay_of MAX_DELAY (rand_units s (rand_cursor s + count + i)))
                  0 false).
Proof.
  intros Hvalid Hcount H5000. unfold generate_falling_particles.
  rewrite (bind_Ok _ _ _ _ _ (sorted_by_real_y_keys s heart_data Hvalid)).
  set (keyed := stable_sort ((fun h => (real_y_of s h, h)) <$> heart_data)).
  assert (Hperm : keyed.*2 ≡ₚ heart_data).
  { unfold keyed. rewrite stable_sort_perm, <- list_fmap_compose.
    clear. induction heart_data as [| h l IH]; [reflexivity |].
    cbn. constructor. exact IH. }
  assert (Hbottom : count <= length (take 5000 keyed.*2)).
  { rewrite length_take, (Permutation_length Hperm). lia. }
  destruct (sample_spec (take 5000 keyed.*2) count s Hbottom)
    as (picked & Esample & Hlen & Hsub).
  rewrite (bind_Ok _ _ _ _ _ Esample).
  set (s1 := with_rand_cursor (rand_cursor s + count) s).
  assert (Hpicked : forall h, h ∈ picked -> h ∈ heart_data).
  { intros h Hh. rewrite <- Hperm. eapply subseteq_take. apply Hsub, Hh. }
  assert (Hpv : valid_refs (pos_store s1) picked).
  { intros h Hh. apply Hvalid, Hpicked, Hh. }
  assert (Hloop : hoare (spawn_inv MAX_DELAY s1 [] [] []) (for_ picked [] (spawn MAX_DELAY))
            (fun acc => spawn_inv MAX_DELAY s1 [] picked acc)).
  { apply (hoare_for (spawn_inv MAX_DELAY s1 [])).
    intros done a rest acc E.
    apply (spawn_inv_step MAX_DELAY s1 [] picked done rest a acc Hpv E). }
  destruct (Hloop s1 (spawn_inv_init MAX_DELAY s1 []))
    as (res & s2 & E2 & (Hpos2 & _ & _ & _ & _ & Hres & added & Hst2 & Hlen2 & Hper2)).
  exists (take 5000 keyed.*2), (drop 5000 keyed.*2), picked, added, s2.
  split; [rewrite E2, Hres, Hlen; reflexivity |].
  split; [rewrite take_drop; symmetry; exact Hperm |].
  split; [rewrite length_take, (Permutation_length Hperm); lia |].
  split.
  { intros b r Hb Hr. rewrite <- fmap_take in Hb. rewrite <- fmap_drop in Hr.
    apply list_elem_of_fmap in Hb as (kb & -> & Hkb).
    apply list_elem_of_fmap in Hr as (kr & -> & Hkr).
    assert (Hasc : ascending (take 5000 keyed ++ drop 5000 keyed)).
    { rewrite take_drop. apply stable_sort_ascending. }
    pose proof (ascending_app _ _ _ _ Hasc Hkb Hkr) as Hle.
    assert (Hkb' : kb ∈ keyed) by (eapply subseteq_take; exact Hkb).
    assert (Hkr' : kr ∈ keyed) by (eapply subseteq_drop; exact Hkr).
    destruct (elem_of_keyed_sort _ _ _ Hkb') as [<- _].
    destruct (elem_of_keyed_sort _ _ _ Hkr') as [<- _]. exact Hle. }
  split; [exact Hlen |]. split; [exact Hsub |].
  split.
  { intros Hnd. apply sample_Ok_inv in Esample.
    apply (sample_from_distinct _ _ _ _ _ Esample).
    eapply sublist_NoDup; [| apply sublist_take]. rewrite Hperm. exact Hnd. }
  split; [exact Hst2 |]. split; [rewrite Hlen2; exact Hlen |].
  split; [exact Hpos2 |].
  intros i h Hh. destruct (Hper2 i h Hh) as (o & Ho & Hadd).
  exists o. split; [exact Ho |].
  split; [apply delay_of_bounds; unfold MAX_DELAY; lra |].
  rewrite Hadd. reflexivity.
Qed.

Lemma generate_falling_particles_from_bottom_witness :
  (valid_refs (pos_store (example_state 0)) [0; 1] /\ 2 <= length [0; 1] /\ 2 <= 5000) /\
  exists s',
    generate_falling_particles [0; 1] 2 (example_state 0) = Ok ([1; 2], s').
Proof.
  assert (Hv : valid_refs (pos_store (example_state 0)) [0; 1]).
  { intros r Hr. apply elem_of_cons in Hr as [-> | Hr]; [simpl; lia |].
    apply list_elem_of_singleton in Hr. subst r. simpl. lia. }
  assert (H2 : 2 <= length [0; 1]) by (simpl; lia).
  assert (H5 : 2 <= 5000) by lia.
  split; [auto |].
  destruct (generate_falling_particles_from_bottom (example_state 0) [0; 1] 2 Hv H2 H5)
    as (bottom & rest & picked & added & s' & E & _).
  exists s'. exact E.
Defined.

Lemma bottom_slice_length (s : state) (heart_data : list loc) :
  length (take 5000 (stable_sort ((fun h => (real_y_of s h, h)) <$> heart_data)).*2) =
    Nat.min 5000 (length heart_data).
Proof.
  rewrite length_take, length_fmap, (Permutation_length (stable_sort_perm _)), length_fmap.
  reflexivity.
Qed.

Lemma sample_short {A : Type} (population : list A) (k : nat) (s : state) :
  length population < k -> sample population k s = Raise ValueError.
Proof.
  intros H. unfold sample.
  destruct (Nat.ltb_spec (length population) k); [reflexivity | lia].
Qed.

(** X14: asking [generate_falling_particles] for more particles than the
    bottom slice holds ([min 5000 (length heart_data)]) raises
    [ValueError]: the sort succeeds and [random.sample] refuses. *)
Theorem generate_falling_particles_too_many
    (s : state) (heart_data : list loc) (count : nat) :
  valid_refs (pos_store s) heart_data ->
  Nat.min 5000 (length heart_data) < count ->
  generate_falling_particles heart_data count s = Raise ValueError.
Proof.
  intros Hvalid Hmany. unfold generate_falling_particles.
  rewrite (bind_Ok _ _ _ _ _ (sorted_by_real_y_keys s heart_data Hvalid)).
  unfold bind. rewrite sample_short; [reflexivity |].
  rewrite bottom_slice_length. exact Hmany.
Qed.

Lemma generate_falling_particles_too_many_witness :
  (valid_refs (pos_store (example_state 0)) [1] /\ Nat.min 5000 (length [1]) < 5) /\
  generate_falling_particles [1] 5 (example_state 0) = Raise ValueError.
Proof.
  assert (Hv : valid_refs (pos_store (example_state 0)) [1])
    by (apply valid_refs_singleton; simpl; lia).
  assert (Hm : Nat.min 5000 (length [1]) < 5) by (simpl; lia).
  split; [auto |].
  exact (generate_falling_particles_too_many (example_state 0) [1] 5 Hv Hm).
Defined.

(** ** The update pass, particle by particle *)

Lemma example_pool_ready (now : R) :
  valid_refs (particle_store (example_pool now)) [0; 1] /\
  NoDup [0; 1] /\
  valid_refs (pos_store (example_pool now)) (heart_data_root (example_pool now)) /\
  heart_data_root (example_pool now) <> [].
Proof.
  split.
  { intros r Hr. apply elem_of_cons in Hr as [-> | Hr]; [simpl; lia |].
    apply list_elem_of_singleton in Hr. subst r. simpl. lia. }
  split.
  { apply NoDup_cons. split; [| apply NoDup_singleton].
    intros H. apply list_elem_of_singleton in H. discriminate. }
  split; [apply valid_refs_singleton; simpl; lia | discriminate].
Qed.

(** X15: a particle whose delay is not over is left alone by
    [update_falling_particles]: it stays in the pool and its record is
    unchanged (not activated, not moved). *)
Theorem pending_particle_untouched
    (s : state) (particles : list loc) (l : loc) (o : Particle.t) :
  valid_refs (particle_store s) particles ->
  NoDup particles ->
  valid_refs (pos_store s) (heart_data_root s) ->
  heart_data_root s <> [] ->
  l ∈ particles ->
  particle_store s !! l = Some o ->
  Particle.active o = false ->
  (clock s (clock_cursor s) < Particle.start_time o)%R ->
  exists res s',
    update_falling_particles particles s = Ok (res, s') /\
    l ∈ res /\
    particle_store s' !! l = Some o.
Proof.
  intros Hvalid Hnd Hrv Hroot Hin Ho Hact Hwait.
  destruct (update_falling_particles_spec s particles Hvalid Hnd Hrv Hroot)
    as (kept & news & s' & E & _ & _ & Hper & _).
  destruct (Hper l o Hin Ho) as [Hkept Hnew].
  assert (Hns : ~ starts (clock s (clock_cursor s)) o).
  { intros [Ha | Hge]; [congruence | lra]. }
  eexists _, s'. split; [exact E |]. split.
  - apply elem_of_app. left. apply Hkept. intros [Hs _]. exact (Hns Hs).
  - rewrite Hnew. destruct (starts_dec _ o) as [Hs | _]; [contradiction | reflexivity].
Qed.

Lemma pending_particle_untouched_witness :
  (0 ∈ [0; 1] /\
   particle_store (example_pool 1) !! 0 = Some (Particle.mk 5 100 PINK 0 0 7 0 false) /\
   (clock (example_pool 1) (clock_cursor (example_pool 1)) < 7)%R) /\
  exists res s',
    update_falling_particles [0; 1] (example_pool 1) = Ok (res, s') /\
    0 ∈ res.
Proof.
  destruct (example_pool_ready 1) as (Hv & Hnd & Hrv & Hroot).
  assert (Hin : 0 ∈ [0; 1]) by left.
  assert (Ho : particle_store (example_pool 1) !! 0 =
               Some (Particle.mk 5 100 PINK 0 0 7 0 false)) by reflexivity.
  assert (Hw : (clock (example_pool 1) (clock_cursor (example_pool 1)) < 7)%R)
    by (simpl; lra).
  split; [auto |].
  destruct (pending_particle_untouched (example_pool 1) [0; 1] 0 _
              Hv Hnd Hrv Hroot Hin Ho eq_refl Hw) as (res & s' & E & Hres & _).
  exists res, s'. auto.
Defined.

(** X16: a particle that is falling, or whose delay is over, makes one
    step of free fall: its velocity grows by [GRAVITY], its [y] by the new
    velocity, and it is active afterwards; it stays in the pool exactly
    when its new [y] is not beyond [HEIGHT]. *)
Theorem started_particle_falls
    (s : state) (particles : list loc) (l : loc) (o : Particle.t) :
  valid_refs (particle_store s) particles ->
  NoDup particles ->
  valid_refs (pos_store s) (heart_data_root s) ->
  heart_data_root s <> [] ->
  l ∈ particles ->
  particle_store s !! l = Some o ->
  Particle.active o = true \/
    (clock s (clock_cursor s) >= Particle.start_time o)%R ->
  exists res s' o',
    update_falling_particles particles s = Ok (res, s') /\
    particle_store s' !! l = Some o' /\
    Particle.active o' = true /\
    Particle.velocity o' = (Particle.velocity o + GRAVITY)%R /\
    Particle.y o' = (Particle.y o + Particle.velocity o')%R /\
    Particle.x o' = Particle.x o /\
    Particle.color o' = Particle.color o /\
    Particle.start_time o' = Particle.start_time o /\
    (l ∈ res <-> (Particle.y o' <= IZR HEIGHT)%R).
Proof.
  intros Hvalid Hnd Hrv Hroot Hin Ho Hstarts.
  destruct (update_falling_particles_spec s particles Hvalid Hnd Hrv Hroot)
    as (kept & news & s' & E & _ & _ & Hper & _).
  destruct (Hper l o Hin Ho) as [Hkept Hnew].
  destruct (starts_dec (clock s (clock_cursor s)) o) as [Hs | Hns]; [| contradiction].
  eexists _, s', (advance o). split; [exact E |]. split; [exact Hnew |].
  do 6 (split; [reflexivity |]).
  rewrite elem_of_app, Hkept. unfold falls_off, off_screen. split.
  - intros [Hk | Hfresh].
    + destruct (Rle_dec (Particle.y (advance o)) (IZR HEIGHT)) as [Hle | Hgt]; [exact Hle |].
      exfalso. apply Hk. split; [exact Hs | lra].
    + exfalso. apply elem_of_seq in Hfresh.
      pose proof (Hvalid l Hin). lia.
  - intros Hle. left. intros [_ Hoff]. lra.
Qed.

Lemma started_particle_falls_witness :
  (1 ∈ [0; 1] /\
   particle_store (example_pool 1) !! 1 = Some (Particle.mk 6 100 PINK 0 0 0 0 false) /\
   (clock (example_pool 1) (clock_cursor (example_pool 1)) >= 0)%R) /\
  exists res s' o',
    update_falling_particles [0; 1] (example_pool 1) = Ok (res, s') /\
    particle_store s' !! 1 = Some o' /\
    Particle.active o' = true.
Proof.
  destruct (example_pool_ready 1) as (Hv & Hnd & Hrv & Hroot).
  assert (Hin : 1 ∈ [0; 1]) by (right; left).
  assert (Ho : particle_store (example_pool 1) !! 1 =
               Some (Particle.mk 6 100 PINK 0 0 0 0 false)) by reflexivity.
  assert (Hw : (clock (example_pool 1) (clock_cursor (example_pool 1)) >= 0)%R)
    by (simpl; lra).
  split; [auto |].
  destruct (started_particle_falls (example_pool 1) [0; 1] 1 _
              Hv Hnd Hrv Hroot Hin Ho (or_intror Hw))
    as (res & s' & o' & E & Hnew & Hact & _).
  exists res, s', o'. auto.
Defined.

(** X17: after an update pass no active particle of the pool is below the
    bottom edge: every particle of the returned list that is active has
    [y <= HEIGHT]. *)
Theorem survivors_on_screen (s : state) (particles : list loc) :
  valid_refs (particle_store s) particles ->
  NoDup particles ->
  valid_refs (pos_store s) (heart_data_root s) ->
  heart_data_root s <> [] ->
  exists res s',
    update_falling_particles particles s = Ok (res, s') /\
    valid_refs (particle_store s') res /\
    forall l o', l ∈ res -> particle_store s' !! l = Some o' ->
      Particle.active o' = true -> (Particle.y o' <= IZR HEIGHT)%R.
Proof.
  intros Hvalid Hnd Hrv Hroot.
  destruct (update_falling_particles_spec s particles Hvalid Hnd Hrv Hroot)
    as (kept & news & s' & E & Hsub & _ & Hper & _ & Hlen & Hnews & _).
  eexists _, s'. split; [exact E |]. split.
  { intros l Hl. rewrite Hlen. apply elem_of_app in Hl as [Hl | Hl].
    - pose proof (Hvalid l (elem_of_sublist _ _ _ Hl Hsub)). lia.
    - apply elem_of_seq in Hl. lia. }
  intros l o' Hl Ho' Hact. apply elem_of_app in Hl as [Hl | Hl].
  - assert (Hin : l ∈ particles) by (eapply elem_of_sublist; eauto).
    destruct (lookup_lt_is_Some_2 _ _ (Hvalid l Hin)) as [o Ho].
    destruct (Hper l o Hin Ho) as [Hkept Hnew].
    rewrite Hnew in Ho'. injection Ho' as <-.
    destruct (starts_dec (clock s (clock_cursor s)) o) as [Hs | Hns].
    + destruct (Rle_dec (Particle.y (advance o)) (IZR HEIGHT)) as [Hle | Hgt]; [exact Hle |].
      exfalso. apply Hkept in Hl. apply Hl. split; [exact Hs |].
      unfold off_screen. lra.
    + exfalso. apply Hns. left. exact Hact.
  - apply elem_of_seq in Hl.
    destruct (lookup_lt_is_Some_2 news (l - length (particle_store s)) ltac:(lia)) as [q Hq].
    destruct (Hnews _ q Hq) as (_ & o & j & u & _ & Hfresh).
    replace (length (particle_store s) + (l - length (particle_store s))) with l in Hfresh
      by lia.
    rewrite Hfresh in Ho'. injection Ho' as <-. discriminate.
Qed.

Lemma survivors_on_screen_witness :
  (valid_refs (particle_store (example_pool 1)) [0; 1] /\
   NoDup [0; 1] /\
   valid_refs (pos_store (example_pool 1)) (heart_data_root (example_pool 1)) /\
   heart_data_root (example_pool 1) <> []) /\
  exists res s', update_falling_particles [0; 1] (example_pool 1) = Ok (res, s').
Proof.
  pose proof (example_pool_ready 1) as Hready.
  split; [exact Hready |].
  destruct Hready as (Hv & Hnd & Hrv & Hroot).
  destruct (survivors_on_screen (example_pool 1) [0; 1] Hv Hnd Hrv Hroot)
    as (res & s' & E & _).
  exists res, s'. exact E.
Defined.

(** ** [heart_beat]: how far a point moves *)

Lemma scale_factor_near_one (t : R) : (Rabs (scale_factor t - 1) <= 0.06)%R.
Proof.
  unfold scale_factor. pose proof (SIN_bound (t * 2)) as [Hlo Hhi].
  set (v := sin (t * 2)) in *.
  destruct (Rlt_dec 0 v) as [Hp | Hn].
  - assert (Hv2 : (0 <= v * v <= 1)%R) by nra.
    assert (Hv3 : (0 <= v * (v * v) <= 1)%R) by nra.
    replace (v ^ 3)%R with (v * (v * v))%R by ring.
    apply Rabs_le. lra.
  - apply Rabs_le. lra.
Qed.

(** [int] moves a float by less than one. *)
Lemma int_of_R_error (r : R) : (Rabs (IZR (int_of_R r) - r) < 1)%R.
Proof.
  unfold int_of_R. destruct (Rle_dec 0 r) as [H | H].
  - pose proof (Int_part_bounds r). apply Rabs_def1; lra.
  - pose proof (Int_part_bounds (- r)). rewrite opp_IZR. apply Rabs_def1; lra.
Qed.

Lemma deformed_offset_close (sf : R) (root_offset j : Z) :
  (Rabs (sf - 1) <= 0.06)%R -> (-3 <= j <= 3)%Z ->
  (Rabs (IZR (int_of_R (IZR root_offset * sf) + j) - IZR root_offset)
     < 0.06 * Rabs (IZR root_offset) + 4)%R.
Proof.
  intros Hsf Hj. rewrite plus_IZR.
  set (r := IZR root_offset).
  pose proof (int_of_R_error (r * sf)) as Herr.
  assert (Hjr : (Rabs (IZR j) <= 3)%R).
  { apply Rabs_le. split; [apply (IZR_le (-3)) | apply (IZR_le j 3)]; lia. }
  assert (Hscale : (Rabs (r * sf - r) <= 0.06 * Rabs r)%R).
  { replace (r * sf - r)%R with (r * (sf - 1))%R by ring.
    rewrite Rabs_mult. pose proof (Rabs_pos r). nra. }
  replace (IZR (int_of_R (r * sf)) + IZR j - r)%R
    with ((IZR (int_of_R (r * sf)) - r * sf) + (r * sf - r) + IZR j)%R by ring.
  eapply Rle_lt_trans; [apply Rabs_triang |].
  eapply Rle_lt_trans; [apply Rplus_le_compat_r, Rabs_triang |]. lra.
Qed.

(** X18: one heartbeat never takes a working point far from its root
    point: on each axis the new logical offset differs from the root
    offset by less than 6 percent of the root offset plus [4] (one for the
    truncation, three for the jitter), whatever the clock reads and
    whatever the working point held before. *)
Theorem heart_beat_displacement (s : state) (working root : list loc) (frame : R) :
  valid_refs (pos_store s) working ->
  valid_refs (pos_store s) root ->
  length working <= length root ->
  separated working root ->
  exists s',
    heart_beat working root frame s = Ok (tt, s') /\
    forall i h o, working !! i = Some h -> root !! i = Some o ->
      exists po p',
        pos_store s !! o = Some po /\
        pos_store s' !! h = Some p' /\
        (Rabs (IZR (Pos.real_x p') - IZR (Pos.real_x po))
           < 0.06 * Rabs (IZR (Pos.real_x po)) + 4)%R /\
        (Rabs (IZR (Pos.real_y p') - IZR (Pos.real_y po))
           < 0.06 * Rabs (IZR (Pos.real_y po)) + 4)%R.
Proof.
  intros Hw Hr Hlen Hsep.
  destruct (heart_beat_spec s working root frame Hw Hr Hlen)
    as (s' & E & _ & _ & _ & _ & _ & _ & _ & _ & _ & _ & Hdef).
  state_simpl.
  exists s'. split; [exact E |]. intros i h o Hh Ho.
  assert (Hi : i < length working) by (eapply lookup_lt_Some; eauto).
  destruct (Hdef Hsep i h o Hi Hh Ho) as (ph & po & Hph & Hpo & Hp').
  eexists po, _. split; [exact Hpo |]. split; [exact Hp' |].
  cbn [deformed Pos.real_x Pos.real_y].
  split; apply deformed_offset_close;
    solve [apply scale_factor_near_one | apply jitter3_bounds].
Qed.

Lemma heart_beat_displacement_witness :
  (valid_refs (pos_store (example_state 0)) [1] /\
   valid_refs (pos_store (example_state 0)) [0] /\
   length [1] <= length [0] /\
   separated [1] [0]) /\
  exists s', heart_beat [1] [0] 0 (example_state 0) = Ok (tt, s').
Proof.
  assert (Hw : valid_refs (pos_store (example_state 0)) [1])
    by (apply valid_refs_singleton; simpl; lia).
  assert (Hr : valid_refs (pos_store (example_state 0)) [0])
    by (apply valid_refs_singleton; simpl; lia).
  assert (Hlen : length [1] <= length [0]) by (simpl; lia).
  assert (Hsep : separated [1] [0]) by (apply separated_singleton; lia).
  split; [auto |].
  destruct (heart_beat_displacement (example_state 0) [1] [0] 0 Hw Hr Hlen Hsep)
    as (s' & E & _).
  exists s'. exact E.
Defined.

(** ** [heart_beat] on a root list that is too short *)

Lemma for_app {A B : Type} (l1 l2 : list A) (body : A -> B -> M B) :
  forall (acc : B) (s : state),
    for_ (l1 ++ l2) acc body s = bind (for_ l1 acc body) (fun acc' => for_ l2 acc' body) s.
Proof.
  induction l1 as [| a l1 IH]; intros acc s; [reflexivity |].
  simpl. unfold bind. destruct (body a acc s) as [[acc' s'] | e] eqn:Eb; [| reflexivity].
  rewrite IH. reflexivity.
Qed.

Lemma for_ext {A B : Type} (l : list A) (body body' : A -> B -> M B) :
  (forall a acc s, a ∈ l -> body a acc s = body' a acc s) ->
  forall (acc : B) (s : state), for_ l acc body s = for_ l acc body' s.
Proof.
  induction l as [| a l IH]; intros Hext acc s; [reflexivity |].
  simpl. unfold bind. rewrite Hext by left.
  destruct (body' a acc s) as [[acc' s'] | e]; [| reflexivity].
  apply IH. intros b acc0 s0 Hb. apply Hext. right. exact Hb.
Qed.

Lemma heart_beat_one_take (working root : list loc) (sf : R) (n i : nat) (s : state) :
  i < n ->
  heart_beat_one working root sf i tt s = heart_beat_one (take n working) root sf i tt s.
Proof.
  intros Hi. unfold heart_beat_one, set_item, item, index.
  rewrite (lookup_take_lt working n i Hi). reflexivity.
Qed.

(** X19: when the root list is shorter than the working list, [heart_beat]
    raises [IndexError]: it deforms the points that have a root point and
    fails on the first index without one. *)
Theorem heart_beat_short_root (s : state) (working root : list loc) (frame : R) :
  valid_refs (pos_store s) working ->
  valid_refs (pos_store s) root ->
  length root < length working ->
  heart_beat working root frame s = Raise IndexError.
Proof.
  intros Hw Hr Hshort. unfold heart_beat.
  rewrite (bind_Ok _ _ _ _ _ (time_time_Ok s)).
  set (sf := scale_factor (clock s (clock_cursor s))).
  set (n := length root).
  assert (Hsplit : seq 0 (length working) = seq 0 n ++ n :: seq (S n) (length working - S n)).
  { replace (length working) with (n + S (length working - S n)) at 1 by (unfold n; lia).
    rewrite seq_app. reflexivity. }
  rewrite Hsplit, for_app.
  assert (Hw' : valid_refs (pos_store s) (take n working)).
  { intros r Hin. apply Hw. eapply subseteq_take. exact Hin. }
  assert (Hlen : length (take n working) <= length root).
  { rewrite length_take. unfold n. lia. }
  destruct (heart_beat_spec s (take n working) root frame Hw' Hr Hlen)
    as (s' & E & _).
  unfold heart_beat in E. rewrite (bind_Ok _ _ _ _ _ (time_time_Ok s)) in E.
  replace (length (take n working)) with n in E by (rewrite length_take; unfold n; lia).
  fold sf in E.
  rewrite <- (for_ext (seq 0 n) (heart_beat_one working root sf)) in E.
  2: { intros i [] st Hi. apply elem_of_seq in Hi. apply heart_beat_one_take. lia. }
  unfold bind at 1. rewrite E. simpl.
  unfold bind at 1, heart_beat_one, item, index.
  unfold bind at 1. unfold bind at 1.
  rewrite (lookup_ge_None_2 root n) by (unfold n; lia). reflexivity.
Qed.

Lemma heart_beat_short_root_witness :
  (valid_refs (pos_store (example_state 0)) [1; 0] /\
   valid_refs (pos_store (example_state 0)) [0] /\
   length [0] < length [1; 0]) /\
  heart_beat [1; 0] [0] 0 (example_state 0) = Raise IndexError.
Proof.
  assert (Hw : valid_refs (pos_store (example_state 0)) [1; 0]).
  { intros r Hr. apply elem_of_cons in Hr as [-> | Hr]; [simpl; lia |].
    apply list_elem_of_singleton in Hr. subst r. simpl. lia. }
  assert (Hr : valid_refs (pos_store (example_state 0)) [0])
    by (apply valid_refs_singleton; simpl; lia).
  assert (Hlen : length [0] < length [1; 0]) by (simpl; lia).
  split; [auto |].
  exact (heart_beat_short_root (example_state 0) [1; 0] [0] 0 Hw Hr Hlen).
Defined.

(** ** The top-up loop *)

(** X20: when the pool is short and the working cloud holds fewer than [5]
    points, the top-up loop raises [ValueError] at its first batch. *)
Theorem top_up_small_cloud (s : state) :
  valid_refs (pos_store s) (heart_data s) ->
  length (falling_particles s) < PARTICLE_COUNT ->
  length (heart_data s) < 5 ->
  top_up s = Raise ValueError.
Proof.
  intros Hvalid Hshort Hsmall. unfold top_up.
  rewrite (bind_Ok _ _ _ _ _ (gets_Ok _ _)).
  destruct (PARTICLE_COUNT - length (falling_particles s)) as [| turns] eqn:Et; [lia |].
  cbn [top_up_loop]. rewrite (bind_Ok _ _ _ _ _ (gets_Ok _ _)).
  destruct (Nat.ltb_spec (length (falling_particles s)) PARTICLE_COUNT) as [_ | Hge]; [| lia].
  rewrite (bind_Ok _ _ _ _ _ (gets_Ok _ _)).
  unfold bind at 1, generate_falling_particles.
  rewrite (bind_Ok _ _ _ _ _ (sorted_by_real_y_keys s (heart_data s) Hvalid)).
  unfold bind at 1. rewrite sample_short; [reflexivity |].
  rewrite bottom_slice_length. lia.
Qed.

Lemma top_up_small_cloud_witness :
  (valid_refs (pos_store (example_state 0)) (heart_data (example_state 0)) /\
   length (falling_particles (example_state 0)) < PARTICLE_COUNT /\
   length (heart_data (example_state 0)) < 5) /\
  top_up (example_state 0) = Raise ValueError.
Proof.
  assert (Hv : valid_refs (pos_store (example_state 0)) (heart_data (example_state 0)))
    by (apply valid_refs_singleton; simpl; lia).
  assert (Hs : length (falling_particles (example_state 0)) < PARTICLE_COUNT)
    by (unfold PARTICLE_COUNT; simpl; lia).
  assert (Hc : length (heart_data (example_state 0)) < 5) by (simpl; lia).
  split; [auto |].
  exact (top_up_small_cloud (example_state 0) Hv Hs Hc).
Defined.

(** X21: on a working cloud of at least [5] points the top-up loop ends,
    having appended whole batches of [5] fresh particles: a full pool is
    left as it is (nothing at all changes), and a short pool ends with at
    least [PARTICLE_COUNT] and fewer than [PARTICLE_COUNT + 5] particles,
    so it can overshoot the target by up to [4]. *)
Theorem top_up_batches (s : state) :
  valid_refs (pos_store s) (heart_data s) ->
  5 <= length (heart_data s) ->
  exists k s',
    top_up s = Ok (tt, s') /\
    falling_particles s' =
      falling_particles s ++ seq (length (particle_store s)) (5 * k) /\
    length (particle_store s') = length (particle_store s) + 5 * k /\
    PARTICLE_COUNT <= length (falling_particles s') /\
    (length (falling_particles s) < PARTICLE_COUNT ->
     0 < k /\ length (falling_particles s') < PARTICLE_COUNT + 5) /\
    (PARTICLE_COUNT <= length (falling_particles s) -> k = 0 /\ s' = s).
Proof.
  intros Hvalid H5. unfold top_up. rewrite (bind_Ok _ _ _ _ _ (gets_Ok _ _)).
  destruct (le_lt_dec PARTICLE_COUNT (length (falling_particles s))) as [Hfull | Hshort].
  - replace (PARTICLE_COUNT - length (falling_particles s)) with 0 by lia.
    exists 0, s. simpl. rewrite app_nil_r.
    repeat split; auto; lia.
  - destruct (top_up_loop_spec (PARTICLE_COUNT - length (falling_particles s)) s
                Hvalid H5 ltac:(lia))
      as (k & added & s' & E & Hge & Hexact & _ & Hfp & Hst & Hlen & _).
    exists k, s'. split; [exact E |]. split; [exact Hfp |].
    split; [rewrite Hst, length_app, Hlen; reflexivity |].
    split; [exact Hge |]. split; [| lia].
    intros _. assert (Hk : 0 < k).
    { destruct k; [| lia]. rewrite Hfp in Hge. simpl in Hge.
      rewrite app_nil_r in Hge. lia. }
    split; [exact Hk |]. destruct Hexact as [-> | Hlt]; [lia | exact Hlt].
Qed.

Lemma top_up_batches_witness :
  (valid_refs (pos_store (with_heart_data [0; 0; 0; 0; 0] (example_state 0)))
     (heart_data (with_heart_data [0; 0; 0; 0; 0] (example_state 0))) /\
   5 <= length (heart_data (with_heart_data [0; 0; 0; 0; 0] (example_state 0)))) /\
  exists k s',
    top_up (with_heart_data [0; 0; 0; 0; 0] (example_state 0)) = Ok (tt, s') /\
    0 < k.
Proof.
  set (st := with_heart_data [0; 0; 0; 0; 0] (example_state 0)).
  assert (Hv : valid_refs (pos_store st) (heart_data st)).
  { intros r Hr. simpl in Hr. simpl.
    repeat (apply elem_of_cons in Hr as [-> | Hr]; [lia |]). inversion Hr. }
  assert (H5 : 5 <= length (heart_data st)) by (simpl; lia).
  split; [auto |].
  destruct (top_up_batches st Hv H5) as (k & s' & E & _ & _ & _ & Hshort & _).
  exists k, s'. split; [exact E |]. apply Hshort.
  unfold PARTICLE_COUNT. simpl. lia.
Defined.

(** ** The clouds while the program runs *)

Lemma root_frozen_refl (s : state) : root_frozen s s.
Proof. unfold root_frozen. auto. Qed.

Lemma root_frozen_trans (s1 s2 s3 : state) :
  root_frozen s1 s2 -> root_frozen s2 s3 -> root_frozen s1 s3.
Proof.
  intros (Hr & Hw & Hl & Ho) (Hr' & Hw' & Hl' & Ho'). unfold root_frozen.
  split; [congruence |]. split; [congruence |]. split; [congruence |].
  intros l Hin. rewrite Ho' by (rewrite Hr; exact Hin). apply Ho, Hin.
Qed.

(** One turn of the main loop, as far as the two clouds go. *)
Lemma frame_clouds (s : state) :
  wf s ->
  exists s',
    frame s = Ok (tt, s') /\ wf s' /\ root_frozen s s' /\ cloud_tracks_root s'.
Proof.
  intros Hwf.
  destruct (frame_spec s Hwf) as (s' & E' & Hwf' & _).
  exists s'. split; [exact E' |]. split; [exact Hwf' |].
  revert E'. unfold frame.
  rewrite (bind_Ok _ _ _ _ _ (modify_Ok _ _)).
  rewrite (bind_Ok _ _ _ _ _ (gets_Ok _ _)).
  rewrite (bind_Ok _ _ _ _ _ (gets_Ok _ _)).
  set (sa := with_screen [] s). state_simpl.
  pose proof Hwf as (Hvw & Hvr & Hlen & Hsep & H5 & Hvp & Hndp & Hrinv & Hvel).
  destruct (heart_beat_spec sa (heart_data s) (heart_data_root s) 0 Hvw Hvr ltac:(lia))
    as (sb & Eb & Hinvb).
  rewrite (bind_Ok _ _ _ _ _ Eb).
  destruct (wf_heart_beat s (with_clock_cursor (S (clock_cursor sa)) sa) sb _ Hwf
              eq_refl eq_refl eq_refl Hinvb)
    as (Hwfb & _ & Hrootb).
  destruct Hinvb as (_ & _ & _ & _ & Hgb & _ & Hlb & _ & _ & _ & Hdef).
  apply globals_inv in Hgb as (Hrb & Hwb & Hfb). state_simpl.
  destruct (draw_heart_spec (heart_data s) sb) as [sc Ec].
  { intros r Hr. rewrite Hlb. apply Hvw, Hr. }
  rewrite (bind_Ok _ _ _ _ _ Ec).
  rewrite (bind_Ok _ _ _ _ _ (gets_Ok _ _)). state_simpl.
  set (s_c := with_screen sc sb).
  assert (Hwfc : wf s_c) by (apply (wf_ext sb); [reflexivity .. | exact Hwfb]).
  pose proof Hwfc as (_ & Hvrc & _ & _ & H5c & Hvpc & Hndpc & _).
  destruct (update_falling_particles_spec s_c (falling_particles sb) Hvpc Hndpc Hvrc)
    as (kept & news & sd & Ed & Hpost).
  { intros E. destruct Hwfc as (_ & _ & Hlenc & _). rewrite Hlenc, E in H5c.
    simpl in H5c. lia. }
  rewrite (bind_Ok _ _ _ _ _ Ed). rewrite (bind_Ok _ _ _ _ _ (modify_Ok _ _)).
  pose proof (wf_update s_c sd kept news Hwfc Hpost) as Hwfe.
  destruct Hpost as (_ & _ & _ & _ & _ & _ & Hpd & Hgd & _).
  apply globals_inv in Hgd as (Hrd & Hwd & Hfd). unfold s_c in *. state_simpl.
  set (se := with_falling_particles
               (kept ++ seq (length (particle_store sb)) (length news)) sd) in *.
  unfold top_up. rewrite (bind_Ok _ _ _ _ _ (gets_Ok _ _)).
  pose proof Hwfe as (Hvwe & _ & _ & _ & H5e & _).
  destruct (top_up_loop_spec (PARTICLE_COUNT - length (falling_particles se)) se
              Hvwe H5e ltac:(lia))
    as (k & added & sf & Ef & _ & _ & _ & _ & _ & _ & _ & Hpf & Hwf0 & Hrf & _).
  rewrite Ef. intros E'. injection E' as <-.
  assert (Hpos : pos_store sf = pos_store sb).
  { rewrite Hpf. unfold se. state_simpl. exact Hpd. }
  assert (Hw : heart_data sf = heart_data s).
  { rewrite Hwf0. unfold se. state_simpl. rewrite Hwd, Hwb. reflexivity. }
  assert (Hr : heart_data_root sf = heart_data_root s).
  { rewrite Hrf. unfold se. state_simpl. rewrite Hrd, Hrb. reflexivity. }
  split.
  - unfold root_frozen. rewrite Hpos, Hlb. auto.
  - intros i h o Hh Ho. rewrite Hw in Hh. rewrite Hr in Ho. rewrite Hpos.
    assert (Hi : i < length (heart_data s)) by (eapply lookup_lt_Some; eauto).
    destruct (Hdef Hsep i h o Hi Hh Ho) as (ph & po & _ & Hpo & Hp').
    state_simpl. eexists po, _.
    split; [rewrite Hrootb; [exact Hpo | apply list_elem_of_lookup; eauto] |].
    split; [exact Hp' |].
    split; cbn [deformed Pos.real_x Pos.real_y]; apply deformed_offset_close;
      solve [apply scale_factor_near_one | apply jitter3_bounds].
Qed.

Lemma frames_clouds (n : nat) :
  forall s, wf s ->
    exists s',
      frames n s = Ok (tt, s') /\ wf s' /\ root_frozen s s' /\
      (n <> 0 -> cloud_tracks_root s').
Proof.
  induction n as [| n IH]; intros s Hwf.
  - exists s. simpl. split; [reflexivity |]. split; [exact Hwf |].
    split; [apply root_frozen_refl |]. intros H. contradiction.
  - destruct (frame_clouds s Hwf) as (s1 & E1 & Hwf1 & Hfr1 & Htr1).
    destruct (IH s1 Hwf1) as (s' & E & Hwf' & Hfr & Htr).
    exists s'. simpl. rewrite (bind_Ok _ _ _ _ _ E1).
    split; [exact E |]. split; [exact Hwf' |].
    split; [eapply root_frozen_trans; eauto |]. intros _.
    destruct n as [| n]; [| apply Htr; discriminate].
    simpl in E. injection E as <-. exact Htr1.
Qed.

(** X22: the main loop never touches the root cloud.  However many turns
    the program runs, the two module-level clouds hold the references they
    held after start-up, no [Pos] object is created, and every root point
    has the contents it had after start-up. *)
Theorem root_cloud_frozen (n : nat) (ints : nat -> Z) (units times : nat -> R) :
  exists s0 s,
    startup (initial_state ints units times) = Ok (tt, s0) /\
    main n (initial_state ints units times) = Ok (tt, s) /\
    heart_data_root s = heart_data_root s0 /\
    heart_data s = heart_data s0 /\
    length (pos_store s) = length (pos_store s0) /\
    forall l, l ∈ heart_data_root s0 -> pos_store s !! l = pos_store s0 !! l.
Proof.
  destruct (startup_spec ints units times) as (s0 & E0 & Hwf0 & _).
  destruct (frames_clouds n s0 Hwf0) as (s & E & _ & Hfr & _).
  exists s0, s. split; [exact E0 |]. split; [| exact Hfr].
  unfold main. rewrite (bind_Ok _ _ _ _ _ E0). exact E.
Qed.

(** X23: the heart never drifts.  After any positive number of turns,
    whatever the clock and the random draws were, every working point lies
    near the root point of the same index: on each axis its logical offset
    differs from the root offset by less than 6 percent of it plus [4]. *)
Theorem working_cloud_tracks_root (n : nat) (ints : nat -> Z) (units times : nat -> R) :
  exists s,
    main (S n) (initial_state ints units times) = Ok (tt, s) /\
    length (heart_data s) = length (heart_data_root s) /\
    forall i h o, heart_data s !! i = Some h -> heart_data_root s !! i = Some o ->
      exists po p,
        pos_store s !! o = Some po /\ pos_store s !! h = Some p /\
        (Rabs (IZR (Pos.real_x p) - IZR (Pos.real_x po))
           < 0.06 * Rabs (IZR (Pos.real_x po)) + 4)%R /\
        (Rabs (IZR (Pos.real_y p) - IZR (Pos.real_y po))
           < 0.06 * Rabs (IZR (Pos.real_y po)) + 4)%R.
Proof.
  destruct (startup_spec ints units times) as (s0 & E0 & Hwf0 & _).
  destruct (frames_clouds (S n) s0 Hwf0) as (s & E & Hwf & _ & Htr).
  exists s. split; [unfold main; rewrite (bind_Ok _ _ _ _ _ E0); exact E |].
  split; [apply Hwf |]. apply Htr. discriminate.
Qed.

(** ** The update pass over an empty root cloud *)

Lemma falls_off_dec (ct : R) (o : Particle.t) : {falls_off ct o} + {~ falls_off ct o}.
Proof.
  unfold falls_off, off_screen.
  destruct (starts_dec ct o) as [Hs | Hns]; [| right; tauto].
  destruct (Rgt_dec (Particle.y (advance o)) (IZR HEIGHT)); [left | right]; tauto.
Qed.

(** The first particle of the list that leaves the screen. *)
Lemma first_falling (ct : R) (store : list Particle.t) (particles : list loc) (l : loc)
    (o : Particle.t) :
  l ∈ particles -> store !! l = Some o -> falls_off ct o ->
  exists pre p po post,
    particles = pre ++ p :: post /\
    store !! p = Some po /\ falls_off ct po /\
    forall q qo, q ∈ pre -> store !! q = Some qo -> ~ falls_off ct qo.
Proof.
  induction particles as [| a particles IH]; intros Hin Ho Hf; [inversion Hin |].
  destruct (store !! a) as [ao |] eqn:Ea.
  - destruct (falls_off_dec ct ao) as [Hfa | Hna].
    + exists [], a, ao, particles.
      split; [reflexivity |]. split; [exact Ea |]. split; [exact Hfa |].
      intros q qo Hq. inversion Hq.
    + apply elem_of_cons in Hin as [-> | Hin]; [congruence |].
      destruct (IH Hin Ho Hf) as (pre & p & po & post & -> & Hp & Hfp & Hpre).
      exists (a :: pre), p, po, post.
      split; [reflexivity |]. split; [exact Hp |]. split; [exact Hfp |].
      intros q qo Hq Hqo. apply elem_of_cons in Hq as [-> | Hq]; [congruence | eauto].
  - apply elem_of_cons in Hin as [-> | Hin]; [congruence |].
    destruct (IH Hin Ho Hf) as (pre & p & po & post & -> & Hp & Hfp & Hpre).
    exists (a :: pre), p, po, post.
    split; [reflexivity |]. split; [exact Hp |]. split; [exact Hfp |].
    intros q qo Hq Hqo. apply elem_of_cons in Hq as [-> | Hq]; [congruence | eauto].
Qed.

(** The turns over particles that stay: the lists are not changed, and no
    other particle is written. *)
Lemma update_prefix_stays (ct : R) (acc : list loc * list loc) (pre : list loc) :
  forall s,
    valid_refs (particle_store s) pre ->
    NoDup pre ->
    (forall q qo, q ∈ pre -> particle_store s !! q = Some qo -> ~ falls_off ct qo) ->
    exists s',
      for_ pre acc (update_one ct) s = Ok (acc, s') /\
      heart_data_root s' = heart_data_root s /\
      forall l, l ∉ pre -> particle_store s' !! l = particle_store s !! l.
Proof.
  induction pre as [| a pre IH]; intros s Hvalid Hnd Hstay.
  - exists s. simpl. auto.
  - apply NoDup_cons in Hnd as [Ha Hnd].
    assert (Ha_lt : a < length (particle_store s)) by (apply Hvalid; left).
    destruct (lookup_lt_is_Some_2 _ _ Ha_lt) as [o Ho].
    assert (Hstep : exists s1,
              update_one ct a acc s = Ok (acc, s1) /\
              heart_data_root s1 = heart_data_root s /\
              length (particle_store s1) = length (particle_store s) /\
              forall l, l <> a -> particle_store s1 !! l = particle_store s !! l).
    { destruct (starts_dec ct o) as [Hs | Hns].
      - destruct (settle_draw a acc
                    (with_particle_store (<[a := advance o]> (particle_store s)) s)
                    (advance o)) as [sc Hsc].
        { cbn. apply list_lookup_insert_eq. exact Ha_lt. }
        { intros Hoff. apply (Hstay a o); [left | exact Ho | split; assumption]. }
        eexists. split; [rewrite (update_one_moves _ _ _ _ _ Ho Hs); exact Hsc |].
        cbn. split; [reflexivity |]. split; [apply length_insert |].
        intros l Hl. apply list_lookup_insert_ne. congruence.
      - exists s. split; [apply (update_one_waiting _ _ _ _ _ Ho Hns) | auto]. }
    destruct Hstep as (s1 & E1 & Hr1 & Hl1 & Hf1).
    destruct (IH s1) as (s' & E & Hr & Hf).
    { intros r Hr. rewrite Hl1. apply Hvalid. right. exact Hr. }
    { exact Hnd. }
    { intros q qo Hq Hqo. rewrite Hf1 in Hqo by (intros ->; contradiction).
      apply (Hstay q qo); [right; exact Hq | exact Hqo]. }
    exists s'. simpl. rewrite (bind_Ok _ _ _ _ _ E1).
    split; [exact E |]. split; [congruence |].
    intros l Hl. rewrite not_elem_of_cons in Hl. destruct Hl as [Hne Hl].
    rewrite Hf by exact Hl. apply Hf1, Hne.
Qed.

Lemma list_remove_elem (p : loc) (l : list loc) :
  p ∈ l -> exists r, list_remove p l = Some r.
Proof.
  induction l as [| b l IH]; intros Hin; [inversion Hin |]. simpl.
  destruct (decide (b = p)); [eauto |].
  apply elem_of_cons in Hin as [-> | Hin]; [congruence |].
  destruct (IH Hin) as [r ->]. eauto.
Qed.

(** X24: with an empty root cloud, [update_falling_particles] raises
    [IndexError] as soon as a particle leaves the screen: [random.choice]
    has nothing to choose from. *)
Theorem update_falling_particles_empty_root
    (s : state) (particles : list loc) (l : loc) (o : Particle.t) :
  valid_refs (particle_store s) particles ->
  NoDup particles ->
  heart_data_root s = [] ->
  l ∈ particles ->
  particle_store s !! l = Some o ->
  falls_off (clock s (clock_cursor s)) o ->
  update_falling_particles particles s = Raise IndexError.
Proof.
  intros Hvalid Hnd Hroot Hin Ho Hfall. unfold update_falling_particles.
  rewrite (bind_Ok _ _ _ _ _ (time_time_Ok s)).
  set (ct := clock s (clock_cursor s)) in *.
  set (s0 := with_clock_cursor (S (clock_cursor s)) s).
  destruct (first_falling ct (particle_store s0) particles l o Hin Ho Hfall)
    as (pre & p & po & post & Esplit & Hp & Hfp & Hpre).
  assert (Hnd' : NoDup (pre ++ p :: post)) by (rewrite <- Esplit; exact Hnd).
  apply NoDup_app in Hnd' as (Hnd_pre & Hp_pre & _).
  destruct (update_prefix_stays ct (particles, []) pre s0) as (s1 & E1 & Hr1 & Hf1).
  { intros r Hr. apply Hvalid. rewrite Esplit. apply elem_of_app. left. exact Hr. }
  { exact Hnd_pre. }
  { exact Hpre. }
  assert (Hp1 : particle_store s1 !! p = Some po).
  { rewrite Hf1; [exact Hp |]. intros Hin'. apply (Hp_pre p Hin'). left. }
  assert (Hp_lt : p < length (particle_store s1)) by (eapply lookup_lt_Some; eauto).
  destruct (list_remove_elem p particles) as [cur Hcur].
  { rewrite Esplit. apply elem_of_app. right. left. }
  unfold bind at 1. rewrite Esplit at 1. rewrite for_app.
  unfold bind at 1. rewrite E1. cbn [for_]. unfold bind at 1.
  destruct Hfp as [Hs Hoff].
  rewrite (update_one_moves _ _ _ _ _ Hp1 Hs).
  unfold settle.
  erewrite bind_Ok; [| apply get_Particle_Ok; cbn; apply list_lookup_insert_eq, Hp_lt].
  destruct (Rgt_dec (Particle.y (advance po)) (IZR HEIGHT)) as [_ | Hn]; [| contradiction].
  cbn [fst]. rewrite Hcur. unfold bind at 1, gets. cbn. rewrite Hr1.
  unfold s0. state_simpl. rewrite Hroot. reflexivity.
Qed.

Lemma update_falling_particles_empty_root_witness :
  (valid_refs (particle_store (with_heart_data_root [] (example_state 0))) [0] /\
   NoDup [0] /\
   heart_data_root (with_heart_data_root [] (example_state 0)) = [] /\
   0 ∈ [0]) /\
  update_falling_particles [0] (with_heart_data_root [] (example_state 0)) =
    Raise IndexError.
Proof.
  set (st := with_heart_data_root [] (example_state 0)).
  assert (Hv : valid_refs (particle_store st) [0]) by (apply valid_refs_singleton; simpl; lia).
  assert (Hnd : NoDup [0]) by apply NoDup_singleton.
  assert (Hin : 0 ∈ [0]) by left.
  split; [auto |].
  apply (update_falling_particles_empty_root st [0] 0 (Particle.mk 5 601 PINK 0 0 0 0 true)
           Hv Hnd eq_refl Hin eq_refl).
  apply active_off_screen_falls; cbn; [reflexivity | unfold HEIGHT; lra | lra].
Defined.

(** ** The state after start-up *)

Lemma generated_inside (jx jy scale_type : Z) (added : list Pos.t) (pts : list (Z * Z))
    (i : nat) (p : Pos.t) :
  (-2 <= scale_type < 2)%Z ->
  Forall2 (generated jx jy) added (filter (fun xy => inside scale_type xy = true) pts) ->
  added !! i = Some p ->
  exists g, generated jx jy p g /\ heart_equation g.1 g.2 scale_type = Ok true.
Proof.
  intros Hst Hgen Hp.
  destruct (Forall2_lookup_l _ _ _ _ _ Hgen Hp) as (g & Hg & Hpg).
  exists g. split; [exact Hpg |].
  apply list_elem_of_lookup_2, list_elem_of_filter in Hg as [Hin _].
  rewrite (heart_equation_valid _ _ _ Hst). destruct g. cbn [fst snd]. rewrite Hin.
  reflexivity.
Qed.

Lemma startup_detail (ints : nat -> Z) (units times : nat -> R) :
  exists s n,
    startup (initial_state ints units times) = Ok (tt, s) /\
    heart_data_root s = seq 0 n /\
    heart_data s = seq n n /\
    falling_particles s = seq 0 PARTICLE_COUNT /\
    length (particle_store s) = PARTICLE_COUNT /\
    (forall i, i < n ->
       exists po ph st jx g,
         pos_store s !! i = Some po /\ pos_store s !! (n + i) = Some ph /\
         ((st = 0 /\ jx = 20) \/ (st = 1 /\ jx = 5))%Z /\
         seeded st jx g po ph) /\
    (forall p, p ∈ particle_store s ->
       exists h po j u,
         h < n /\ pos_store s !! h = Some po /\
         Particle.x p = Pos.x po /\ Particle.y p = IZR (Pos.y po) /\
         Particle.color p = Pos.color po /\
         Particle.start_time p = (times j + delay_of MAX_DELAY u)%R /\
         Particle.velocity p = 0%R /\ Particle.active p = false).
Proof.
  set (si := initial_state ints units times).
  unfold startup, get_pos_begin, get_hide_pos.
  (* the two scans *)
  destruct (scan_points_spec si [] 20 10 0 (py_range ((- WIDTH) / 2) (WIDTH / 2) 1)
              (py_range ((- HEIGHT) / 2) (HEIGHT / 2) 2)
              ltac:(lia) ltac:(lia) ltac:(lia) si (scan_points_inv_init si [] 20 10 0))
    as (root1 & s1 & E1 & Hps1 & Hg1 & Hor1 & Hcc1 & _ & added1 & Hst1 & _ & Hgen1 & Hacc1).
  rewrite (bind_Ok _ _ _ _ _ E1).
  destruct (scan_points_spec s1 [] 5 10 1 (py_range ((- WIDTH) / 2) (WIDTH / 2) 1)
              (py_range ((- HEIGHT) / 2) (HEIGHT / 2) 1)
              ltac:(lia) ltac:(lia) ltac:(lia) s1 (scan_points_inv_init s1 [] 5 10 1))
    as (layout_2 & s2 & E2 & Hps2 & Hg2 & Hor2 & Hcc2 & _ & added2 & Hst2 & _ & Hgen2 & Hacc2).
  rewrite (bind_Ok _ _ _ _ _ E2).
  pose proof enough_points as Hmany.
  rewrite <- (Forall2_length _ _ _ Hgen1) in Hmany.
  assert (Hin1 : forall i p, added1 !! i = Some p ->
            exists g, generated 20 10 p g /\ heart_equation g.1 g.2 0 = Ok true).
  { intros i p. apply (generated_inside 20 10 0 added1 _ i p ltac:(lia) Hgen1). }
  assert (Hin2 : forall i p, added2 !! i = Some p ->
            exists g, generated 5 10 p g /\ heart_equation g.1 g.2 1 = Ok true).
  { intros i p. apply (generated_inside 5 10 1 added2 _ i p ltac:(lia) Hgen2). }
  clear Hgen1 Hgen2.
  subst si. state_simpl. rewrite app_nil_l in Hst1, Hacc1, Hacc2.
  cbn [length] in Hacc1. subst root1 layout_2.
  rewrite Hst1 in Hst2. rewrite Hst1.
  rewrite <- seq_app.
  set (n := length added1 + length added2).
  rewrite (bind_Ok _ _ _ _ _ (modify_Ok _ _)).
  rewrite (bind_Ok _ _ _ _ _ (gets_Ok _ _)).
  state_simpl.
  set (s3 := with_heart_data_root (seq 0 n) s2).
  assert (Hn : length (pos_store s3) = n).
  { subst s3. state_simpl. rewrite Hst2, length_app. reflexivity. }
  (* the working copy *)
  assert (Hv3 : valid_refs (pos_store s3) (seq 0 n)) by (apply valid_refs_seq; lia).
  destruct (deepcopy_spec s3 (seq 0 n) Hv3 s3 (copy_inv_init s3))
    as (working & s4 & E4 & Hw & copies & Hs4 & Hclen & Hcopies).
  rewrite (bind_Ok _ _ _ _ _ E4).
  rewrite length_seq in Hw, Hclen. rewrite Hn in Hw. subst working.
  rewrite (bind_Ok _ _ _ _ _ (modify_Ok _ _)).
  set (s5 := with_heart_data (seq n n) s4).
  assert (Hps5 : pos_store s5 = pos_store s2 ++ copies) by (subst s5 s4 s3; reflexivity).
  assert (Hlen5 : length (pos_store s5) = n + n).
  { rewrite Hps5, Hst2, !length_app. unfold n. lia. }
  assert (Hpart5 : particle_store s5 = []).
  { subst s5 s4 s3. state_simpl. rewrite Hps2, Hps1. reflexivity. }
  assert (Hg5 : globals s5 = (seq 0 n, seq n n, [])).
  { subst s5 s4 s3. unfold globals in *. state_simpl.
    injection Hg2 as _ _ ->. injection Hg1 as _ _ ->. reflexivity. }
  assert (Hor5 : oracles s5 = (ints, units, times)).
  { subst s5 s4 s3. unfold oracles in *. state_simpl. rewrite Hor2, Hor1. reflexivity. }
  assert (Hcopy : forall i, i < n -> copies !! i = (added1 ++ added2) !! i).
  { intros i Hi. rewrite (Hcopies i i) by (apply lookup_seq; lia).
    subst s3. state_simpl. rewrite Hst2. reflexivity. }
  (* the pool *)
  destruct (generate_falling_particles_spec s5 (seq 0 n) PARTICLE_COUNT)
    as (parts & s6 & E6 & Hst6 & Hplen & Hps6 & Hg6 & Hor6 & Hparts).
  { apply valid_refs_seq. lia. }
  { rewrite length_seq. unfold n. lia. }
  { unfold PARTICLE_COUNT. lia. }
  rewrite (bind_Ok _ _ _ _ _ E6).
  rewrite (bind_Ok _ _ _ _ _ (modify_Ok _ _)).
  rewrite Hpart5 in Hst6, E6 |- *. rewrite app_nil_l in Hst6. cbn [length].
  assert (Hclock5 : clock s5 = times).
  { unfold oracles in Hor5. congruence. }
  clearbody s5. clear E1 E2 E4 E6.
  set (s7 := with_falling_particles (seq 0 PARTICLE_COUNT) s6).
  (* the normalization pass *)
  assert (Hv7 : valid_refs (pos_store s7) (seq 0 n)).
  { apply valid_refs_seq. unfold s7. state_simpl. rewrite Hps6, Hlen5. lia. }
  destruct (normalize_spec s7 (seq 0 n) Hv7 s7 (normalize_inv_init s7 ))
    as ([] & s8 & E8 & Hsame & Hlen8 & Hframe8 & Hinv8 & Hkeep8).
  exists s8, n. split; [exact E8 |].
  destruct Hsame as (Hpart8 & _ & _ & _ & Hg8 & Hor8).
  apply globals_inv in Hg8 as (Hr8 & Hw8 & Hf8).
  rewrite Hg5 in Hg6. unfold globals in Hg6.
  assert (Hr6 : heart_data_root s6 = seq 0 n) by congruence.
  assert (Hw6 : heart_data s6 = seq n n) by congruence.
  subst s7. state_simpl. rewrite Hr6 in Hr8. rewrite Hw6 in Hw8. clear Hg6.
  assert (Hpart8' : particle_store s8 = parts).
  { rewrite Hpart8. exact Hst6. }
  assert (Hstore7 : pos_store s6 = (added1 ++ added2) ++ copies).
  { rewrite Hps6, Hps5, Hst2. reflexivity. }
  split; [exact Hr8 |]. split; [exact Hw8 |]. split; [exact Hf8 |].
  split; [rewrite Hpart8'; exact Hplen |].
  split.
  - intros i Hi.
    assert (Hi' : i < length (added1 ++ added2)) by (rewrite length_app; exact Hi).
    destruct (lookup_lt_is_Some_2 _ _ Hi') as [g0 Hg0].
    destruct (Hinv8 i) as (po & Hpo & Hci); [apply elem_of_seq; lia |].
    destruct (Hkeep8 i po Hpo) as (p0 & Hp0 & Hx & Hy & Hc).
    rewrite Hstore7, lookup_app_l, Hg0 in Hp0 by (rewrite length_app; lia).
    injection Hp0 as <-.
    assert (Hph : pos_store s8 !! (n + i) = Some g0).
    { rewrite Hframe8 by (rewrite elem_of_seq; lia).
      rewrite Hstore7, lookup_app_r by (rewrite length_app; fold n; lia).
      rewrite length_app. fold n. replace (n + i - n) with i by lia.
      rewrite Hcopy by exact Hi. exact Hg0. }
    assert (Hcase : exists st jx g,
              ((st = 0 /\ jx = 20) \/ (st = 1 /\ jx = 5))%Z /\
              generated jx 10 g0 g /\ heart_equation g.1 g.2 st = Ok true).
    { destruct (decide (i < length added1)) as [Hlt | Hge].
      - rewrite lookup_app_l in Hg0 by exact Hlt.
        destruct (Hin1 i g0 Hg0) as (g & Hgen & Heq).
        exists 0%Z, 20%Z, g. auto.
      - rewrite lookup_app_r in Hg0 by lia.
        destruct (Hin2 _ g0 Hg0) as (g & Hgen & Heq).
        exists 1%Z, 5%Z, g. auto. }
    destruct Hcase as (st & jx & g & Hsel & (Hrx & Hry & Hcol & Hjx & Hjy) & Heq).
    exists po, g0, st, jx, g. split; [exact Hpo |]. split; [exact Hph |].
    split; [exact Hsel |].
    destruct Hci as [Hcx Hcy]. unfold seeded, coordinate_invariant.
    split; [exact Heq |]. do 3 (split; [assumption |]).
    do 3 (split; [assumption |]). split; [split; assumption |].
    split; lia.
  - intros p Hp. rewrite Hpart8' in Hp.
    destruct (Hparts p Hp) as (h & o & j & u & Hh & Ho & ->).
    apply elem_of_seq in Hh.
    destruct (Hinv8 h) as (po & Hpo & _); [apply elem_of_seq; lia |].
    destruct (Hkeep8 h po Hpo) as (p0 & Hp0 & Hx & Hy & Hc).
    rewrite Hps6, Ho in Hp0. injection Hp0 as <-.
    exists h, po, j, u. split; [lia |]. split; [exact Hpo |].
    unfold particle_of. cbn. rewrite Hx, Hy, Hc, Hclock5. auto 10.
Qed.

(** X25: the two clouds after start-up.  They have the same length, and
    for every index the root point and the working point are two distinct
    objects made from one grid point [g] inside the first curve (selector
    [0], horizontal jitter [20]) or the second (selector [1], jitter [5]):
    both have the gradient colour of [g] and the same jittered screen
    position; the working point still holds the offsets of [g], while the
    offsets of the root point have been recomputed from the screen
    position, so they lie within the jitter of [g]. *)
Theorem startup_clouds (ints : nat -> Z) (units times : nat -> R) :
  exists s,
    startup (initial_state ints units times) = Ok (tt, s) /\
    length (heart_data s) = length (heart_data_root s) /\
    forall i o h, heart_data_root s !! i = Some o -> heart_data s !! i = Some h ->
      (h ∉ heart_data_root s) /\
      exists po ph st jx g,
        pos_store s !! o = Some po /\ pos_store s !! h = Some ph /\
        ((st = 0 /\ jx = 20) \/ (st = 1 /\ jx = 5))%Z /\
        seeded st jx g po ph.
Proof.
  destruct (startup_detail ints units times)
    as (s & n & E & Hr & Hw & _ & _ & Hclouds & _).
  exists s. split; [exact E |]. rewrite Hr, Hw, !length_seq.
  split; [reflexivity |]. intros i o h Ho Hh.
  apply lookup_seq in Ho as [-> Hi]. apply lookup_seq in Hh as [-> _].
  split; [rewrite elem_of_seq; lia |].
  destruct (Hclouds i Hi) as (po & ph & st & jx & g & Hpo & Hph & Hsel & Hseed).
  exists po, ph, st, jx, g. auto.
Qed.

(** X26: the pool after start-up.  It holds [PARTICLE_COUNT] distinct
    particles; each one sits at the screen position of a root point and
    has its colour, is at rest and inactive, and starts at a clock reading
    plus a delay of [0, MAX_DELAY]. *)
Theorem startup_pool (ints : nat -> Z) (units times : nat -> R) :
  exists s,
    startup (initial_state ints units times) = Ok (tt, s) /\
    length (falling_particles s) = PARTICLE_COUNT /\
    NoDup (falling_particles s) /\
    forall l, l ∈ falling_particles s ->
      exists p h po j delay,
        particle_store s !! l = Some p /\
        h ∈ heart_data_root s /\ pos_store s !! h = Some po /\
        Particle.x p = Pos.x po /\ Particle.y p = IZR (Pos.y po) /\
        Particle.color p = Pos.color po /\
        Particle.start_time p = (times j + delay)%R /\ (0 <= delay <= MAX_DELAY)%R /\
        Particle.velocity p = 0%R /\ Particle.active p = false.
Proof.
  destruct (startup_detail ints units times)
    as (s & n & E & Hr & _ & Hf & Hlen & _ & Hpool).
  exists s. split; [exact E |]. rewrite Hf, Hr.
  split; [apply length_seq |]. split; [apply NoDup_seq |].
  intros l Hl. apply elem_of_seq in Hl.
  destruct (lookup_lt_is_Some_2 (particle_store s) l ltac:(lia)) as [p Hp].
  destruct (Hpool p (list_elem_of_lookup_2 _ _ _ Hp))
    as (h & po & j & u & Hh & Hpo & Hx & Hy & Hc & Hstart & Hv & Ha).
  exists p, h, po, j, (delay_of MAX_DELAY u).
  split; [exact Hp |]. split; [apply elem_of_seq; lia |]. split; [exact Hpo |].
  do 4 (split; [assumption |]).
  split; [apply delay_of_bounds; unfold MAX_DELAY; lra | auto].
Qed.

(** ** The root cloud between construction and normalization *)

Lemma scan_shift_spec (s0 : state) (acc0 : list loc) (jx jy scale_type : Z)
    (xs ys : list Z) :
  (0 <= jx)%Z -> (0 <= jy)%Z -> (-2 <= scale_type < 2)%Z ->
  hoare (scan_shift_inv s0 acc0 jx jy acc0)
    (for_ xs acc0 (fun real_x heart_data =>
       for_ ys heart_data (fun real_y heart_data =>
         plot jx jy scale_type real_x real_y heart_data)))
    (fun acc => scan_shift_inv s0 acc0 jx jy acc).
Proof.
  intros Hjx Hjy Hst.
  apply (hoare_for (fun _ acc s => scan_shift_inv s0 acc0 jx jy acc s)).
  intros _ x _ acc _.
  apply (hoare_for (fun _ acc s => scan_shift_inv s0 acc0 jx jy acc s)).
  intros _ y _ acc' _ s (Hints & added & Hstore & Hacc & Hall).
  rewrite (plot_point jx jy scale_type x y acc' s Hjx Hjy Hst).
  destruct (inside scale_type (x, y)).
  - eexists _, _. split; [reflexivity |]. unfold scan_shift_inv. cbn.
    split; [exact Hints |].
    eexists (added ++ [_]). rewrite Hstore, <- app_assoc. split; [reflexivity |].
    split.
    { rewrite Hacc, !length_app, seq_app, app_assoc. reflexivity. }
    apply Forall_app. split; [exact Hall |]. constructor; [| constructor].
    cbn. rewrite Hints. eauto.
  - exists acc', s. split; [reflexivity |]. unfold scan_shift_inv. eauto.
Qed.

(** C3 as stated fails for the root cloud after construction: with every
    raw random draw equal to [0], each of the points that
    [get_pos_begin(heart_data_root, 0)] has created at start-up (at least
    [PARTICLE_COUNT] of them) is stored [20] pixels to the left of
    [center_x + real_x], so none satisfies the invariant.  The program
    reads the cloud in this state ([deepcopy], the seeding of the pool)
    before the normalization pass repairs it. *)
Lemma root_cloud_construction_counterexample :
  exists root s',
    get_pos_begin [] 0 (initial_state (fun _ => 0%Z) (fun _ => 0%R) (fun _ => 0%R)) =
      Ok (root, s') /\
    PARTICLE_COUNT <= length root /\
    forall l, l ∈ root ->
      exists p, pos_store s' !! l = Some p /\
        Pos.x p = (center_x + Pos.real_x p - 20)%Z /\
        ~ coordinate_invariant p.
Proof.
  set (si := initial_state (fun _ => 0%Z) (fun _ => 0%R) (fun _ => 0%R)).
  unfold get_pos_begin.
  destruct (scan_spec si [] 20 10 0 (py_range ((- WIDTH) / 2) (WIDTH / 2) 1)
              (py_range ((- HEIGHT) / 2) (HEIGHT / 2) 2)
              ltac:(lia) ltac:(lia) (or_introl eq_refl) si (scan_inv_init si [] 0))
    as (root & s' & E & _ & _ & _ & _ & added & Hst & Hlen & Hacc).
  destruct (scan_shift_spec si [] 20 10 0 (py_range ((- WIDTH) / 2) (WIDTH / 2) 1)
              (py_range ((- HEIGHT) / 2) (HEIGHT / 2) 2)
              ltac:(lia) ltac:(lia) ltac:(lia) si)
    as (root' & s'' & E' & _ & added' & Hst' & _ & Hall).
  { split; [reflexivity |]. exists []. rewrite app_nil_r.
    split; [reflexivity |]. split; [reflexivity | constructor]. }
  rewrite E in E'. injection E' as <- <-.
  rewrite Hst in Hst'. apply app_inv_head in Hst'. subst added'.
  exists root, s'. split; [exact E |].
  change (pos_store si) with (@nil Pos.t) in Hst, Hacc.
  rewrite app_nil_l in Hst, Hacc. cbn [length] in Hacc.
  split.
  { rewrite Hacc, length_seq, Hlen. exact enough_points. }
  intros l Hl. rewrite Hacc in Hl. apply elem_of_seq in Hl.
  destruct (lookup_lt_is_Some_2 added l ltac:(lia)) as [p Hp].
  exists p. rewrite Hst. split; [exact Hp |].
  rewrite Forall_forall in Hall.
  destruct (Hall p (list_elem_of_lookup_2 _ _ _ Hp)) as (i & j & Hx & _).
  change (rand_ints si i) with 0%Z in Hx.
  change (jitter 20 0) with (-20)%Z in Hx.
  split; [lia |]. intros [Hinv _]. lia.
Qed.
